(** * sem_and_share.cpp: semaphores and shared memory

    The program creates a System V semaphore set and five one-word shared
    memory segments, forks five children that each run [open_and_write], waits
    for them and removes the kernel objects again.  The development models the
    kernel objects, the console, the files and the processes as one state, the
    parent and the children as small-step transition functions over it, and
    proves the locking protocol from the reachable states.

    A step is one statement of the source that touches shared state: a
    [semop], a read or a write of a busy flag, an [open], an output line, a
    [sleep], a [close], an [exit], a [fork], a [wait].  A scheduler chooses
    which process makes the next step; a step that blocks has no result.

    The source fixes the ring at five resources: [PROC_COUNT = 5], the literal
    [5] in [sem2], six semaphores, the gate at index [5] initialised to [4].
    The definitions take the ring size [N] as a section variable and the
    program is the instance [PROC_COUNT]; [N + 1] semaphores, gate index [N],
    gate value [N - 1].

    [debug] is the constant [false] in the source, so the statements guarded by
    it (the trace lines and [print_sem_val]) are not executed and not modelled.
    The calls whose result the source never inspects are modelled at their
    success: [semget], [shmat], and [semop] on an existing semaphore (no
    signal interrupts it, and the values stay far below the kernel's limit).

    [main] attaches every segment it creates (line 88) and never detaches
    it, and the children inherit the attachments, so a segment that
    [shmctl(IPC_RMID)] has marked is destroyed by the kernel only when [main]
    and all its children have terminated. *)

From Stdlib Require Import ZArith Lia.
From stdpp Require Import gmap strings list fin_maps.

Open Scope Z_scope.

(** ** Data *)

(** Program points of a child: the statements of [open_and_write] (source
    lines in the comments), then [exit(0)] of [main], then the two states the
    kernel keeps a terminated process in. *)
Inductive pc :=
| AcqGate                (* 168 acquire_resource(semSet, 5) *)
| AcqSem1                (* 169 acquire_resource(semSet, sem1) *)
| AcqSem2                (* 170 acquire_resource(semSet, sem2) *)
| Chk1                   (* 174 if ( *shm_ary[sem1] == 0) *)
| Set1                   (* 176 *shm_ary[sem1] = 1 *)
| Chk2                   (* 182 if ( *shm_ary[sem2] == 0) *)
| Set2                   (* 184 *shm_ary[sem2] = 1 *)
| Fail                   (* 179-180, 187-188 cout ERROR; exit(-1) *)
| Open1                  (* 225 db1.open *)
| Open2                  (* 226 db2.open *)
| Say1                   (* 229 cout writing to db1 *)
| Wr1Used                (* 230 db1 << Being used by *)
| Sleep1                 (* 231 sleep(1) *)
| Say2                   (* 232 cout writing to db2 *)
| Wr2Used                (* 233 db2 << Being used by *)
| Sleep2                 (* 234 sleep(1) *)
| Wr1Free                (* 235 db1 << Free from *)
| Wr2Free                (* 236 db2 << Free from *)
| Close1                 (* 239 db1.close() *)
| Clr1                   (* 241 *shm_ary[sem1] = 0 *)
| Rel1                   (* 242 release_resource(semSet, sem1) *)
| Freed1                 (* 243 cout freed up access to db1 *)
| Close2                 (* 245 db2.close() *)
| Clr2                   (* 247 *shm_ary[sem2] = 0 *)
| Rel2                   (* 248 release_resource(semSet, sem2) *)
| Freed2                 (* 249 cout freed up access to db2 *)
| RelGate                (* 250 release_resource(semSet, 5) *)
| Exit0                  (* 113 exit(0) *)
| Zombie (status : Z)    (* terminated, not yet waited for *)
| Reaped (status : Z).   (* collected by wait(NULL) *)

(** Program points of the parent, from the first [fork] on. *)
Inductive ppc :=
| PFork (i : nat)        (* 104-118 loop head with loop variable i *)
| PWait                  (* 121 while ((j = wait(NULL)) != -1) *)
| PCleanup               (* 126-143 destroy segments, remove semaphores *)
| PExit0                 (* 147 exit(0) *)
| PDone (status : Z).    (* terminated *)

(** A line appended to a database file. *)
Inductive line :=
| BeingUsedBy (systemName : string) (pid : Z)  (* "Being used by S (pid:P)" *)
| FreeFrom (systemName : string) (pid : Z).    (* "Free from the S (pid: P)" *)

(** A file is absent from the map, present with its lines, or present and not
    writable by the process. *)
Inductive file :=
| Unwritable
| Content (lines : list line).

(** A line on the console (stdout and stderr together). *)
Inductive msg :=
| MsgWriting (systemName : string) (pid : Z) (filename : string)
| MsgFreed (systemName : string) (pid : Z) (filename : string)
| MsgResourcesInUse      (* "ERROR: Resources are in use!" *)
| MsgShmFailed           (* perror "shmget error", "Failed getting shared memory" *)
| MsgForkFailed          (* "Fork Failed" *)
| MsgDestroyError        (* perror "can't destroy segment",
                            "Error occurred destroying memory segment" *)
| MsgSemNotRemoved.      (* perror "Semaphore was not removed." *)

(** What one step of a child does, recorded in the history of the run. *)
Inductive act :=
| Acquire (semid : nat)
| Release (semid : nat)
| FlagTest (r : nat)
| FlagSet (r : nat) (v : Z)
| OpenFile (filename : string)
| Print (m : msg)
| Append (filename : string) (l : line)
| Sleep
| CloseFile (filename : string)
| Exit (code : Z).

Record proc := mkProc {
  p_pc : pc;
  p_pid : Z;               (* getpid() *)
  p_semadj : list Z;       (* the kernel's SEM_UNDO adjustments of the process *)
  p_db1 : bool;            (* db1 is open and good *)
  p_db2 : bool             (* db2 is open and good *)
}.

Record state := mkState {
  sems : list Z;           (* values of the semaphore set; [] once removed *)
  shm : list Z;            (* *shm_ary[r] *)
  segs : list Z;           (* ids of the shared memory segments that exist *)
  doomed : list Z;         (* those of them that IPC_RMID has marked *)
  shmIds : list Z;         (* the parent's array shmIds *)
  parent : ppc;
  procs : list proc;       (* the children forked so far, by loop index *)
  fs : gmap string file;
  out : list msg;
  hist : list (nat * act)  (* ghost: the children's steps in order *)
}.

#[global] Instance pc_eq_dec : EqDecision pc.
Proof. solve_decision. Defined.
#[global] Instance ppc_eq_dec : EqDecision ppc.
Proof. solve_decision. Defined.
#[global] Instance line_eq_dec : EqDecision line.
Proof. solve_decision. Defined.
#[global] Instance msg_eq_dec : EqDecision msg.
Proof. solve_decision. Defined.
#[global] Instance act_eq_dec : EqDecision act.
Proof. solve_decision. Defined.

Definition PROC_COUNT : nat := 5.

(** [exit(code)]: the parent sees the low eight bits. *)
Definition exit_status (code : Z) : Z := Z.land code 255.

(** The [switch] of [open_and_write], lines 191-222: system name, first and
    second database file.  No case matches an index outside 0..4 and the
    source leaves the three pointers unset there; the model uses empty names,
    which [open_append] refuses.  [PROC_COUNT] never reaches that case. *)
Definition system_of (i : nat) : string * string * string :=
  match i with
  | 0%nat => ("Courses System", "faculty.txt", "students.txt")
  | 1%nat => ("GPA Computation System", "students.txt", "statistics.txt")
  | 2%nat => ("University Statistics System", "statistics.txt", "staff.txt")
  | 3%nat => ("Staff Management System", "staff.txt", "salary.txt")
  | 4%nat => ("Faculty Payroll System", "salary.txt", "faculty.txt")
  | _ => (EmptyString, EmptyString, EmptyString)
  end%string.

Definition systemName (i : nat) : string := (system_of i).1.1.
Definition db1filename (i : nat) : string := (system_of i).1.2.
Definition db2filename (i : nat) : string := (system_of i).2.

(** [ofstream::open(name, out | app)]: creates a missing file, fails on a
    file that cannot be written. *)
Definition open_append (name : string) (m : gmap string file)
  : bool * gmap string file :=
  if decide (name = EmptyString) then (false, m)
  else match m !! name with
       | Some Unwritable => (false, m)
       | Some (Content _) => (true, m)
       | None => (true, <[name := Content []]> m)
       end.

(** [stream << ... << endl] on a stream whose state is [good]: the line is
    appended; a stream that failed to open ignores the output. *)
Definition append_line (good : bool) (name : string) (l : line)
  (m : gmap string file) : gmap string file :=
  if good then
    match m !! name with
    | Some (Content ls) => <[name := Content (ls ++ [l])]> m
    | _ => m
    end
  else m.

(** ** State updates *)

Definition with_sems (v : list Z) (s : state) : state :=
  mkState v (shm s) (segs s) (doomed s) (shmIds s) (parent s) (procs s) (fs s)
          (out s) (hist s).
Definition with_shm (v : list Z) (s : state) : state :=
  mkState (sems s) v (segs s) (doomed s) (shmIds s) (parent s) (procs s) (fs s)
          (out s) (hist s).
Definition with_segs (v : list Z) (s : state) : state :=
  mkState (sems s) (shm s) v (doomed s) (shmIds s) (parent s) (procs s) (fs s)
          (out s) (hist s).
Definition with_doomed (v : list Z) (s : state) : state :=
  mkState (sems s) (shm s) (segs s) v (shmIds s) (parent s) (procs s) (fs s)
          (out s) (hist s).
Definition with_shmIds (v : list Z) (s : state) : state :=
  mkState (sems s) (shm s) (segs s) (doomed s) v (parent s) (procs s) (fs s)
          (out s) (hist s).
Definition with_parent (v : ppc) (s : state) : state :=
  mkState (sems s) (shm s) (segs s) (doomed s) (shmIds s) v (procs s) (fs s)
          (out s) (hist s).
Definition with_procs (v : list proc) (s : state) : state :=
  mkState (sems s) (shm s) (segs s) (doomed s) (shmIds s) (parent s) v (fs s)
          (out s) (hist s).
Definition with_fs (v : gmap string file) (s : state) : state :=
  mkState (sems s) (shm s) (segs s) (doomed s) (shmIds s) (parent s) (procs s) v
          (out s) (hist s).
Definition say (m : msg) (s : state) : state :=
  mkState (sems s) (shm s) (segs s) (doomed s) (shmIds s) (parent s) (procs s) (fs s)
          (out s ++ [m]) (hist s).

Definition at_pc (c : pc) (p : proc) : proc :=
  mkProc c (p_pid p) (p_semadj p) (p_db1 p) (p_db2 p).
Definition with_semadj (v : list Z) (p : proc) : proc :=
  mkProc (p_pc p) (p_pid p) v (p_db1 p) (p_db2 p).
Definition with_db1 (b : bool) (p : proc) : proc :=
  mkProc (p_pc p) (p_pid p) (p_semadj p) b (p_db2 p).
Definition with_db2 (b : bool) (p : proc) : proc :=
  mkProc (p_pc p) (p_pid p) (p_semadj p) (p_db1 p) b.

(** Child [i] finishes a step: its record is stored back and the step is
    appended to the history. *)
Definition commit (i : nat) (a : act) (p : proc) (s : state) : state :=
  mkState (sems s) (shm s) (segs s) (doomed s) (shmIds s) (parent s)
          (<[i := p]> (procs s)) (fs s) (out s) (hist s ++ [(i, a)]).

(** ** The shared memory segments *)

Definition is_zombie (p : proc) : bool :=
  match p_pc p with Zombie _ => true | _ => false end.

(** A child that has not terminated. *)
Definition is_alive (p : proc) : bool :=
  match p_pc p with Zombie _ | Reaped _ => false | _ => true end.

(** [destroy_mem_segment]: [shmctl(IPC_RMID)] fails on an id that names no
    segment, and the error is reported (lines 339 and 131).  On an existing
    segment it succeeds and marks the segment for destruction; the caller
    still has the segment attached, so the segment stays, and marking it
    again succeeds as well. *)
Definition destroy_mem_segment (id : Z) (s : state) : state :=
  if decide (id ∈ segs s) then
    if decide (id ∈ doomed s) then s else with_doomed (doomed s ++ [id]) s
  else say MsgDestroyError s.

(** Some process of the program still runs, and has the segments attached. *)
Definition attached (s : state) : bool :=
  match parent s with PDone _ => false | _ => true end
  || existsb is_alive (procs s).

(** What the kernel does with the segments when a process has terminated:
    the process is detached, and once no process is attached the marked
    segments are destroyed. *)
Definition detach (s : state) : state :=
  mkState (sems s) (shm s)
          (if attached s then segs s else filter (λ id, id ∉ doomed s) (segs s))
          (if attached s then doomed s else [])
          (shmIds s) (parent s) (procs s) (fs s) (out s) (hist s).

(** Reading a word of a list; the program only reads inside the lists. *)
Definition rd (l : list Z) (k : nat) : Z := default 0 (l !! k).

(** ** The semaphore operations *)

(** [init_sem]: [semctl(SETVAL)]. *)
Definition init_sem (semid : nat) (value : Z) (s : state) : state :=
  with_sems (<[semid := value]> (sems s)) s.

(** [acquire_resource]: [semop] with [sem_op = -1] and [SEM_UNDO].  The call
    blocks ([None]) while the value is 0; otherwise it decrements the value
    and increments the adjustment of the process.  On a semaphore that does
    not exist [semop] fails, and the source goes on without looking. *)
Definition acquire_resource (semid : nat) (next : pc) (i : nat) (p : proc)
  (s : state) : option state :=
  match sems s !! semid with
  | Some v =>
      if decide (0 < v) then
        Some (commit i (Acquire semid)
                (with_semadj (<[semid := rd (p_semadj p) semid + 1]> (p_semadj p))
                   (at_pc next p))
                (with_sems (<[semid := v - 1]> (sems s)) s))
      else None
  | None => Some (commit i (Acquire semid) (at_pc next p) s)
  end.

(** [release_resource]: [semop] with [sem_op = 1] and [SEM_UNDO]; never blocks. *)
Definition release_resource (semid : nat) (next : pc) (i : nat) (p : proc)
  (s : state) : option state :=
  match sems s !! semid with
  | Some v =>
      Some (commit i (Release semid)
              (with_semadj (<[semid := rd (p_semadj p) semid - 1]> (p_semadj p))
                 (at_pc next p))
              (with_sems (<[semid := v + 1]> (sems s)) s))
  | None => Some (commit i (Release semid) (at_pc next p) s)
  end.

(** [exit(code)] in a child: the kernel applies the [SEM_UNDO] adjustments to
    the semaphores that exist and detaches the segments, and the process
    waits to be collected. *)
Definition do_exit (code : Z) (i : nat) (p : proc) (s : state) : option state :=
  Some (detach
          (commit i (Exit code)
             (with_semadj ((λ _, 0) <$> p_semadj p)
                (at_pc (Zombie (exit_status code)) p))
             (with_sems (imap (λ k v, v + rd (p_semadj p) k) (sems s)) s))).

(** A step that only moves the program point. *)
Definition advance (a : act) (next : pc) (i : nat) (p : proc) (s : state)
  : option state :=
  Some (commit i a (at_pc next p) s).

(** What a scheduler picks: a child to run one step, or the parent together
    with what the kernel answers it ([fork]'s return value in the parent, the
    terminated child [wait] collects). *)
Inductive choice :=
| Child (i : nat)
| Parent (fork_ret : Z) (reap : nat).

Section Ring.

Variable N : nat.  (* number of resources and of children *)

(** Lines 158-159. *)
Definition sem1 (i : nat) : nat := i.
Definition sem2 (i : nat) : nat := if decide (i + 1 = N)%nat then 0%nat else (i + 1)%nat.

(** The semaphore of the admission gate and its initial value. *)
Definition gate : nat := N.
Definition gate_slots : Z := Z.of_nat N - 1.

(** ** One step of child [i]: [open_and_write(semSet, shm_ary, i); exit(0)] *)
Definition step_child (i : nat) (s : state) : option state :=
  p ← procs s !! i;
  match p_pc p with
  | AcqGate => acquire_resource gate AcqSem1 i p s
  | AcqSem1 => acquire_resource (sem1 i) AcqSem2 i p s
  | AcqSem2 => acquire_resource (sem2 i) Chk1 i p s
  | Chk1 =>
      advance (FlagTest (sem1 i))
        (if decide (rd (shm s) (sem1 i) = 0) then Set1 else Fail) i p s
  | Set1 =>
      advance (FlagSet (sem1 i) 1) Chk2 i p (with_shm (<[sem1 i := 1]> (shm s)) s)
  | Chk2 =>
      advance (FlagTest (sem2 i))
        (if decide (rd (shm s) (sem2 i) = 0) then Set2 else Fail) i p s
  | Set2 =>
      advance (FlagSet (sem2 i) 1) Open1 i p (with_shm (<[sem2 i := 1]> (shm s)) s)
  | Fail => do_exit (-1) i p (say MsgResourcesInUse s)
  | Open1 =>
      let r := open_append (db1filename i) (fs s) in
      advance (OpenFile (db1filename i)) Open2 i (with_db1 r.1 p) (with_fs r.2 s)
  | Open2 =>
      let r := open_append (db2filename i) (fs s) in
      advance (OpenFile (db2filename i)) Say1 i (with_db2 r.1 p) (with_fs r.2 s)
  | Say1 =>
      let m := MsgWriting (systemName i) (p_pid p) (db1filename i) in
      advance (Print m) Wr1Used i p (say m s)
  | Wr1Used =>
      let l := BeingUsedBy (systemName i) (p_pid p) in
      advance (Append (db1filename i) l) Sleep1 i p
        (with_fs (append_line (p_db1 p) (db1filename i) l (fs s)) s)
  | Sleep1 => advance Sleep Say2 i p s
  | Say2 =>
      let m := MsgWriting (systemName i) (p_pid p) (db2filename i) in
      advance (Print m) Wr2Used i p (say m s)
  | Wr2Used =>
      let l := BeingUsedBy (systemName i) (p_pid p) in
      advance (Append (db2filename i) l) Sleep2 i p
        (with_fs (append_line (p_db2 p) (db2filename i) l (fs s)) s)
  | Sleep2 => advance Sleep Wr1Free i p s
  | Wr1Free =>
      let l := FreeFrom (systemName i) (p_pid p) in
      advance (Append (db1filename i) l) Wr2Free i p
        (with_fs (append_line (p_db1 p) (db1filename i) l (fs s)) s)
  | Wr2Free =>
      let l := FreeFrom (systemName i) (p_pid p) in
      advance (Append (db2filename i) l) Close1 i p
        (with_fs (append_line (p_db2 p) (db2filename i) l (fs s)) s)
  | Close1 => advance (CloseFile (db1filename i)) Clr1 i (with_db1 false p) s
  | Clr1 =>
      advance (FlagSet (sem1 i) 0) Rel1 i p (with_shm (<[sem1 i := 0]> (shm s)) s)
  | Rel1 => release_resource (sem1 i) Freed1 i p s
  | Freed1 =>
      let m := MsgFreed (systemName i) (p_pid p) (db1filename i) in
      advance (Print m) Close2 i p (say m s)
  | Close2 => advance (CloseFile (db2filename i)) Clr2 i (with_db2 false p) s
  | Clr2 =>
      advance (FlagSet (sem2 i) 0) Rel2 i p (with_shm (<[sem2 i := 0]> (shm s)) s)
  | Rel2 => release_resource (sem2 i) Freed2 i p s
  | Freed2 =>
      let m := MsgFreed (systemName i) (p_pid p) (db2filename i) in
      advance (Print m) RelGate i p (say m s)
  | RelGate => release_resource gate Exit0 i p s
  | Exit0 => do_exit 0 i p s
  | Zombie _ => None
  | Reaped _ => None
  end.

(** Lines 126-143: destroy the segments of [shmIds], then remove the
    semaphore set; [semctl(IPC_RMID)] removes it at once. *)
Definition cleanup (s : state) : state :=
  let s1 := foldl (λ s' id, destroy_mem_segment id s') s (shmIds s) in
  match sems s1 with
  | [] => say MsgSemNotRemoved s1
  | _ :: _ => with_sems [] s1
  end.

(** ** One step of the parent, lines 104-147

    [fork_ret] is what [fork] returns in the parent: negative for a failure,
    the pid of the new child otherwise.  [reap] is the terminated child that
    [wait(NULL)] collects; its status is dropped.  [wait] blocks while no
    child has terminated and one still runs, and returns -1 when there is no
    child left to wait for. *)
Definition step_parent (fork_ret : Z) (reap : nat) (s : state) : option state :=
  match parent s with
  | PFork i =>
      if decide (i < N)%nat then                                  (* 104 *)
        if decide (fork_ret < 0) then                             (* 106-109 *)
          Some (detach (with_parent (PDone (exit_status (-1))) (say MsgForkFailed s)))
        else if decide (fork_ret = 0) then None
        else                                                      (* 115-117 *)
          Some (with_parent (PFork (S i))
                  (with_procs
                     (procs s ++ [mkProc AcqGate fork_ret (replicate (N + 1) 0) false false])
                     s))
      else Some (with_parent PWait s)
  | PWait =>                                                      (* 121 *)
      if existsb is_zombie (procs s) then
        p ← procs s !! reap;
        match p_pc p with
        | Zombie st =>
            Some (with_procs (<[reap := at_pc (Reaped st) p]> (procs s)) s)
        | _ => None
        end
      else if existsb is_alive (procs s) then None
      else Some (with_parent PCleanup s)
  | PCleanup => Some (with_parent PExit0 (cleanup s))             (* 126-143 *)
  | PExit0 => Some (detach (with_parent (PDone (exit_status 0)) s)) (* 147 *)
  | PDone _ => None
  end.

Definition step (c : choice) (s : state) : option state :=
  match c with
  | Child i => step_child i s
  | Parent fork_ret reap => step_parent fork_ret reap s
  end.

(** A schedule is run strictly: a choice that cannot step stops the run. *)
Fixpoint run (cs : list choice) (s : state) : option state :=
  match cs with
  | [] => Some s
  | c :: cs' => s' ← step c s; run cs' s'
  end.

(** ** Lines 67-102: [main] up to the first [fork] *)

(** [shmget k] is what the [k]-th call of [create_shared_mem_id] returns:
    [-1] for a failure, the id of a new segment otherwise. *)
Fixpoint boot_loop (shmget : nat → Z) (n sem : nat) (s : state) : state :=
  match n with
  | O => with_parent (PFork 0) (init_sem gate gate_slots s)
  | S n' =>
      let s1 := init_sem sem 1 s in
      let id := shmget sem in
      if decide (id = -1) then
        detach (with_parent (PDone (exit_status (-1))) (say MsgShmFailed s1))
      else
        boot_loop shmget n' (S sem)
          (with_shmIds (shmIds s1 ++ [id])
             (with_segs (segs s1 ++ [id]) (with_shm (shm s1 ++ [0]) s1)))
  end.

(** The state [semget] leaves: [N + 1] semaphores, no segment, no child. *)
Definition fresh (fs0 : gmap string file) : state :=
  mkState (replicate (N + 1) 0) [] [] [] [] (PFork 0) [] fs0 [] [].

Definition boot (shmget : nat → Z) (fs0 : gmap string file) : state :=
  boot_loop shmget N 0 (fresh fs0).

End Ring.

(** ** Reachable states and the notions the properties are stated with *)

Inductive reachable (N : nat) (s0 : state) : state → Prop :=
| reach_init : reachable N s0 s0
| reach_step s c s' :
    reachable N s0 s → step N c s = Some s' → reachable N s0 s'.

(** Between which program points a child owns what.  A child is [inside]
    the gate from the return of [acquire_resource(semSet, 5)] to the return of
    [release_resource(semSet, 5)], and likewise for its two locks. *)
Definition inside (c : pc) : bool :=
  match c with
  | AcqGate | Exit0 | Zombie _ | Reaped _ => false
  | _ => true
  end.

Definition has1 (c : pc) : bool :=
  match c with
  | AcqGate | AcqSem1 | Freed1 | Close2 | Clr2 | Rel2 | Freed2 | RelGate
  | Exit0 | Zombie _ | Reaped _ => false
  | _ => true
  end.

Definition has2 (c : pc) : bool :=
  match c with
  | AcqGate | AcqSem1 | AcqSem2 | Freed2 | RelGate
  | Exit0 | Zombie _ | Reaped _ => false
  | _ => true
  end.

(** Between which program points a child has written 1 to a busy flag and
    not yet 0. *)
Definition flag1 (c : pc) : bool :=
  match c with
  | Chk2 | Set2 | Open1 | Open2 | Say1 | Wr1Used | Sleep1 | Say2 | Wr2Used
  | Sleep2 | Wr1Free | Wr2Free | Close1 | Clr1 => true
  | _ => false
  end.

Definition flag2 (c : pc) : bool :=
  match c with
  | Open1 | Open2 | Say1 | Wr1Used | Sleep1 | Say2 | Wr2Used
  | Sleep2 | Wr1Free | Wr2Free | Close1 | Clr1 | Rel1 | Freed1 | Close2
  | Clr2 => true
  | _ => false
  end.

(** The number of steps a child has made when it is at a program point. *)
Definition idx (c : pc) : nat :=
  match c with
  | AcqGate => 0 | AcqSem1 => 1 | AcqSem2 => 2 | Chk1 => 3 | Set1 => 4
  | Chk2 => 5 | Set2 => 6 | Fail => 7 | Open1 => 7 | Open2 => 8 | Say1 => 9
  | Wr1Used => 10 | Sleep1 => 11 | Say2 => 12 | Wr2Used => 13 | Sleep2 => 14
  | Wr1Free => 15 | Wr2Free => 16 | Close1 => 17 | Clr1 => 18 | Rel1 => 19
  | Freed1 => 20 | Close2 => 21 | Clr2 => 22 | Rel2 => 23 | Freed2 => 24
  | RelGate => 25 | Exit0 => 26 | Zombie _ => 27 | Reaped _ => 27
  end%nat.

(** Steps left for a child, counting the [wait] that collects it. *)
Definition child_left (c : pc) : nat :=
  match c with
  | Fail => 2
  | Zombie _ => 1
  | Reaped _ => 0
  | _ => 28 - idx c
  end%nat.

Fixpoint isum (f : nat → proc → Z) (i : nat) (l : list proc) : Z :=
  match l with
  | [] => 0
  | p :: l' => f i p + isum f (S i) l'
  end.

(** The sum without the share of child [j]. *)
Definition but (j : nat) (f : nat → proc → Z) : nat → proc → Z :=
  λ w p, if decide (w = j) then 0 else f w p.

Section Protocol.

Variable N : nat.

(** How many units of semaphore [k] child [i] owns at program point [c]. *)
Definition held (i : nat) (c : pc) (k : nat) : Z :=
  bool_to_Z (inside c && bool_decide (k = gate N))
  + bool_to_Z (has1 c && bool_decide (k = sem1 i))
  + bool_to_Z (has2 c && bool_decide (k = sem2 N i)).

(** How many times child [i] at [c] has marked resource [r] busy. *)
Definition flagged (i : nat) (c : pc) (r : nat) : Z :=
  bool_to_Z (flag1 c && bool_decide (r = sem1 i))
  + bool_to_Z (flag2 c && bool_decide (r = sem2 N i)).

(** Child [w] holds the lock of resource [r]. *)
Definition holds_lock (s : state) (w r : nat) : Prop :=
  ∃ p, procs s !! w = Some p ∧
       ((has1 (p_pc p) = true ∧ r = sem1 w) ∨ (has2 (p_pc p) = true ∧ r = sem2 N w)).

(** The number of children past the gate and not yet past their [leave]. *)
Definition admitted (s : state) : nat :=
  length (filter (λ p, inside (p_pc p) = true) (procs s)).

(** No forked child can step. *)
Definition stuck (s : state) : Prop :=
  ∀ w p, procs s !! w = Some p → step_child N w s = None.

(** Nothing is left to run. *)
Definition terminated (s : state) : Prop :=
  (∃ st, parent s = PDone st) ∧ ∀ p, p ∈ procs s → is_alive p = false.

Definition parent_left (c : ppc) : nat :=
  match c with
  | PFork i => (N - i) * 29 + 4
  | PWait => 3
  | PCleanup => 2
  | PExit0 => 1
  | PDone _ => 0
  end%nat.

Definition steps_left (s : state) : nat :=
  (parent_left (parent s) + sum_list_with (λ p, child_left (p_pc p)) (procs s))%nat.

(** The steps of child [w] in a history. *)
Definition acts_of (w : nat) (h : list (nat * act)) : list act :=
  snd <$> filter (λ e, e.1 = w) h.

(** The semaphores a list of steps acquires, in order. *)
Definition acquired (l : list act) : list nat :=
  omap (λ a, match a with Acquire k => Some k | _ => None end) l.

(** The steps of one undisturbed pass through [open_and_write] and [exit(0)]. *)
Definition script (i : nat) (pid : Z) : list act :=
  [ Acquire (gate N); Acquire (sem1 i); Acquire (sem2 N i);
    FlagTest (sem1 i); FlagSet (sem1 i) 1;
    FlagTest (sem2 N i); FlagSet (sem2 N i) 1;
    OpenFile (db1filename i); OpenFile (db2filename i);
    Print (MsgWriting (systemName i) pid (db1filename i));
    Append (db1filename i) (BeingUsedBy (systemName i) pid);
    Sleep;
    Print (MsgWriting (systemName i) pid (db2filename i));
    Append (db2filename i) (BeingUsedBy (systemName i) pid);
    Sleep;
    Append (db1filename i) (FreeFrom (systemName i) pid);
    Append (db2filename i) (FreeFrom (systemName i) pid);
    CloseFile (db1filename i); FlagSet (sem1 i) 0; Release (sem1 i);
    Print (MsgFreed (systemName i) pid (db1filename i));
    CloseFile (db2filename i); FlagSet (sem2 N i) 0; Release (sem2 N i);
    Print (MsgFreed (systemName i) pid (db2filename i));
    Release (gate N); Exit 0 ].

(** The history agrees with the program points: every child has made the
    first steps of its script, as many as its program point says. *)
Definition hist_ok (s : state) : Prop :=
  ∀ w, acts_of w (hist s)
       = match procs s !! w with
         | Some p => take (idx (p_pc p)) (script w (p_pid p))
         | None => []
         end.

(** Between which program points the two streams are open. *)
Definition open1 (c : pc) : bool :=
  match c with
  | Open2 | Say1 | Wr1Used | Sleep1 | Say2 | Wr2Used | Sleep2 | Wr1Free
  | Wr2Free | Close1 => true
  | _ => false
  end.

Definition open2 (c : pc) : bool :=
  match c with
  | Say1 | Wr1Used | Sleep1 | Say2 | Wr2Used | Sleep2 | Wr1Free
  | Wr2Free | Close1 | Clr1 | Rel1 | Freed1 | Close2 => true
  | _ => false
  end.

(** The lines of a file; none for a file that is absent or not writable. *)
Definition content (m : gmap string file) (f : string) : list line :=
  match m !! f with
  | Some (Content ls) => ls
  | _ => []
  end.

(** A name the children can open for appending, given the files at start. *)
Definition writable (fs0 : gmap string file) (f : string) : Prop :=
  f ≠ EmptyString ∧ fs0 !! f ≠ Some Unwritable.

(** The lines a history appends to file [f], each with the child it is from. *)
Definition appended (f : string) (h : list (nat * act)) : list (nat * line) :=
  omap (λ e, match e.2 with
             | Append f' l => if decide (f' = f) then Some (e.1, l) else None
             | _ => None
             end) h.

(** The lines a list of steps appends to file [f]. *)
Definition lines_in (f : string) (l : list act) : list line :=
  omap (λ a, match a with
             | Append f' l => if decide (f' = f) then Some l else None
             | _ => None
             end) l.

(** The files agree with the history: a writable file holds what it held at
    the start and then the appended lines; a file that is not writable stays
    so; an open stream on a writable name is good and its file exists. *)
Record files_ok (fs0 : gmap string file) (s : state) : Prop := mkFilesOk {
  files_content : ∀ f, writable fs0 f →
                  content (fs s) f = content fs0 f ++ (snd <$> appended f (hist s));
  files_status : ∀ f, fs s !! f = Some Unwritable ↔ fs0 !! f = Some Unwritable;
  files_open1 : ∀ w p, procs s !! w = Some p → open1 (p_pc p) = true →
                writable fs0 (db1filename w) →
                p_db1 p = true ∧ ∃ ls, fs s !! db1filename w = Some (Content ls);
  files_open2 : ∀ w p, procs s !! w = Some p → open2 (p_pc p) = true →
                writable fs0 (db2filename w) →
                p_db2 p = true ∧ ∃ ls, fs s !! db2filename w = Some (Content ls)
}.

(** A console line that does not report a fault. *)
Definition quiet (m : msg) : bool :=
  match m with
  | MsgWriting _ _ _ | MsgFreed _ _ _ => true
  | _ => false
  end.

(** The console holds the children's progress lines; a fault line is on it
    only after [main] has left through [exit(-1)]. *)
Definition out_ok (s : state) : Prop :=
  ∀ m, m ∈ out s →
       quiet m = true ∨
       ((m = MsgForkFailed ∨ m = MsgShmFailed) ∧ parent s = PDone 255).

(** [main] leaves through [exit(-1)] only after it has said why. *)
Definition failure_said (s : state) : Prop :=
  parent s = PDone 255 → MsgForkFailed ∈ out s ∨ MsgShmFailed ∈ out s.

(** The initial value of semaphore [k]. *)
Definition sem_init (k : nat) : Z :=
  if decide (k = gate N) then gate_slots N else 1.

(** The invariant of the states in which children may run. *)
Record live (s : state) : Prop := mkLive {
  live_procs : (length (procs s) ≤ N)%nat;
  live_sems : length (sems s) = (N + 1)%nat;
  live_shm : length (shm s) = N;
  live_nofail : ∀ w p, procs s !! w = Some p → p_pc p ≠ Fail;
  live_adjlen : ∀ w p, procs s !! w = Some p → length (p_semadj p) = (N + 1)%nat;
  live_adj : ∀ w p k, procs s !! w = Some p →
             rd (p_semadj p) k = held w (p_pc p) k;
  live_sum : ∀ k, (k ≤ N)%nat →
             rd (sems s) k + isum (λ w p, held w (p_pc p) k) 0 (procs s) = sem_init k;
  live_pos : ∀ k, 0 ≤ rd (sems s) k;
  live_flag : ∀ r, (r < N)%nat →
              rd (shm s) r = isum (λ w p, flagged w (p_pc p) r) 0 (procs s);
  live_status : ∀ w p st, procs s !! w = Some p →
                p_pc p = Zombie st ∨ p_pc p = Reaped st → st = 0;
  live_segs : segs s = shmIds s;
  live_doomed : doomed s = [];
  live_parent :
    match parent s with
    | PFork j => length (procs s) = j
    | PWait => length (procs s) = N
    | PCleanup => length (procs s) = N ∧ ∀ p, p ∈ procs s → p_pc p = Reaped 0
    | PDone st => st = 255
    | PExit0 => False
    end
}.

(** The states after the parent's cleanup: up to [exit(0)] the segments are
    still there, all of them marked; after it they are gone. *)
Record after (s : state) : Prop := mkAfter {
  after_parent : parent s = PExit0 ∨ parent s = PDone 0;
  after_procs : length (procs s) = N ∧ ∀ p, p ∈ procs s → p_pc p = Reaped 0;
  after_sems : sems s = [];
  after_segs : match parent s with
               | PExit0 => segs s = shmIds s ∧ ∀ id, id ∈ segs s → id ∈ doomed s
               | _ => segs s = [] ∧ doomed s = []
               end;
  after_shm : ∀ r, (r < N)%nat → rd (shm s) r = 0
}.

(** The state of a failed [shmget]: [main] has left with [exit(-1)] before
    the first [fork]. *)
Definition boot_failed (s : state) : Prop :=
  parent s = PDone 255 ∧ procs s = [] ∧ hist s = [].

Definition inv (s : state) : Prop := live s ∨ after s ∨ boot_failed s.

End Protocol.

(** ** The program: the instance [PROC_COUNT] and concrete runs *)

(** [shmget] answers with fresh ids. *)
Definition ids (k : nat) : Z := 100 + Z.of_nat k.

(** The five [fork]s succeed with the pids 11..15, then the loop ends. *)
Definition forks : list choice :=
  [Parent 11 0; Parent 12 0; Parent 13 0; Parent 14 0; Parent 15 0; Parent 0 0].

(** Child [i] runs from its first statement through [exit(0)]. *)
Definition whole (i : nat) : list choice := replicate 27 (Child i).

(** The parent collects the five children, cleans up and leaves. *)
Definition epilogue : list choice :=
  [Parent 0 0; Parent 0 1; Parent 0 2; Parent 0 3; Parent 0 4;
   Parent 0 0; Parent 0 0; Parent 0 0].

(** A complete run: the children one after the other. *)
Definition sequential : list choice :=
  forks ++ whole 0 ++ whole 1 ++ whole 2 ++ whole 3 ++ whole 4 ++ epilogue.

(** The state a schedule leads to from the start of [main] with the files
    [fs0], and the start itself when the schedule cannot be run. *)
Definition outcome (fs0 : gmap string file) (cs : list choice) : state :=
  default (boot PROC_COUNT ids fs0) (run PROC_COUNT cs (boot PROC_COUNT ids fs0)).

(** The first database of child 2 cannot be written. *)
Definition no_statistics : gmap string file := {[ "statistics.txt"%string := Unwritable ]}.

(** The third [shmget] fails. *)
Definition third_fails (k : nat) : Z := if decide (k = 2%nat) then -1 else ids k.

(** The third [fork] fails. *)
Definition fork_fails : list choice := [Parent 11 0; Parent 12 0; Parent (-1) 0].

(** Child 0 has passed its three [acquire_resource] calls and stands at line
    174, and the busy flag of resource 0 reads 1 although nobody set it. *)
Definition flag_found_busy : state :=
  let s := outcome ∅ (forks ++ replicate 3 (Child 0)) in
  with_shm (<[0%nat := 1]> (shm s)) s.

(** From there: child 0 tests the flag and leaves; children 1, 2 and 3 run
    through; child 4 finds the same flag at line 182 and leaves; the parent
    collects all five, cleans up and leaves. *)
Definition after_violation : list choice :=
  [Child 0; Child 0] ++ whole 1 ++ whole 2 ++ whole 3 ++ replicate 7 (Child 4)
  ++ epilogue.

(** ** Tactics *)

(** Equations between [held] and [flagged] at given program points. *)
Ltac held_tac :=
  intros; unfold held, flagged; simpl;
  repeat case_bool_decide; simpl; try lia; try congruence.

(** The side conditions of a step of a child at the program point [Hc]. *)
Ltac side_with Hc Halive :=
  try done; try (intros ? [?|?]; discriminate);
  rewrite ?Hc; try (apply Halive; done);
  try (unfold gate, sem1 in *; lia); held_tac.


(** ** Further notions: busy flags, writers, the shape of a file *)

(** Child [w] has written 1 to the busy flag of resource [r] (lines 176, 184)
    and not yet 0 (lines 241, 247). *)
Definition marks (N : nat) (s : state) (w r : nat) : Prop :=
  ∃ p, procs s !! w = Some p ∧
       ((flag1 (p_pc p) = true ∧ r = sem1 w) ∨ (flag2 (p_pc p) = true ∧ r = sem2 N w)).

(** Between which program points a child has written its line "Being used
    by" to its first file (line 230) and not yet its line "Free from" (line
    235), and likewise for its second file (lines 233 and 236). *)
Definition writing1 (c : pc) : bool :=
  match c with
  | Sleep1 | Say2 | Wr2Used | Sleep2 | Wr1Free => true
  | _ => false
  end.

Definition writing2 (c : pc) : bool :=
  match c with
  | Sleep2 | Wr1Free | Wr2Free => true
  | _ => false
  end.

(** Child [w] is in the middle of its two lines in file [f]. *)
Definition writing (s : state) (f : string) (w : nat) : Prop :=
  ∃ p, procs s !! w = Some p ∧
       ((writing1 (p_pc p) = true ∧ f = db1filename w) ∨
        (writing2 (p_pc p) = true ∧ f = db2filename w)).

(** [getpid()] in child [w]. *)
Definition pid_of (s : state) (w : nat) : Z := default 0 (p_pid <$> procs s !! w).

(** The two lines of child [w], and its first line alone. *)
Definition used_by (s : state) (w : nat) : nat * line :=
  (w, BeingUsedBy (systemName w) (pid_of s w)).
Definition free_from (s : state) (w : nat) : nat * line :=
  (w, FreeFrom (systemName w) (pid_of s w)).

(** The lines of a file whose writers were [ws], one after the other, with
    [o] in the middle of its two lines. *)
Definition blocks (s : state) (ws : list nat) (o : option nat) : list (nat * line) :=
  (ws ≫= λ w, [used_by s w; free_from s w])
  ++ match o with Some w => [used_by s w] | None => [] end.

(** The lines appended to file [f] are whole pairs, and the child in the
    middle of its pair, if any, is the one the program points say. *)
Definition tidy (s : state) (f : string) : Prop :=
  ∃ ws o, appended f (hist s) = blocks s ws o ∧
          (∀ w, o = Some w ↔ writing s f w) ∧
          (∀ w, w ∈ ws → (w < length (procs s))%nat).

(** Child [w] holds both its locks, and the children that do. *)
Definition at_work (s : state) (w : nat) : bool :=
  match procs s !! w with
  | Some p => has1 (p_pc p) && has2 (p_pc p)
  | None => false
  end.

Definition workers (s : state) : list nat :=
  filter (λ w, at_work s w = true) (seq 0 (length (procs s))).

(** The children's progress lines in a history, in the order of the steps. *)
Definition printed (h : list (nat * act)) : list msg :=
  omap (λ e, match e.2 with Print m => Some m | _ => None end) h.

(** The state of a schedule run from a given state, and that state itself
    when the schedule cannot be run. *)
Definition outcome_from (s : state) (cs : list choice) : state :=
  default s (run PROC_COUNT cs s).

(** * Proofs *)

(** ** Words of a list *)

Lemma rd_insert_eq (l : list Z) (k : nat) (v : Z) :
  (k < length l)%nat → rd (<[k := v]> l) k = v.
Proof. intros H. unfold rd. by rewrite list_lookup_insert_eq. Qed.

Lemma rd_insert_ne (l : list Z) (k k' : nat) (v : Z) :
  k ≠ k' → rd (<[k := v]> l) k' = rd l k'.
Proof. intros H. unfold rd. by rewrite list_lookup_insert_ne. Qed.

Lemma rd_lookup (l : list Z) (k : nat) (v : Z) : l !! k = Some v → rd l k = v.
Proof. intros H. unfold rd. by rewrite H. Qed.

Lemma rd_ge (l : list Z) (k : nat) : (length l ≤ k)%nat → rd l k = 0.
Proof. intros H. unfold rd. by rewrite lookup_ge_None_2. Qed.

Lemma rd_zeroed (l : list Z) (k : nat) : rd ((λ _, 0) <$> l) k = 0.
Proof. unfold rd. rewrite list_lookup_fmap. by destruct (l !! k). Qed.

Lemma rd_undo (l adj : list Z) (k : nat) :
  (k < length l)%nat → rd (imap (λ k v, v + rd adj k) l) k = rd l k + rd adj k.
Proof.
  intros H. destruct (lookup_lt_is_Some_2 l k H) as [v Hv].
  unfold rd at 1 3. by rewrite list_lookup_imap, Hv.
Qed.

Lemma rd_replicate (n k : nat) (v : Z) : (k < n)%nat → rd (replicate n v) k = v.
Proof. intros H. apply rd_lookup. by apply lookup_replicate_2. Qed.

(** ** Sums over the children *)

Lemma isum_app f i l1 l2 :
  isum f i (l1 ++ l2) = isum f i l1 + isum f (i + length l1) l2.
Proof.
  revert i. induction l1 as [|p l1 IH]; intros i; simpl.
  - by rewrite Nat.add_0_r.
  - rewrite IH. replace (S i + length l1)%nat with (i + S (length l1))%nat by lia. lia.
Qed.

Lemma isum_insert f i l j p q :
  l !! j = Some p →
  isum f i (<[j := q]> l) = isum f i l - f (i + j)%nat p + f (i + j)%nat q.
Proof.
  revert i j. induction l as [|x l IH]; intros i j H; [done|].
  destruct j as [|j]; simpl in *.
  - simplify_eq. rewrite Nat.add_0_r. lia.
  - rewrite (IH (S i) j H). replace (S i + j)%nat with (i + S j)%nat by lia. lia.
Qed.

Lemma isum_ext f g i l :
  (∀ j p, l !! j = Some p → f (i + j)%nat p = g (i + j)%nat p) →
  isum f i l = isum g i l.
Proof.
  revert i. induction l as [|x l IH]; intros i H; [done|]. simpl.
  rewrite (IH (S i)).
  - specialize (H 0%nat x eq_refl). rewrite Nat.add_0_r in H. lia.
  - intros j p Hj. specialize (H (S j) p Hj).
    by replace (S i + j)%nat with (i + S j)%nat by lia.
Qed.

Lemma isum_le f g i l :
  (∀ j p, l !! j = Some p → f (i + j)%nat p ≤ g (i + j)%nat p) →
  isum f i l ≤ isum g i l.
Proof.
  revert i. induction l as [|x l IH]; intros i H; [done|]. simpl.
  assert (isum f (S i) l ≤ isum g (S i) l).
  { apply IH. intros j p Hj. specialize (H (S j) p Hj).
    by replace (S i + j)%nat with (i + S j)%nat by lia. }
  specialize (H 0%nat x eq_refl). rewrite Nat.add_0_r in H. lia.
Qed.

Lemma isum_zero i l : isum (λ _ _, 0) i l = 0.
Proof. revert i. induction l as [|x l IH]; intros i; simpl; [done|]. by rewrite IH. Qed.

Lemma isum_nonneg f i l :
  (∀ j p, l !! j = Some p → 0 ≤ f (i + j)%nat p) → 0 ≤ isum f i l.
Proof. intros H. rewrite <- (isum_zero i l). by apply isum_le. Qed.

Lemma isum_const_one f i l :
  (∀ j p, l !! j = Some p → f (i + j)%nat p = 1) → isum f i l = Z.of_nat (length l).
Proof.
  revert i. induction l as [|x l IH]; intros i H; [done|]. simpl length. simpl isum.
  rewrite (IH (S i)).
  - specialize (H 0%nat x eq_refl). rewrite Nat.add_0_r in H. lia.
  - intros j p Hj. specialize (H (S j) p Hj).
    by replace (S i + j)%nat with (i + S j)%nat by lia.
Qed.

Lemma isum_but_ge f i l j : (j < i)%nat → isum (but j f) i l = isum f i l.
Proof.
  intros H. apply isum_ext. intros w p _. unfold but. case_decide; [lia|done].
Qed.

Lemma isum_split f i l j p :
  l !! j = Some p → isum f i l = f (i + j)%nat p + isum (but (i + j) f) i l.
Proof.
  revert i j. induction l as [|x l IH]; intros i j H; [done|].
  destruct j as [|j]; simpl in *.
  - simplify_eq. rewrite Nat.add_0_r. rewrite isum_but_ge by lia.
    unfold but. case_decide; [lia|done].
  - rewrite (IH (S i) j H). replace (S i + j)%nat with (i + S j)%nat by lia.
    unfold but at 2. case_decide; [lia|]. lia.
Qed.

Lemma isum_pos_exists f i l :
  0 < isum f i l → ∃ j p, l !! j = Some p ∧ 0 < f (i + j)%nat p.
Proof.
  revert i. induction l as [|x l IH]; intros i H; simpl in *; [lia|].
  destruct (decide (0 < f i x)) as [Hx|Hx].
  - exists 0%nat, x. by rewrite Nat.add_0_r.
  - destruct (IH (S i)) as (j & p & Hj & Hp); [lia|].
    exists (S j), p. split; [done|]. by replace (i + S j)%nat with (S i + j)%nat by lia.
Qed.

(** ** The segments: marking and detaching *)

Lemma filter_not_nil (l : list Z) : filter (λ id, id ∉ ([] : list Z)) l = l.
Proof.
  induction l as [|x l IH]; [done|].
  rewrite filter_cons_True by apply not_elem_of_nil. by rewrite IH.
Qed.

Lemma filter_all_doomed (d l : list Z) :
  (∀ id, id ∈ l → id ∈ d) → filter (λ id, id ∉ d) l = [].
Proof.
  induction l as [|x l IH]; intros H; [done|].
  rewrite filter_cons_False.
  - apply IH. intros id Hid. apply H. by right.
  - intros Hx. apply Hx, H. by left.
Qed.

Lemma detach_clean (s : state) :
  doomed s = [] → segs (detach s) = segs s ∧ doomed (detach s) = [].
Proof.
  intros H. unfold detach. simpl. rewrite H.
  destruct (attached s); [done|]. by rewrite filter_not_nil.
Qed.

Lemma destroy_frame (id : Z) (s : state) :
  sems (destroy_mem_segment id s) = sems s ∧
  shm (destroy_mem_segment id s) = shm s ∧
  segs (destroy_mem_segment id s) = segs s ∧
  shmIds (destroy_mem_segment id s) = shmIds s ∧
  parent (destroy_mem_segment id s) = parent s ∧
  procs (destroy_mem_segment id s) = procs s ∧
  fs (destroy_mem_segment id s) = fs s ∧
  hist (destroy_mem_segment id s) = hist s ∧
  out s `prefix_of` out (destroy_mem_segment id s).
Proof.
  unfold destroy_mem_segment. repeat case_decide; simpl; repeat split; try done.
  by apply prefix_app_r.
Qed.

Lemma destroy_all_frame (l : list Z) (s : state) :
  let s' := foldl (λ s' id, destroy_mem_segment id s') s l in
  sems s' = sems s ∧ shm s' = shm s ∧ segs s' = segs s ∧ shmIds s' = shmIds s ∧
  parent s' = parent s ∧ procs s' = procs s ∧ fs s' = fs s ∧ hist s' = hist s ∧
  out s `prefix_of` out s'.
Proof.
  revert s. induction l as [|id l IH]; intros s; simpl; [done|].
  destruct (destroy_frame id s) as (H1 & H2 & H3 & H4 & H5 & H6 & H7 & H8 & H9).
  destruct (IH (destroy_mem_segment id s)) as (I1 & I2 & I3 & I4 & I5 & I6 & I7 & I8 & I9).
  rewrite I1, I2, I3, I4, I5, I6, I7, I8. repeat split; try done. by etrans.
Qed.

Lemma cleanup_frame (s : state) :
  shm (cleanup s) = shm s ∧ segs (cleanup s) = segs s ∧
  shmIds (cleanup s) = shmIds s ∧ parent (cleanup s) = parent s ∧
  procs (cleanup s) = procs s ∧ fs (cleanup s) = fs s ∧ hist (cleanup s) = hist s ∧
  out s `prefix_of` out (cleanup s).
Proof.
  unfold cleanup.
  destruct (destroy_all_frame (shmIds s) s) as (H1 & H2 & H3 & H4 & H5 & H6 & H7 & H8 & H9).
  destruct (sems (foldl _ s (shmIds s))); simpl; repeat split; try done.
  etrans; [done|]. by apply prefix_app_r.
Qed.

(** Destroying segments that exist marks them and does nothing else. *)
Lemma destroy_marks (l : list Z) (s : state) :
  (∀ id, id ∈ l → id ∈ segs s) →
  ∃ d, foldl (λ s' id, destroy_mem_segment id s') s l = with_doomed d s ∧
       ∀ id, id ∈ d ↔ id ∈ doomed s ∨ id ∈ l.
Proof.
  revert s. induction l as [|x l IH]; intros s H; simpl.
  - exists (doomed s). split; [by destruct s|]. intros id. rewrite elem_of_nil. tauto.
  - assert (x ∈ segs s) as Hx by (apply H; by left).
    assert (∀ id, id ∈ l → id ∈ segs s) as Hl by (intros id Hid; apply H; by right).
    unfold destroy_mem_segment at 2. rewrite decide_True by done.
    case_decide as Hd.
    + destruct (IH s Hl) as (d & E & Hd'). exists d. split; [done|].
      intros id. rewrite Hd', elem_of_cons. split; [tauto|].
      intros [?|[->|?]]; auto.
    + destruct (IH (with_doomed (doomed s ++ [x]) s) Hl) as (d & E & Hd').
      exists d. split; [by rewrite E|].
      intros id. rewrite Hd'. simpl. rewrite elem_of_app, list_elem_of_singleton, elem_of_cons.
      tauto.
Qed.

Lemma cleanup_procs (s : state) : procs (cleanup s) = procs s.
Proof. apply cleanup_frame. Qed.

Lemma cleanup_hist (s : state) : hist (cleanup s) = hist s.
Proof. apply cleanup_frame. Qed.

Lemma cleanup_fs (s : state) : fs (cleanup s) = fs s.
Proof. apply cleanup_frame. Qed.

Lemma cleanup_parent (s : state) : parent (cleanup s) = parent s.
Proof. apply cleanup_frame. Qed.

#[global] Arguments cleanup : simpl never.

(** ** The invariant is kept by every step *)

Section Proofs.

Variable N : nat.
Hypothesis HN : (2 ≤ N)%nat.

#[local] Set Default Proof Using "All".

Lemma sem2_lt i : (i < N)%nat → (sem2 N i < N)%nat.
Proof. unfold sem2. case_decide; lia. Qed.

Lemma sem2_ne i : (i < N)%nat → sem2 N i ≠ sem1 i.
Proof. unfold sem2, sem1. case_decide; lia. Qed.

Lemma held_nonneg i c k : 0 ≤ held N i c k.
Proof. unfold held. repeat (destruct (_ && _)); simpl; lia. Qed.

Lemma flagged_nonneg i c r : 0 ≤ flagged N i c r.
Proof. unfold flagged. repeat (destruct (_ && _)); simpl; lia. Qed.

Lemma flagged_le_held i c r : flagged N i c r ≤ held N i c r.
Proof.
  unfold flagged, held.
  destruct c; simpl; repeat case_bool_decide; simpl; lia.
Qed.

Lemma lookup_lt_procs s w p : live N s → procs s !! w = Some p → (w < N)%nat.
Proof. intros L H. apply lookup_lt_Some in H. pose proof (live_procs N s L). lia. Qed.

Lemma sem_init_lock r : (r < N)%nat → sem_init N r = 1.
Proof. intros H. unfold sem_init, gate. case_decide; [lia|done]. Qed.

Lemma sem_init_gate : sem_init N (gate N) = Z.of_nat N - 1.
Proof. unfold sem_init, gate_slots. by case_decide. Qed.

(** A child that holds the lock of [r] is the only one with a share in the
    busy flag of [r]. *)
Lemma live_exclusive s i p r :
  live N s → procs s !! i = Some p → (r < N)%nat →
  1 ≤ held N i (p_pc p) r →
  isum (λ w q, flagged N w (p_pc q) r) 0 (procs s) = flagged N i (p_pc p) r.
Proof.
  intros L Hp Hr Hh.
  pose proof (live_sum N s L r ltac:(lia)) as Hs.
  pose proof (live_pos N s L r) as H0.
  rewrite sem_init_lock in Hs by done.
  rewrite (isum_split _ 0 _ i p Hp) in Hs. simpl in Hs.
  rewrite (isum_split _ 0 _ i p Hp). simpl.
  assert (isum (but i (λ w q, flagged N w (p_pc q) r)) 0 (procs s)
          ≤ isum (but i (λ w q, held N w (p_pc q) r)) 0 (procs s)) as Hle.
  { apply isum_le. intros j q _. unfold but. case_decide; [lia|]. apply flagged_le_held. }
  assert (0 ≤ isum (but i (λ w q, flagged N w (p_pc q) r)) 0 (procs s)) as Hge.
  { apply isum_nonneg. intros j q _. unfold but. case_decide; [lia|]. apply flagged_nonneg. }
  lia.
Qed.

(** A change of the record of one child, stated by what it changes. *)
Lemma live_update s s' i p p' :
  live N s → procs s !! i = Some p → parent s ≠ PCleanup →
  procs s' = <[i := p']> (procs s) →
  segs s' = segs s → doomed s' = doomed s → shmIds s' = shmIds s →
  parent s' = parent s →
  length (sems s') = length (sems s) → length (shm s') = length (shm s) →
  length (p_semadj p') = length (p_semadj p) →
  p_pc p' ≠ Fail →
  (∀ st, p_pc p' = Zombie st ∨ p_pc p' = Reaped st → st = 0) →
  (∀ k, rd (p_semadj p') k = held N i (p_pc p') k) →
  (∀ k, (k ≤ N)%nat →
        rd (sems s') k + held N i (p_pc p') k = rd (sems s) k + held N i (p_pc p) k) →
  (∀ k, 0 ≤ rd (sems s') k) →
  (∀ r, (r < N)%nat →
        rd (shm s') r - flagged N i (p_pc p') r
        = rd (shm s) r - flagged N i (p_pc p) r) →
  live N s'.
Proof.
  intros L Hp Ha Hprocs Hsegs Hdoom Hids Hpar Hls Hlm Hla Hnf Hst Hadj Hsum Hpos Hflag.
  assert (∀ w q, procs s' !! w = Some q →
                 (w = i ∧ q = p') ∨ (w ≠ i ∧ procs s !! w = Some q)) as Hcase.
  { intros w q. rewrite Hprocs. destruct (decide (w = i)) as [->|Hne].
    - rewrite list_lookup_insert_eq by (by eapply lookup_lt_Some). naive_solver.
    - rewrite list_lookup_insert_ne by done. naive_solver. }
  constructor.
  - rewrite Hprocs, length_insert. apply L.
  - rewrite Hls. apply L.
  - rewrite Hlm. apply L.
  - intros w q Hq. destruct (Hcase w q Hq) as [[-> ->]|[_ Hq']]; [done|].
    by eapply live_nofail.
  - intros w q Hq. destruct (Hcase w q Hq) as [[-> ->]|[_ Hq']].
    + rewrite Hla. by eapply live_adjlen.
    + by eapply live_adjlen.
  - intros w q k Hq. destruct (Hcase w q Hq) as [[-> ->]|[_ Hq']]; [done|].
    by eapply live_adj.
  - intros k Hk. rewrite Hprocs, (isum_insert _ 0 _ i p p' Hp). simpl.
    pose proof (live_sum N s L k Hk). specialize (Hsum k Hk). lia.
  - done.
  - intros r Hr. rewrite Hprocs, (isum_insert _ 0 _ i p p' Hp). simpl.
    pose proof (live_flag N s L r Hr). specialize (Hflag r Hr). lia.
  - intros w q st Hq Hz. destruct (Hcase w q Hq) as [[-> ->]|[_ Hq']]; [by eapply Hst|].
    by eapply live_status.
  - rewrite Hsegs, Hids. apply L.
  - rewrite Hdoom. apply L.
  - pose proof (live_parent N s L) as HP. rewrite Hpar.
    destruct (parent s); try done.
    + by rewrite Hprocs, length_insert.
    + by rewrite Hprocs, length_insert.
Qed.

Lemma alive_not_cleanup s i p :
  live N s → procs s !! i = Some p → is_alive p = true → parent s ≠ PCleanup.
Proof.
  intros L Hp Ha HP. pose proof (live_parent N s L) as H. rewrite HP in H.
  destruct H as [_ H]. specialize (H p ltac:(by eapply list_elem_of_lookup_2)).
  unfold is_alive in Ha. by rewrite H in Ha.
Qed.

Lemma live_child s s' i p p' :
  live N s → procs s !! i = Some p → is_alive p = true →
  procs s' = <[i := p']> (procs s) →
  segs s' = segs s → doomed s' = doomed s → shmIds s' = shmIds s →
  parent s' = parent s →
  length (sems s') = length (sems s) → length (shm s') = length (shm s) →
  length (p_semadj p') = length (p_semadj p) →
  p_pc p' ≠ Fail →
  (∀ st, p_pc p' = Zombie st ∨ p_pc p' = Reaped st → st = 0) →
  (∀ k, rd (p_semadj p') k = held N i (p_pc p') k) →
  (∀ k, (k ≤ N)%nat →
        rd (sems s') k + held N i (p_pc p') k = rd (sems s) k + held N i (p_pc p) k) →
  (∀ k, 0 ≤ rd (sems s') k) →
  (∀ r, (r < N)%nat →
        rd (shm s') r - flagged N i (p_pc p') r
        = rd (shm s) r - flagged N i (p_pc p) r) →
  live N s'.
Proof.
  intros L Hp Ha. apply live_update; [done|done|]. by eapply alive_not_cleanup.
Qed.

Lemma live_acquire s s' i p k next :
  live N s → procs s !! i = Some p → is_alive p = true → (k ≤ N)%nat →
  next ≠ Fail → (∀ st, next = Zombie st ∨ next = Reaped st → st = 0) →
  (∀ k', held N i next k' = held N i (p_pc p) k' + bool_to_Z (bool_decide (k' = k))) →
  (∀ r, flagged N i next r = flagged N i (p_pc p) r) →
  acquire_resource k next i p s = Some s' → live N s'.
Proof.
  intros L Hp Ha Hk Hnf Hst Hh Hf Hstep. unfold acquire_resource in Hstep.
  pose proof (live_sems N s L) as Hls.
  pose proof (live_adjlen N s L i p Hp) as Hla.
  destruct (lookup_lt_is_Some_2 (sems s) k ltac:(lia)) as [v Hv].
  rewrite Hv in Hstep. case_decide; [|done]. simplify_eq.
  pose proof (rd_lookup _ _ _ Hv) as Hrd.
  eapply (live_child s _ i p); try done; simpl.
  - by rewrite length_insert.
  - by rewrite length_insert.
  - intros k'. rewrite Hh. destruct (decide (k = k')) as [->|Hne].
    + rewrite rd_insert_eq by lia. rewrite (live_adj N s L i p k' Hp).
      rewrite bool_decide_eq_true_2 by done. done.
    + rewrite rd_insert_ne by done. rewrite (live_adj N s L i p k' Hp).
      rewrite bool_decide_eq_false_2 by done. simpl. lia.
  - intros k' _. rewrite Hh. destruct (decide (k = k')) as [->|Hne].
    + rewrite rd_insert_eq by lia. rewrite bool_decide_eq_true_2 by done. simpl. lia.
    + rewrite rd_insert_ne by done. rewrite bool_decide_eq_false_2 by done. simpl. lia.
  - intros k'. destruct (decide (k = k')) as [->|Hne].
    + rewrite rd_insert_eq by lia. lia.
    + rewrite rd_insert_ne by done. apply L.
  - intros r _. by rewrite Hf.
Qed.

Lemma live_release s s' i p k next :
  live N s → procs s !! i = Some p → is_alive p = true → (k ≤ N)%nat →
  next ≠ Fail → (∀ st, next = Zombie st ∨ next = Reaped st → st = 0) →
  (∀ k', held N i next k' = held N i (p_pc p) k' - bool_to_Z (bool_decide (k' = k))) →
  (∀ r, flagged N i next r = flagged N i (p_pc p) r) →
  release_resource k next i p s = Some s' → live N s'.
Proof.
  intros L Hp Ha Hk Hnf Hst Hh Hf Hstep. unfold release_resource in Hstep.
  pose proof (live_sems N s L) as Hls.
  pose proof (live_adjlen N s L i p Hp) as Hla.
  destruct (lookup_lt_is_Some_2 (sems s) k ltac:(lia)) as [v Hv].
  rewrite Hv in Hstep. simplify_eq.
  pose proof (rd_lookup _ _ _ Hv) as Hrd.
  pose proof (live_pos N s L k) as Hv0.
  eapply (live_child s _ i p); try done; simpl.
  - by rewrite length_insert.
  - by rewrite length_insert.
  - intros k'. rewrite Hh. destruct (decide (k = k')) as [->|Hne].
    + rewrite rd_insert_eq by lia. rewrite (live_adj N s L i p k' Hp).
      rewrite bool_decide_eq_true_2 by done. done.
    + rewrite rd_insert_ne by done. rewrite (live_adj N s L i p k' Hp).
      rewrite bool_decide_eq_false_2 by done. simpl. lia.
  - intros k' _. rewrite Hh. destruct (decide (k = k')) as [->|Hne].
    + rewrite rd_insert_eq by lia. rewrite bool_decide_eq_true_2 by done. simpl. lia.
    + rewrite rd_insert_ne by done. rewrite bool_decide_eq_false_2 by done. simpl. lia.
  - intros k'. destruct (decide (k = k')) as [->|Hne].
    + rewrite rd_insert_eq by lia. lia.
    + rewrite rd_insert_ne by done. apply L.
  - intros r _. by rewrite Hf.
Qed.

(** A step that leaves the semaphores and the busy flags alone. *)
Lemma live_plain s s1 i p p1 a next :
  live N s → procs s !! i = Some p → is_alive p = true →
  sems s1 = sems s → shm s1 = shm s → segs s1 = segs s → doomed s1 = doomed s →
  shmIds s1 = shmIds s →
  parent s1 = parent s → procs s1 = procs s → p_semadj p1 = p_semadj p →
  next ≠ Fail → (∀ st, next = Zombie st ∨ next = Reaped st → st = 0) →
  (∀ k, held N i next k = held N i (p_pc p) k) →
  (∀ r, flagged N i next r = flagged N i (p_pc p) r) →
  live N (commit i a (at_pc next p1) s1).
Proof.
  intros L Hp Ha E1 E2 E3 Ed E4 E5 E6 E7 Hnf Hst Hh Hf.
  apply (live_child s _ i p (at_pc next p1)); try done; simpl.
  - by rewrite E6.
  - by rewrite E1.
  - by rewrite E2.
  - by rewrite E7.
  - intros k. rewrite E7, Hh. by apply L.
  - intros k _. by rewrite E1, Hh.
  - intros k. rewrite E1. apply L.
  - intros r _. by rewrite E2, Hf.
Qed.

(** Under its lock the busy flag of [r] is what its holder made it. *)
Lemma flag_value s i p r :
  live N s → procs s !! i = Some p → (r < N)%nat →
  1 ≤ held N i (p_pc p) r → rd (shm s) r = flagged N i (p_pc p) r.
Proof.
  intros L Hp Hr Hh. rewrite (live_flag N s L r Hr). by eapply live_exclusive.
Qed.

Lemma live_setflag s i p r v next a :
  live N s → procs s !! i = Some p → is_alive p = true → (r < N)%nat →
  1 ≤ held N i (p_pc p) r →
  next ≠ Fail → (∀ st, next = Zombie st ∨ next = Reaped st → st = 0) →
  (∀ k, held N i next k = held N i (p_pc p) k) →
  flagged N i next r = v →
  (∀ r', r' ≠ r → flagged N i next r' = flagged N i (p_pc p) r') →
  live N (commit i a (at_pc next p) (with_shm (<[r := v]> (shm s)) s)).
Proof.
  intros L Hp Ha Hr Hheld Hnf Hst Hh Hv Hf.
  pose proof (live_shm N s L) as Hlm.
  apply (live_child s _ i p (at_pc next p)); try done; simpl.
  - by rewrite length_insert.
  - intros k. rewrite Hh. by apply L.
  - intros k _. by rewrite Hh.
  - apply L.
  - intros r' _. destruct (decide (r = r')) as [<-|Hne].
    + rewrite rd_insert_eq by lia. rewrite (flag_value s i p r) by done. lia.
    + rewrite rd_insert_ne by done. rewrite Hf by done. done.
Qed.

(** A process that terminates takes no segment with it while none is marked. *)
Lemma live_detach s : live N s → live N (detach s).
Proof.
  intros L. destruct (detach_clean s (live_doomed N s L)) as [H1 H2].
  pose proof (live_segs N s L) as H3.
  destruct L. constructor; try done. by rewrite H1.
Qed.

Lemma live_exit0 s s' i p :
  live N s → procs s !! i = Some p → p_pc p = Exit0 →
  do_exit 0 i p s = Some s' → live N s'.
Proof.
  intros L Hp Hc Hstep. unfold do_exit in Hstep. simplify_eq. apply live_detach.
  assert (∀ k, rd (p_semadj p) k = 0) as Hz.
  { intros k. rewrite (live_adj N s L i p k Hp), Hc. held_tac. }
  assert (∀ k, rd (imap (λ k v, v + rd (p_semadj p) k) (sems s)) k = rd (sems s) k) as Hsame.
  { intros k. destruct (decide (k < length (sems s))%nat).
    - rewrite rd_undo by done. rewrite Hz. lia.
    - rewrite !rd_ge; [done|lia|rewrite length_imap; lia]. }
  apply (live_child s _ i p
           (with_semadj ((λ _, 0) <$> p_semadj p) (at_pc (Zombie (exit_status 0)) p)));
    try done; simpl.
  - unfold is_alive. by rewrite Hc.
  - by rewrite length_imap.
  - by rewrite length_fmap.
  - intros st [H|H]; by simplify_eq.
  - intros k. rewrite rd_zeroed. held_tac.
  - intros k _. rewrite Hsame, Hc. held_tac.
  - intros k. rewrite Hsame. apply L.
  - intros r _. rewrite Hc. held_tac.
Qed.

Lemma live_step_child s s' i : live N s → step_child N i s = Some s' → live N s'.
Proof.
  intros L Hstep. unfold step_child in Hstep.
  destruct (procs s !! i) as [p|] eqn:Hp; [|done]. simpl in Hstep.
  pose proof (lookup_lt_procs s i p L Hp) as Hi.
  pose proof (sem2_lt i Hi) as H2. pose proof (sem2_ne i Hi) as Hne.
  pose proof (live_nofail N s L i p Hp) as Hnf.
  assert (gate N ≠ sem1 i ∧ gate N ≠ sem2 N i) as [Hg1 Hg2]
    by (unfold gate, sem1 in *; lia).
  assert (∀ r, (r < N)%nat → 1 ≤ held N i (p_pc p) r →
               flagged N i (p_pc p) r = 0 → rd (shm s) r = 0) as Hclear.
  { intros r Hr H1 H0. rewrite <- H0. by eapply flag_value. }
  assert (p_pc p ≠ Exit0 → (∀ st, p_pc p ≠ Zombie st) → (∀ st, p_pc p ≠ Reaped st) →
          is_alive p = true) as Halive.
  { unfold is_alive. destruct (p_pc p); naive_solver. }
  destruct (p_pc p) eqn:Hc; try done;
    try (unfold advance in Hstep; simplify_eq;
         first
           [ solve [apply (live_plain s _ i p); side_with Hc Halive]
           | solve [apply (live_setflag s i p); side_with Hc Halive] ]).
  - apply (live_acquire s s' i p (gate N) AcqSem1); side_with Hc Halive.
  - apply (live_acquire s s' i p (sem1 i) AcqSem2); side_with Hc Halive.
  - apply (live_acquire s s' i p (sem2 N i) Chk1); side_with Hc Halive.
  - rewrite decide_True in Hstep.
    + unfold advance in Hstep; simplify_eq. apply (live_plain s _ i p); side_with Hc Halive.
    + apply Hclear; side_with Hc Halive.
  - rewrite decide_True in Hstep.
    + unfold advance in Hstep; simplify_eq. apply (live_plain s _ i p); side_with Hc Halive.
    + apply Hclear; side_with Hc Halive.
  - apply (live_release s s' i p (sem1 i) Freed1); side_with Hc Halive.
  - apply (live_release s s' i p (sem2 N i) Freed2); side_with Hc Halive.
  - apply (live_release s s' i p (gate N) Exit0); side_with Hc Halive.
  - by eapply live_exit0.
Qed.

(** The cleanup of a state in which the segments of [shmIds] exist and the
    semaphore set exists: all segments are marked, the set is removed, and
    nothing is said. *)
Lemma cleanup_marks (s : state) :
  segs s = shmIds s → sems s ≠ [] →
  ∃ d, cleanup s = with_sems [] (with_doomed d s) ∧
       ∀ id, id ∈ d ↔ id ∈ doomed s ∨ id ∈ segs s.
Proof.
  intros Hsegs Hsems. unfold cleanup.
  destruct (destroy_marks (shmIds s) s) as (d & -> & Hd); [by rewrite Hsegs|].
  exists d. rewrite Hsegs. split; [|done]. simpl. by destruct (sems s).
Qed.

Lemma existsb_false {A} (f : A → bool) (l : list A) (x : A) :
  existsb f l = false → x ∈ l → f x = false.
Proof.
  intros H Hx. destruct (f x) eqn:Hf; [|done].
  assert (existsb f l = true); [|congruence].
  apply existsb_exists. exists x. by rewrite <- list_elem_of_In.
Qed.

Lemma live_step_parent s s' r q :
  live N s → step_parent N r q s = Some s' → live N s' ∨ after N s'.
Proof.
  intros L Hstep. unfold step_parent in Hstep.
  pose proof (live_parent N s L) as HP.
  destruct (parent s) as [j| | | |st] eqn:Hpar; try done.
  - (* the fork loop *)
    left. case_decide as Hj.
    + case_decide as Hr.
      { (* fork failed *) injection Hstep as <-. apply live_detach.
        destruct L. by constructor. }
      case_decide; [done|]. injection Hstep as <-.
      assert (∀ w p, (procs s ++ [mkProc AcqGate r (replicate (N + 1) 0) false false]) !! w
                     = Some p →
                     procs s !! w = Some p ∨
                     p = mkProc AcqGate r (replicate (N + 1) 0) false false) as Hcase.
      { intros w p Hw. apply lookup_app_Some in Hw as [Hw|[_ Hw]]; [by left|right].
        apply list_lookup_singleton_Some in Hw as [_ Hw]. done. }
      constructor; simpl.
      * rewrite length_app. simpl. lia.
      * apply L.
      * apply L.
      * intros w p Hw. destruct (Hcase w p Hw) as [H'| ->]; [by eapply live_nofail|done].
      * intros w p Hw. destruct (Hcase w p Hw) as [H'| ->]; [by eapply live_adjlen|].
        simpl. by rewrite length_replicate.
      * intros w p k Hw. destruct (Hcase w p Hw) as [H'| ->]; [by eapply live_adj|].
        simpl. transitivity 0; [|held_tac].
        destruct (decide (k < N + 1)%nat); [by rewrite rd_replicate|].
        rewrite rd_ge; [done|rewrite length_replicate; lia].
      * intros k Hk. rewrite isum_app. simpl.
        pose proof (live_sum N s L k Hk) as Hs.
        replace (held N (length (procs s)) AcqGate k) with 0 by held_tac. lia.
      * apply L.
      * intros k Hk. rewrite isum_app. simpl.
        pose proof (live_flag N s L k Hk) as Hs.
        replace (flagged N (length (procs s)) AcqGate k) with 0 by held_tac. lia.
      * intros w p st Hw Hz. destruct (Hcase w p Hw) as [H'| ->]; [by eapply live_status|].
        by destruct Hz.
      * apply L.
      * apply L.
      * rewrite length_app. simpl. lia.
    + injection Hstep as <-. destruct L. constructor; simpl; try done. lia.
  - (* wait *)
    destruct (existsb is_zombie (procs s)) eqn:Hz.
    + left. destruct (procs s !! q) as [p|] eqn:Hq; [|done]. simpl in Hstep.
      destruct (p_pc p) eqn:Hc; try done. injection Hstep as <-.
      apply (live_update s _ q p (at_pc (Reaped status) p)); try done; simpl.
      * by rewrite Hpar.
      * intros st [H|H]; [done|]. injection H as <-.
        eapply (live_status N s L q p); eauto.
      * intros k. rewrite (live_adj N s L q p k Hq), Hc. held_tac.
      * intros k _. rewrite Hc. held_tac.
      * apply L.
      * intros k _. rewrite Hc. held_tac.
    + destruct (existsb is_alive (procs s)) eqn:Ha; [done|]. injection Hstep as <-.
      left. destruct L. constructor; simpl; try done.
      split; [done|]. intros p Hp.
      pose proof (existsb_false _ _ p Hz Hp) as H1.
      pose proof (existsb_false _ _ p Ha Hp) as H2.
      apply list_elem_of_lookup_1 in Hp as [w Hw].
      unfold is_zombie, is_alive in *. destruct (p_pc p) eqn:Hc; try done.
      f_equal. eapply live_status0; eauto.
  - (* cleanup *)
    right. injection Hstep as <-. destruct HP as [Hlen Hall].
    pose proof (live_sems N s L) as Hls.
    destruct (cleanup_marks s (live_segs N s L)) as (d & -> & Hd).
    { intros E. rewrite E in Hls. simpl in Hls. lia. }
    constructor; simpl; try done.
    + by left.
    + split; [apply L|]. intros id Hid. apply Hd. by right.
    + intros k Hk. rewrite (live_flag N s L k Hk).
      rewrite <- (isum_zero 0 (procs s)). apply isum_ext. intros w p Hw.
      rewrite (Hall p) by (by eapply list_elem_of_lookup_2). held_tac.
Qed.

Lemma after_step s s' c : after N s → step N c s = Some s' → after N s'.
Proof.
  intros A Hstep. destruct c as [i|r q]; simpl in Hstep.
  - unfold step_child in Hstep.
    destruct (procs s !! i) as [p|] eqn:Hp; [|done]. simpl in Hstep.
    destruct (after_procs N s A) as [_ Hall].
    rewrite (Hall p) in Hstep by (by eapply list_elem_of_lookup_2). done.
  - unfold step_parent in Hstep. destruct A as [[HP|HP] Hprocs ? Hsegs ?];
      rewrite HP in Hstep; [|done].
    rewrite HP in Hsegs. destruct Hsegs as [_ Hall]. simplify_eq.
    assert (attached (with_parent (PDone (exit_status 0)) s) = false) as Hat.
    { unfold attached. simpl. destruct Hprocs as [_ Hr].
      destruct (existsb is_alive (procs s)) eqn:E; [|done].
      apply existsb_exists in E as (p & Hp & Ha). apply list_elem_of_In in Hp.
      unfold is_alive in Ha. by rewrite (Hr p Hp) in Ha. }
    constructor; simpl; rewrite ?Hat; try done; [by right|].
    split; [|done]. by apply filter_all_doomed.
Qed.

Lemma boot_failed_step s s' c : boot_failed s → step N c s = Some s' → False.
Proof.
  intros (HP & Hprocs & _) Hstep. destruct c as [i|r q]; simpl in Hstep.
  - unfold step_child in Hstep. by rewrite Hprocs in Hstep.
  - unfold step_parent in Hstep. by rewrite HP in Hstep.
Qed.

Lemma inv_step s s' c : inv N s → step N c s = Some s' → inv N s'.
Proof.
  intros [L|[A|B]] Hstep.
  - destruct c as [i|r q]; simpl in Hstep.
    + left. by eapply live_step_child.
    + destruct (live_step_parent s s' r q L Hstep); [by left|by right; left].
  - right; left. by eapply after_step.
  - by destruct (boot_failed_step s s' c).
Qed.

(** [main] up to the first [fork] establishes the invariant, or leaves
    through [exit(-1)]. *)
Lemma boot_loop_inv shmget n sem s :
  (sem + n = N)%nat →
  length (sems s) = (N + 1)%nat → length (shm s) = sem →
  procs s = [] → hist s = [] → segs s = shmIds s → doomed s = [] →
  (∀ k, (k < sem)%nat → rd (sems s) k = 1) →
  (∀ k, 0 ≤ rd (sems s) k) →
  (∀ r, rd (shm s) r = 0) →
  live N (boot_loop N shmget n sem s) ∨ boot_failed (boot_loop N shmget n sem s).
Proof.
  revert sem s. induction n as [|n IH]; intros sem s Hn Hls Hlm Hprocs Hhist Hsegs Hdoom H1 H0 Hshm.
  - left. simpl. assert (sem = N) as -> by lia.
    constructor; simpl; rewrite ?Hprocs; simpl; try done.
    + lia.
    + by rewrite length_insert.
    + intros k Hk. unfold sem_init, gate. case_decide as Hg.
      * rewrite Hg, rd_insert_eq by lia. lia.
      * rewrite rd_insert_ne by done. rewrite H1 by lia. lia.
    + intros k. unfold gate. destruct (decide (N = k)) as [<-|Hne].
      * rewrite rd_insert_eq by lia. unfold gate_slots. lia.
      * by rewrite rd_insert_ne.
  - simpl. case_decide as Hid.
    + right. by repeat split.
    + apply IH; simpl; try done.
      * lia.
      * by rewrite length_insert.
      * rewrite length_app. simpl. lia.
      * by rewrite Hsegs.
      * intros k Hk. destruct (decide (sem = k)) as [<-|Hne].
        -- rewrite rd_insert_eq by lia. done.
        -- rewrite rd_insert_ne by done. apply H1. lia.
      * intros k. destruct (decide (sem = k)) as [<-|Hne].
        -- destruct (decide (sem < length (sems s))%nat).
           ++ rewrite rd_insert_eq by done. lia.
           ++ rewrite list_insert_ge by lia. apply H0.
        -- by rewrite rd_insert_ne.
      * intros r. unfold rd. destruct (decide (r < length (shm s))%nat).
        -- rewrite lookup_app_l by done. apply Hshm.
        -- rewrite lookup_app_r by lia.
           by destruct (r - length (shm s))%nat.
Qed.

Lemma boot_inv shmget fs0 : inv N (boot N shmget fs0).
Proof.
  unfold boot.
  destruct (boot_loop_inv shmget N 0 (fresh N fs0)) as [L|B]; simpl; try done.
  - by rewrite length_replicate.
  - intros k Hk. lia.
  - intros k. destruct (decide (k < N + 1)%nat); [by rewrite rd_replicate|].
    rewrite rd_ge; [done|rewrite length_replicate; lia].
  - by left.
  - by right; right.
Qed.

Lemma reachable_inv shmget fs0 s :
  reachable N (boot N shmget fs0) s → inv N s.
Proof.
  induction 1 as [|s c s' _ IH Hstep]; [apply boot_inv|by eapply inv_step].
Qed.


(** ** Safety: mutual exclusion, the admission bound, the busy flags *)

Lemma isum_two f l j1 j2 p1 p2 :
  (∀ w p, 0 ≤ f w p) → j1 ≠ j2 →
  l !! j1 = Some p1 → l !! j2 = Some p2 →
  f j1 p1 + f j2 p2 ≤ isum f 0 l.
Proof.
  intros Hf Hne H1 H2.
  rewrite (isum_split f 0 l j1 p1 H1). simpl.
  rewrite (isum_split (but j1 f) 0 l j2 p2 H2). simpl.
  assert (0 ≤ isum (but j2 (but j1 f)) 0 l).
  { apply isum_nonneg. intros j p _. unfold but. repeat case_decide; try lia. apply Hf. }
  unfold but at 1. case_decide; [lia|]. lia.
Qed.

Lemma holds_lock_held s w r :
  holds_lock N s w r →
  ∃ p, procs s !! w = Some p ∧ 1 ≤ held N w (p_pc p) r.
Proof.
  intros (p & Hp & [[H ->]|[H ->]]); exists p; (split; [done|]);
    unfold held; rewrite H; simpl.
  - rewrite (bool_decide_eq_true_2 (sem1 w = sem1 w)) by done.
    destruct (_ && _), (_ && _); simpl; lia.
  - rewrite (bool_decide_eq_true_2 (sem2 N w = sem2 N w)) by done.
    destruct (_ && _), (_ && _); simpl; lia.
Qed.

Lemma holds_lock_lt s w r : live N s → holds_lock N s w r → (r < N)%nat.
Proof.
  intros L (p & Hp & H). pose proof (lookup_lt_procs s w p L Hp) as Hw.
  pose proof (sem2_lt w Hw). unfold sem1 in *.
  destruct H as [[_ ->]|[_ ->]]; done.
Qed.

Lemma exclusive_holder s w1 w2 r :
  inv N s → holds_lock N s w1 r → holds_lock N s w2 r → w1 = w2.
Proof.
  intros [L|[A|B]] H1 H2.
  - destruct (decide (w1 = w2)) as [|Hne]; [done|exfalso].
    pose proof (holds_lock_lt s w1 r L H1) as Hr.
    apply holds_lock_held in H1 as (p1 & Hp1 & Hh1).
    apply holds_lock_held in H2 as (p2 & Hp2 & Hh2).
    pose proof (live_sum N s L r ltac:(lia)) as Hs.
    pose proof (live_pos N s L r) as H0.
    rewrite sem_init_lock in Hs by done.
    pose proof (isum_two (λ w p, held N w (p_pc p) r) (procs s) w1 w2 p1 p2
                  ltac:(intros; apply held_nonneg) Hne Hp1 Hp2) as Hsum.
    simpl in Hsum. lia.
  - destruct H1 as (p & Hp & H). destruct (after_procs N s A) as [_ Hall].
    rewrite (Hall p) in H by (by eapply list_elem_of_lookup_2).
    by destruct H as [[? _]|[? _]].
  - destruct H1 as (p & Hp & _). destruct B as (_ & Hprocs & _). by rewrite Hprocs in Hp.
Qed.

Lemma isum_count (g : proc → bool) i l :
  isum (λ _ p, bool_to_Z (g p)) i l = Z.of_nat (length (filter (λ p, g p = true) l)).
Proof.
  revert i. induction l as [|x l IH]; intros i; [done|]. simpl isum.
  rewrite filter_cons, (IH (S i)). destruct (g x) eqn:Hg; simpl; lia.
Qed.

Lemma admitted_sum s :
  live N s →
  isum (λ w p, held N w (p_pc p) (gate N)) 0 (procs s) = Z.of_nat (admitted s).
Proof.
  intros L. unfold admitted.
  rewrite <- (isum_count (λ p, inside (p_pc p)) 0).
  apply isum_ext. intros w p Hw. simpl.
  pose proof (lookup_lt_procs s w p L Hw) as Hlt.
  pose proof (sem2_lt w Hlt).
  unfold held, gate, sem1. rewrite bool_decide_eq_true_2 by done.
  rewrite (bool_decide_eq_false_2 (N = w)) by lia.
  rewrite (bool_decide_eq_false_2 (N = sem2 N w)) by lia.
  rewrite !andb_false_r, andb_true_r. simpl. lia.
Qed.

Lemma admitted_none s : (∀ p, p ∈ procs s → inside (p_pc p) = false) → admitted s = 0%nat.
Proof.
  intros H. unfold admitted. induction (procs s) as [|x l IH]; [done|].
  rewrite filter_cons, decide_False.
  - apply IH. intros p Hp. apply H. by right.
  - rewrite H by left. done.
Qed.

(** The gate's value and the children inside add up to its initial value. *)
Lemma gate_balance s :
  live N s → rd (sems s) (gate N) + Z.of_nat (admitted s) = Z.of_nat N - 1.
Proof.
  intros L. rewrite <- admitted_sum by done.
  rewrite <- sem_init_gate. apply (live_sum N s L). unfold gate. lia.
Qed.

Lemma gate_bound s : inv N s → (admitted s ≤ N - 1)%nat.
Proof.
  intros [L|[A|B]].
  - pose proof (gate_balance s L). pose proof (live_pos N s L (gate N)). lia.
  - rewrite admitted_none; [lia|]. intros p Hp.
    destruct (after_procs N s A) as [_ Hall]. by rewrite (Hall p).
  - destruct B as (_ & Hprocs & _). unfold admitted. rewrite Hprocs. simpl. lia.
Qed.

(** No child ever finds a busy flag set: the branch to [exit(-1)] is dead. *)
Lemma never_fails_inv s w p : inv N s → procs s !! w = Some p → p_pc p ≠ Fail.
Proof.
  intros [L|[A|B]] Hp.
  - by eapply live_nofail.
  - destruct (after_procs N s A) as [_ Hall].
    by rewrite (Hall p) by (by eapply list_elem_of_lookup_2).
  - destruct B as (_ & Hprocs & _). by rewrite Hprocs in Hp.
Qed.


(** A child that has terminated has left through [exit(0)]. *)
Lemma status_zero s w p st :
  inv N s → procs s !! w = Some p →
  p_pc p = Zombie st ∨ p_pc p = Reaped st → st = 0.
Proof.
  intros [L|[A|B]] Hp Hst.
  - by apply (live_status _ _ L w p st Hp).
  - destruct (after_procs N s A) as [_ Hall].
    rewrite (Hall p) in Hst by (by eapply list_elem_of_lookup_2).
    destruct Hst as [?|?]; congruence.
  - destruct B as (_ & Hprocs & _). by rewrite Hprocs in Hp.
Qed.

(** ** Progress: a state that is not terminated can step *)

Lemma acquire_blocked s k next w p :
  live N s → (k ≤ N)%nat → acquire_resource k next w p s = None → rd (sems s) k = 0.
Proof.
  intros L Hk H. unfold acquire_resource in H.
  pose proof (live_sems N s L) as Hls.
  destruct (lookup_lt_is_Some_2 (sems s) k ltac:(lia)) as [v Hv].
  rewrite Hv in H. case_decide as Hv0; [done|].
  pose proof (live_pos N s L k) as Hpos. rewrite (rd_lookup _ _ _ Hv) in *. lia.
Qed.

(** A child that cannot step waits in one of the three [acquire_resource]
    calls on a semaphore at 0, or has terminated. *)
Lemma stuck_cases s w p :
  live N s → procs s !! w = Some p → step_child N w s = None →
  (p_pc p = AcqGate ∧ rd (sems s) (gate N) = 0) ∨
  (p_pc p = AcqSem1 ∧ rd (sems s) (sem1 w) = 0) ∨
  (p_pc p = AcqSem2 ∧ rd (sems s) (sem2 N w) = 0) ∨
  is_alive p = false.
Proof.
  intros L Hp H. unfold step_child in H. rewrite Hp in H. simpl in H.
  pose proof (lookup_lt_procs s w p L Hp) as Hw.
  pose proof (sem2_lt w Hw) as H2.
  unfold is_alive.
  destruct (p_pc p) eqn:Hc; try done;
    try (unfold release_resource in H; destruct (sems s !! _); done).
  - left. split; [done|]. eapply acquire_blocked; [done| |done]. unfold gate. lia.
  - right; left. split; [done|]. eapply acquire_blocked; [done| |done]. unfold sem1. lia.
  - right; right; left. split; [done|]. eapply acquire_blocked; [done| |done]. lia.
  - by right; right; right.
  - by right; right; right.
Qed.

Lemma held_pos j c k :
  0 < held N j c k →
  (inside c = true ∧ k = gate N) ∨ (has1 c = true ∧ k = sem1 j) ∨
  (has2 c = true ∧ k = sem2 N j).
Proof.
  unfold held. intros H.
  destruct (inside c); [destruct (decide (k = gate N)); [by left|]|];
    (destruct (has1 c); [destruct (decide (k = sem1 j)); [by right; left|]|]);
    (destruct (has2 c); [destruct (decide (k = sem2 N j)); [by right; right|]|]);
    exfalso; repeat case_bool_decide; simpl in H; try lia; try done.
Qed.

(** A semaphore at 0 has an owner. *)
Lemma holder_exists s k :
  live N s → (k ≤ N)%nat → rd (sems s) k = 0 →
  ∃ j q, procs s !! j = Some q ∧ 0 < held N j (p_pc q) k.
Proof.
  intros L Hk H0. pose proof (live_sum N s L k Hk) as Hs.
  assert (0 < sem_init N k).
  { unfold sem_init, gate_slots. case_decide; lia. }
  destruct (isum_pos_exists (λ w p, held N w (p_pc p) k) 0 (procs s)) as (j & q & Hq & Hpos);
    [lia|]. by exists j, q.
Qed.

Lemma stuck_pc s w p :
  live N s → stuck N s → procs s !! w = Some p →
  p_pc p = AcqGate ∨ p_pc p = AcqSem1 ∨ p_pc p = AcqSem2 ∨ is_alive p = false.
Proof.
  intros L S Hp.
  destruct (stuck_cases s w p L Hp (S w p Hp)) as [[? _]|[[? _]|[[? _]|?]]]; eauto.
Qed.

Lemma stuck_no_has2 s w p :
  live N s → stuck N s → procs s !! w = Some p → has2 (p_pc p) = false.
Proof.
  intros L S Hp.
  destruct (stuck_pc s w p L S Hp) as [H|[H|[H|H]]];
    unfold is_alive in *; destruct (p_pc p); done.
Qed.

Lemma stuck_has1 s w p :
  live N s → stuck N s → procs s !! w = Some p → has1 (p_pc p) = true → p_pc p = AcqSem2.
Proof.
  intros L S Hp H1.
  destruct (stuck_pc s w p L S Hp) as [H|[H|[H|H]]];
    unfold is_alive in *; destruct (p_pc p); done.
Qed.

Lemma stuck_inside s w p :
  live N s → stuck N s → procs s !! w = Some p → inside (p_pc p) = true →
  p_pc p = AcqSem1 ∨ p_pc p = AcqSem2.
Proof.
  intros L S Hp H1.
  destruct (stuck_pc s w p L S Hp) as [H|[H|[H|H]]];
    unfold is_alive in *; destruct (p_pc p); auto; done.
Qed.

(** Nobody waits for its first lock: the neighbour that holds it as its
    second lock is never blocked. *)
Lemma stuck_no_AcqSem1 s w p :
  live N s → stuck N s → procs s !! w = Some p → p_pc p ≠ AcqSem1.
Proof.
  intros L S Hp Hc.
  pose proof (lookup_lt_procs s w p L Hp) as Hw.
  destruct (stuck_cases s w p L Hp (S w p Hp)) as [[? _]|[[_ H0]|[[? _]|H]]];
    try congruence; [|unfold is_alive in H; by rewrite Hc in H].
  destruct (holder_exists s (sem1 w) L ltac:(unfold sem1; lia) H0) as (j & q & Hq & Hpos).
  apply held_pos in Hpos as [[_ Hk]|[[H1 Hk]|[H2 _]]].
  - unfold gate, sem1 in Hk. lia.
  - unfold sem1 in Hk. subst j. rewrite Hp in Hq. injection Hq as <-. by rewrite Hc in H1.
  - by rewrite (stuck_no_has2 s j q) in H2.
Qed.

(** Who waits for its second lock waits for its successor on the ring, and
    the successor waits for its own second lock. *)
Lemma stuck_next s w p :
  live N s → stuck N s → procs s !! w = Some p → p_pc p = AcqSem2 →
  ∃ q, procs s !! sem2 N w = Some q ∧ p_pc q = AcqSem2.
Proof.
  intros L S Hp Hc.
  pose proof (lookup_lt_procs s w p L Hp) as Hw.
  pose proof (sem2_lt w Hw) as Hlt.
  destruct (stuck_cases s w p L Hp (S w p Hp)) as [[? _]|[[? _]|[[_ H0]|H]]];
    try congruence; [|unfold is_alive in H; by rewrite Hc in H].
  destruct (holder_exists s (sem2 N w) L ltac:(lia) H0) as (j & q & Hq & Hpos).
  apply held_pos in Hpos as [[_ Hk]|[[H1 Hk]|[H2 _]]].
  - unfold gate in Hk. lia.
  - unfold sem1 in Hk. rewrite Hk. exists q. split; [done|]. by eapply stuck_has1.
  - by rewrite (stuck_no_has2 s j q) in H2.
Qed.

(** Following the successor from any place visits the whole ring. *)
Lemma ring_closed (P : nat → Prop) i :
  (i < N)%nat → P i → (∀ j, (j < N)%nat → P j → P (sem2 N j)) →
  ∀ w, (w < N)%nat → P w.
Proof.
  intros Hi Pi Hstep.
  assert (∀ a, (a < N)%nat → P a → ∀ d, (a + d < N)%nat → P (a + d)%nat) as Hup.
  { intros a Ha Pa d. induction d as [|d IH]; intros Hd.
    - by rewrite Nat.add_0_r.
    - specialize (IH ltac:(lia)). apply Hstep in IH; [|lia].
      unfold sem2 in IH. rewrite decide_False in IH by lia.
      by replace (a + S d)%nat with (a + d + 1)%nat by lia. }
  assert (P (N - 1)%nat) as Plast.
  { replace (N - 1)%nat with (i + (N - 1 - i))%nat by lia. apply Hup; [done|done|lia]. }
  assert (P 0%nat) as P0.
  { apply Hstep in Plast; [|lia]. unfold sem2 in Plast. by rewrite decide_True in Plast by lia. }
  intros w Hw. apply (Hup 0%nat ltac:(lia) P0 w). lia.
Qed.

(** Nobody waits for its second lock either: the whole ring would wait
    there, all [N] children inside the gate, which admits [N - 1]. *)
Lemma stuck_no_AcqSem2 s w p :
  live N s → stuck N s → procs s !! w = Some p → p_pc p ≠ AcqSem2.
Proof.
  intros L S Hp Hc.
  pose proof (lookup_lt_procs s w p L Hp) as Hw.
  assert (∀ j, (j < N)%nat → ∃ q, procs s !! j = Some q ∧ p_pc q = AcqSem2) as Hall.
  { apply (ring_closed _ w Hw); [by exists p|].
    intros j _ (q & Hq & Hqc). by eapply stuck_next. }
  assert (length (procs s) = N) as Hlen.
  { pose proof (live_procs N s L).
    destruct (Hall (N - 1)%nat ltac:(lia)) as (q & Hq & _).
    apply lookup_lt_Some in Hq. lia. }
  pose proof (live_sum N s L (gate N) ltac:(unfold gate; lia)) as Hs.
  rewrite sem_init_gate in Hs.
  rewrite (isum_const_one _ 0 (procs s)) in Hs.
  - pose proof (live_pos N s L (gate N)). lia.
  - intros j q Hq. simpl.
    pose proof (lookup_lt_procs s j q L Hq) as Hj.
    pose proof (sem2_lt j Hj).
    destruct (Hall j Hj) as (q' & Hq' & Hc'). rewrite Hq in Hq'. injection Hq' as <-.
    rewrite Hc'. unfold held, gate, sem1 in *. simpl.
    repeat case_bool_decide; simpl; lia.
Qed.

Lemma child_progress s :
  live N s → existsb is_alive (procs s) = true →
  ∃ i s', step_child N i s = Some s'.
Proof.
  intros L Ha.
  destruct (decide (Exists (λ i, is_Some (step_child N i s)) (seq 0 (length (procs s)))))
    as [He|Hn].
  - apply Exists_exists in He as (i & _ & [s' Hs]). by exists i, s'.
  - exfalso. apply not_Exists_Forall in Hn; [|intros i; apply _].
    assert (stuck N s) as S.
    { intros w p Hp. rewrite Forall_forall in Hn.
      specialize (Hn w). apply eq_None_not_Some. apply Hn.
      apply elem_of_seq. apply lookup_lt_Some in Hp. lia. }
    apply existsb_exists in Ha as (p & Hin & Hp).
    apply list_elem_of_In, list_elem_of_lookup_1 in Hin as [w Hw].
    destruct (stuck_cases s w p L Hw (S w p Hw)) as [[Hc H0]|[[Hc _]|[[Hc _]|H]]].
    + destruct (holder_exists s (gate N) L ltac:(unfold gate; lia) H0) as (j & q & Hq & Hpos).
      pose proof (lookup_lt_procs s j q L Hq) as Hj.
      pose proof (sem2_lt j Hj).
      apply held_pos in Hpos as [[Hin' _]|[[_ Hk]|[_ Hk]]];
        [|unfold gate, sem1 in Hk; lia|unfold gate in Hk; lia].
      destruct (stuck_inside s j q L S Hq Hin') as [Hq1|Hq2].
      * by eapply stuck_no_AcqSem1.
      * by eapply stuck_no_AcqSem2.
    + by eapply stuck_no_AcqSem1.
    + by eapply stuck_no_AcqSem2.
    + congruence.
Qed.

Lemma zombie_exists s :
  existsb is_zombie (procs s) = true →
  ∃ q p st, procs s !! q = Some p ∧ p_pc p = Zombie st.
Proof.
  intros H. apply existsb_exists in H as (p & Hin & Hp).
  apply list_elem_of_In, list_elem_of_lookup_1 in Hin as [w Hw].
  unfold is_zombie in Hp. destruct (p_pc p) eqn:Hc; try done. by exists w, p, status.
Qed.

Lemma not_alive_all s :
  existsb is_alive (procs s) = false → ∀ p, p ∈ procs s → is_alive p = false.
Proof. intros H p Hp. by eapply existsb_false. Qed.

Lemma progress_inv s :
  inv N s → terminated s ∨ ∃ c s', step N c s = Some s'.
Proof.
  intros [L|[A|B]].
  - pose proof (live_parent N s L) as HP.
    destruct (parent s) as [j| | | |st] eqn:Hpar; try done.
    + right. exists (Parent (-1) 0). simpl. unfold step_parent. rewrite Hpar.
      case_decide; [rewrite decide_True by lia|]; eauto.
    + right. destruct (existsb is_zombie (procs s)) eqn:Hz.
      * destruct (zombie_exists s Hz) as (q & p & st & Hq & Hc).
        exists (Parent 0 q). simpl. unfold step_parent.
        rewrite Hpar, Hz, Hq. simpl. rewrite Hc. eauto.
      * destruct (existsb is_alive (procs s)) eqn:Ha.
        -- destruct (child_progress s L Ha) as (i & s' & Hs). by exists (Child i), s'.
        -- exists (Parent 0 0). simpl. unfold step_parent. rewrite Hpar, Hz, Ha. eauto.
    + right. exists (Parent 0 0). simpl. unfold step_parent. rewrite Hpar. eauto.
    + destruct (existsb is_alive (procs s)) eqn:Ha.
      * right. destruct (child_progress s L Ha) as (i & s' & Hs). by exists (Child i), s'.
      * left. split; [by exists st|]. by apply not_alive_all.
  - destruct (after_parent N s A) as [HP|HP].
    + right. exists (Parent 0 0). simpl. unfold step_parent. rewrite HP. eauto.
    + left. split; [by exists 0|]. intros p Hp.
      destruct (after_procs N s A) as [_ Hall]. unfold is_alive. by rewrite (Hall p Hp).
  - left. destruct B as (HP & Hprocs & _). split; [by exists 255|].
    rewrite Hprocs. intros p Hp. by apply elem_of_nil in Hp.
Qed.

(** ** What a step changes, and the bound on the length of a run *)

Lemma step_child_spec i s s' :
  step_child N i s = Some s' →
  ∃ p p' a,
    procs s !! i = Some p ∧ procs s' = <[i := p']> (procs s) ∧
    hist s' = hist s ++ [(i, a)] ∧ parent s' = parent s ∧
    (doomed s = [] → segs s' = segs s ∧ doomed s' = []) ∧
    shmIds s' = shmIds s ∧ p_pid p' = p_pid p ∧
    (child_left (p_pc p') < child_left (p_pc p))%nat ∧
    (p_pc p' = Fail ∨ p_pc p = Fail ∨
     (idx (p_pc p') = S (idx (p_pc p)) ∧
      script N i (p_pid p) !! idx (p_pc p) = Some a)).
Proof.
  intros H. unfold step_child in H.
  destruct (procs s !! i) as [p|] eqn:Hp; [|done]. simpl in H. exists p.
  destruct (p_pc p) eqn:Hc; try done;
    unfold acquire_resource, release_resource, advance, do_exit in H;
    repeat (match type of H with
            | context [sems s !! ?k] => destruct (sems s !! k)
            | context [decide ?P] => destruct (decide P)
            end);
    try done; injection H as <-; simpl;
    eexists _, _; (split; [done|]); (split; [reflexivity|]);
    (split; [reflexivity|]); simpl; rewrite ?Hc; simpl;
    (split; [reflexivity|]);
    (split; [intros Hd; rewrite ?Hd; try destruct (attached _);
             rewrite ?filter_not_nil; done|]);
    (split; [reflexivity|]); (split; [reflexivity|]); (split; [lia|]); auto.
Qed.

Lemma sum_list_with_insert (f : proc → nat) l i p q :
  l !! i = Some p →
  (sum_list_with f (<[i := q]> l) + f p = sum_list_with f l + f q)%nat.
Proof.
  revert i. induction l as [|x l IH]; intros i H; [done|].
  destruct i as [|i]; simpl in *.
  - simplify_eq. lia.
  - specialize (IH i H). lia.
Qed.

Lemma step_child_decreases i s s' :
  step_child N i s = Some s' → (steps_left N s' < steps_left N s)%nat.
Proof.
  intros H. destruct (step_child_spec i s s' H)
    as (p & p' & a & Hp & Hprocs & _ & Hpar & _ & _ & _ & Hlt & _).
  unfold steps_left. rewrite Hpar, Hprocs.
  pose proof (sum_list_with_insert (λ p, child_left (p_pc p)) (procs s) i p p' Hp).
  simpl in *. lia.
Qed.

Lemma step_parent_decreases r q s s' :
  step_parent N r q s = Some s' → (steps_left N s' < steps_left N s)%nat.
Proof.
  intros H. unfold step_parent in H. unfold steps_left.
  destruct (parent s) as [j| | | |st] eqn:Hpar; try done.
  - repeat case_decide; try done; injection H as <-; simpl; try lia.
    rewrite sum_list_with_app. simpl.
    replace (N - j)%nat with (S (N - S j)) by lia. lia.
  - destruct (existsb is_zombie (procs s)).
    + destruct (procs s !! q) as [p|] eqn:Hq; [|done]. simpl in H.
      destruct (p_pc p) eqn:Hc; try done. injection H as <-. simpl.
      pose proof (sum_list_with_insert (λ p, child_left (p_pc p)) (procs s) q p
                    (at_pc (Reaped status) p) Hq) as Hs.
      cbv beta in Hs. rewrite Hc in Hs. simpl in Hs. rewrite Hpar. simpl. lia.
    + destruct (existsb is_alive (procs s)); [done|]. injection H as <-. simpl. lia.
  - injection H as <-. simpl. rewrite cleanup_procs. lia.
  - injection H as <-. simpl. lia.
Qed.

Lemma step_decreases c s s' :
  step N c s = Some s' → (steps_left N s' < steps_left N s)%nat.
Proof.
  destruct c; simpl; [apply step_child_decreases|apply step_parent_decreases].
Qed.

Lemma run_decreases cs s s' :
  run N cs s = Some s' → (steps_left N s' + length cs ≤ steps_left N s)%nat.
Proof.
  revert s. induction cs as [|c cs IH]; intros s H; simpl in H.
  - injection H as <-. simpl. lia.
  - destruct (step N c s) as [s1|] eqn:Hs; [|done]. simpl in H.
    specialize (IH s1 H). pose proof (step_decreases c s s1 Hs). simpl. lia.
Qed.

Lemma boot_loop_shape shmget n sem s :
  let s' := boot_loop N shmget n sem s in
  procs s' = procs s ∧ hist s' = hist s ∧ fs s' = fs s ∧
  (parent s' = PFork 0 ∨ parent s' = PDone 255).
Proof.
  revert sem s. induction n as [|n IH]; intros sem s; simpl.
  - repeat split; auto.
  - case_decide.
    + repeat split; auto.
    + apply (IH (S sem)
               (with_shmIds (shmIds s ++ [shmget sem])
                  (with_segs (segs s ++ [shmget sem])
                     (with_shm (shm s ++ [0]) (init_sem sem 1 s))))).
Qed.

Lemma boot_steps_left shmget fs0 :
  (steps_left N (boot N shmget fs0) ≤ 29 * N + 4)%nat.
Proof.
  destruct (boot_loop_shape shmget N 0 (fresh N fs0)) as (Hp & _ & _ & Hpar).
  unfold steps_left, boot. rewrite Hp. simpl.
  destruct Hpar as [-> | ->]; simpl; lia.
Qed.

Lemma run_bound shmget fs0 cs s :
  run N cs (boot N shmget fs0) = Some s → (length cs ≤ 29 * N + 4)%nat.
Proof.
  intros H. pose proof (run_decreases cs _ s H). pose proof (boot_steps_left shmget fs0). lia.
Qed.

Lemma reachable_run s0 s cs s' :
  reachable N s0 s → run N cs s = Some s' → reachable N s0 s'.
Proof.
  revert s. induction cs as [|c cs IH]; intros s R H; simpl in H.
  - by injection H as <-.
  - destruct (step N c s) as [s1|] eqn:Hs; [|done]. simpl in H.
    apply (IH s1); [|done]. by eapply reach_step.
Qed.

Lemma run_reachable s0 cs s : run N cs s0 = Some s → reachable N s0 s.
Proof. apply reachable_run. constructor. Qed.

Lemma run_app cs1 cs2 s :
  run N (cs1 ++ cs2) s = s1 ← run N cs1 s; run N cs2 s1.
Proof.
  revert s. induction cs1 as [|c cs1 IH]; intros s; simpl; [done|].
  destruct (step N c s); simpl; [apply IH|done].
Qed.

Lemma reachable_is_run s0 s : reachable N s0 s → ∃ cs, run N cs s0 = Some s.
Proof.
  induction 1 as [|s c s' _ [cs IH] Hstep].
  - by exists [].
  - exists (cs ++ [c]). rewrite run_app, IH. simpl. by rewrite Hstep.
Qed.

(** ** The steps of a child follow its script *)

Lemma acts_of_snoc w h i a :
  acts_of w (h ++ [(i, a)]) = if decide (i = w) then acts_of w h ++ [a] else acts_of w h.
Proof.
  unfold acts_of. rewrite filter_app, fmap_app, filter_cons, filter_nil. simpl.
  case_decide; simpl; [done|]. by rewrite app_nil_r.
Qed.

Lemma step_parent_spec r q s s' :
  step_parent N r q s = Some s' →
  hist s' = hist s ∧
  (procs s' = procs s ∨
   (∃ pid, procs s' = procs s ++ [mkProc AcqGate pid (replicate (N + 1) 0) false false]) ∨
   (∃ p st, procs s !! q = Some p ∧ p_pc p = Zombie st ∧
            procs s' = <[q := at_pc (Reaped st) p]> (procs s))) ∧
  (fs s' = fs s).
Proof.
  intros H. unfold step_parent in H.
  destruct (parent s) as [j| | | |st] eqn:Hpar; try done.
  - repeat case_decide; try done; injection H as <-; simpl; eauto 6.
  - destruct (existsb is_zombie (procs s)).
    + destruct (procs s !! q) as [p|] eqn:Hq; [|done]. simpl in H.
      destruct (p_pc p) eqn:Hc; try done. injection H as <-. simpl.
      split; [done|]. split; [|done]. right; right. by exists p, status.
    + destruct (existsb is_alive (procs s)); [done|]. injection H as <-. simpl. eauto.
  - injection H as <-. simpl. rewrite cleanup_hist, cleanup_procs, cleanup_fs. eauto.
  - injection H as <-. simpl. eauto.
Qed.

Lemma hist_ok_step c s s' :
  inv N s → hist_ok N s → step N c s = Some s' → hist_ok N s'.
Proof.
  intros I H Hstep. pose proof (inv_step s s' c I Hstep) as I'.
  destruct c as [i|r q]; simpl in Hstep.
  - destruct (step_child_spec i s s' Hstep)
      as (p & p' & a & Hp & Hprocs & Hhist & _ & _ & _ & Hpid & _ & Hcase).
    assert (procs s' !! i = Some p') as Hp'.
    { rewrite Hprocs. apply list_lookup_insert_eq. by eapply lookup_lt_Some. }
    destruct Hcase as [Hf|[Hf|[Hidx Hact]]];
      [by destruct (never_fails_inv s' i p' I' Hp')
      |by destruct (never_fails_inv s i p I Hp)|].
    intros w. rewrite Hhist, acts_of_snoc. case_decide as Hw.
    + subst w. rewrite Hp', (H i), Hp, Hidx, Hpid. by erewrite take_S_r.
    + rewrite Hprocs, list_lookup_insert_ne by done. apply H.
  - destruct (step_parent_spec r q s s' Hstep) as (Hhist & Hprocs & _).
    intros w. rewrite Hhist, (H w).
    destruct Hprocs as [-> |[[pid ->]|(p & st & Hq & Hc & ->)]]; [done| |].
    + destruct (procs s !! w) as [p|] eqn:Hw.
      * by rewrite (lookup_app_l_Some _ _ _ _ Hw).
      * apply lookup_ge_None_1 in Hw.
        destruct (decide (w = length (procs s))) as [->|Hne].
        -- by rewrite list_lookup_middle.
        -- rewrite lookup_ge_None_2; [done|]. rewrite length_app. simpl. lia.
    + destruct (decide (q = w)) as [->|Hne].
      * rewrite list_lookup_insert_eq by (by eapply lookup_lt_Some).
        rewrite Hq. simpl. by rewrite Hc.
      * by rewrite list_lookup_insert_ne.
Qed.

Lemma boot_hist_ok shmget fs0 : hist_ok N (boot N shmget fs0).
Proof.
  destruct (boot_loop_shape shmget N 0 (fresh N fs0)) as (Hp & Hh & _ & _).
  intros w. unfold boot. rewrite Hp, Hh. done.
Qed.

Lemma reachable_hist_ok shmget fs0 s :
  reachable N (boot N shmget fs0) s → hist_ok N s.
Proof.
  induction 1 as [|s c s' R IH Hstep]; [apply boot_hist_ok|].
  eapply hist_ok_step; [|done|done]. by eapply reachable_inv.
Qed.

Lemma child_history shmget fs0 cs s i p :
  run N cs (boot N shmget fs0) = Some s → procs s !! i = Some p →
  acts_of i (hist s) = take (idx (p_pc p)) (script N i (p_pid p)).
Proof.
  intros Hrun Hp. pose proof (run_reachable _ _ _ Hrun) as R.
  pose proof (reachable_hist_ok shmget fs0 s R i) as H. by rewrite Hp in H.
Qed.

Lemma child_history_unforked shmget fs0 cs s i :
  run N cs (boot N shmget fs0) = Some s → procs s !! i = None →
  acts_of i (hist s) = [].
Proof.
  intros Hrun Hp. pose proof (run_reachable _ _ _ Hrun) as R.
  pose proof (reachable_hist_ok shmget fs0 s R i) as H. by rewrite Hp in H.
Qed.

Lemma child_history_length shmget fs0 cs s i p :
  run N cs (boot N shmget fs0) = Some s → procs s !! i = Some p →
  length (acts_of i (hist s)) = idx (p_pc p).
Proof.
  intros Hrun Hp. rewrite (child_history shmget fs0 cs s i p Hrun Hp).
  rewrite length_take. simpl. destruct (p_pc p); simpl; lia.
Qed.

Lemma sem2_mod i : (i < N)%nat → sem2 N i = ((i + 1) mod N)%nat.
Proof.
  intros Hi. unfold sem2. case_decide as H.
  - rewrite H. by rewrite Nat.Div0.mod_same.
  - rewrite Nat.mod_small; lia.
Qed.

Lemma acquired_take n l : acquired (take n l) `sublist_of` acquired l.
Proof.
  revert n. induction l as [|a l IH]; intros n; destruct n as [|n]; simpl;
    try apply sublist_nil_l.
  destruct a; simpl; try apply IH. by apply sublist_skip.
Qed.

(** ** The files and the console *)

Lemma open_append_status name m f :
  (open_append name m).2 !! f = Some Unwritable ↔ m !! f = Some Unwritable.
Proof.
  unfold open_append. case_decide; [done|].
  destruct (m !! name) as [[|ls]|] eqn:Hn; simpl; try done.
  destruct (decide (name = f)) as [<-|Hne].
  - rewrite lookup_insert_eq, Hn. split; intros; done.
  - by rewrite lookup_insert_ne.
Qed.

Lemma open_append_content name m f :
  content (open_append name m).2 f = content m f.
Proof.
  unfold open_append, content. case_decide; [done|].
  destruct (m !! name) as [[|ls]|] eqn:Hn; simpl; try done.
  destruct (decide (name = f)) as [<-|Hne].
  - by rewrite lookup_insert_eq, Hn.
  - by rewrite lookup_insert_ne.
Qed.

Lemma open_append_keeps name m f ls :
  m !! f = Some (Content ls) → (open_append name m).2 !! f = Some (Content ls).
Proof.
  intros H. unfold open_append. case_decide; [done|].
  destruct (m !! name) as [[|ls']|] eqn:Hn; simpl; try done.
  destruct (decide (name = f)) as [<-|Hne]; [congruence|].
  by rewrite lookup_insert_ne.
Qed.

Lemma open_append_good name m :
  name ≠ EmptyString → m !! name ≠ Some Unwritable →
  (open_append name m).1 = true ∧ ∃ ls, (open_append name m).2 !! name = Some (Content ls).
Proof.
  intros H1 H2. unfold open_append. rewrite decide_False by done.
  destruct (m !! name) as [[|ls]|] eqn:Hn; simpl; try done.
  - split; [done|]. by exists ls.
  - split; [done|]. exists []. by rewrite lookup_insert_eq.
Qed.

Lemma append_line_status good name l m f :
  append_line good name l m !! f = Some Unwritable ↔ m !! f = Some Unwritable.
Proof.
  unfold append_line. destruct good; [|done].
  destruct (m !! name) as [[|ls]|] eqn:Hn; simpl; try done.
  destruct (decide (name = f)) as [<-|Hne].
  - rewrite lookup_insert_eq, Hn. split; intros; done.
  - by rewrite lookup_insert_ne.
Qed.

Lemma append_line_other good name l m f :
  name ≠ f → content (append_line good name l m) f = content m f.
Proof.
  intros Hne. unfold append_line, content. destruct good; [|done].
  destruct (m !! name) as [[|ls]|] eqn:Hn; simpl; try done.
  by rewrite lookup_insert_ne.
Qed.

Lemma append_line_same name l m ls :
  m !! name = Some (Content ls) →
  content (append_line true name l m) name = content m name ++ [l].
Proof.
  intros H. unfold append_line, content. rewrite H. by rewrite lookup_insert_eq.
Qed.

Lemma append_line_keeps good name l m f ls :
  m !! f = Some (Content ls) →
  ∃ ls', append_line good name l m !! f = Some (Content ls').
Proof.
  intros H. unfold append_line. destruct good; [|by exists ls].
  destruct (m !! name) as [[|ls']|] eqn:Hn; simpl; try (by exists ls).
  destruct (decide (name = f)) as [<-|Hne].
  - rewrite lookup_insert_eq. eauto.
  - rewrite lookup_insert_ne by done. eauto.
Qed.

Lemma appended_snoc f h i a :
  appended f (h ++ [(i, a)])
  = appended f h ++ match a with
                    | Append f' l => if decide (f' = f) then [(i, l)] else []
                    | _ => []
                    end.
Proof.
  unfold appended. rewrite omap_app. f_equal. simpl.
  destruct a; try done. by case_decide.
Qed.

(** What a step of a child does to the files, the streams and the console. *)
Lemma step_child_files i s s' :
  step_child N i s = Some s' →
  ∃ p p' a,
    procs s !! i = Some p ∧ procs s' = <[i := p']> (procs s) ∧
    hist s' = hist s ++ [(i, a)] ∧
    (p_pc p' = Fail ∨ p_pc p = Fail ∨
     match p_pc p with
     | Open1 =>
         p_pc p' = Open2 ∧ a = OpenFile (db1filename i) ∧
         fs s' = (open_append (db1filename i) (fs s)).2 ∧
         p_db1 p' = (open_append (db1filename i) (fs s)).1 ∧
         p_db2 p' = p_db2 p ∧ out s' = out s
     | Open2 =>
         p_pc p' = Say1 ∧ a = OpenFile (db2filename i) ∧
         fs s' = (open_append (db2filename i) (fs s)).2 ∧
         p_db2 p' = (open_append (db2filename i) (fs s)).1 ∧
         p_db1 p' = p_db1 p ∧ out s' = out s
     | Wr1Used | Wr1Free =>
         ∃ l, a = Append (db1filename i) l ∧
              fs s' = append_line (p_db1 p) (db1filename i) l (fs s) ∧
              p_db1 p' = p_db1 p ∧ p_db2 p' = p_db2 p ∧
              open1 (p_pc p') = true ∧ open2 (p_pc p') = true ∧ out s' = out s
     | Wr2Used | Wr2Free =>
         ∃ l, a = Append (db2filename i) l ∧
              fs s' = append_line (p_db2 p) (db2filename i) l (fs s) ∧
              p_db1 p' = p_db1 p ∧ p_db2 p' = p_db2 p ∧
              open1 (p_pc p') = true ∧ open2 (p_pc p') = true ∧ out s' = out s
     | _ =>
         fs s' = fs s ∧ (∀ f l, a ≠ Append f l) ∧
         (open1 (p_pc p') = true → open1 (p_pc p) = true ∧ p_db1 p' = p_db1 p) ∧
         (open2 (p_pc p') = true → open2 (p_pc p) = true ∧ p_db2 p' = p_db2 p) ∧
         (out s' = out s ∨ ∃ m, out s' = out s ++ [m] ∧ quiet m = true)
     end).
Proof.
  intros H. unfold step_child in H.
  destruct (procs s !! i) as [p|] eqn:Hp; [|done]. simpl in H. exists p.
  destruct (p_pc p) eqn:Hc; try done;
    unfold acquire_resource, release_resource, advance, do_exit in H;
    repeat (match type of H with
            | context [sems s !! ?k] => destruct (sems s !! k)
            | context [decide ?P] => destruct (decide P)
            end);
    try done; injection H as <-; simpl;
    eexists _, _; (split; [done|]); (split; [reflexivity|]);
    (split; [reflexivity|]); simpl;
    first [ by left | by right; left
          | right; right; repeat split; eauto; done
          | right; right; eexists; repeat split; eauto; done ].
Qed.

Lemma lookup_insert_cases (l : list proc) i p' w q :
  <[i := p']> l !! w = Some q → (w = i ∧ q = p') ∨ (w ≠ i ∧ l !! w = Some q).
Proof.
  intros H. destruct (decide (w = i)) as [->|Hne].
  - left. split; [done|].
    apply list_lookup_insert_Some in H as [(_ & <- & _)|(Hne & _)]; done.
  - right. by rewrite list_lookup_insert_ne in H.
Qed.

(** A step that leaves the files alone. *)
Lemma files_ok_plain fs0 s s' i p p' a :
  files_ok fs0 s → procs s !! i = Some p →
  procs s' = <[i := p']> (procs s) → hist s' = hist s ++ [(i, a)] →
  fs s' = fs s → (∀ f l, a ≠ Append f l) →
  (open1 (p_pc p') = true → open1 (p_pc p) = true ∧ p_db1 p' = p_db1 p) →
  (open2 (p_pc p') = true → open2 (p_pc p) = true ∧ p_db2 p' = p_db2 p) →
  files_ok fs0 s'.
Proof.
  intros F Hp Hprocs Hhist Hfs Ha H1 H2. constructor.
  - intros f Hf. rewrite Hfs, Hhist, appended_snoc, (files_content _ _ F f Hf).
    destruct a; rewrite ?app_nil_r; try done. by destruct (Ha filename l).
  - intros f. rewrite Hfs. apply F.
  - intros w q Hq Ho Hw. rewrite Hprocs in Hq. rewrite Hfs.
    destruct (lookup_insert_cases _ _ _ _ _ Hq) as [[-> ->]|[_ Hq']].
    + destruct (H1 Ho) as [Ho' ->]. by apply (files_open1 _ _ F i p).
    + by apply (files_open1 _ _ F w q).
  - intros w q Hq Ho Hw. rewrite Hprocs in Hq. rewrite Hfs.
    destruct (lookup_insert_cases _ _ _ _ _ Hq) as [[-> ->]|[_ Hq']].
    + destruct (H2 Ho) as [Ho' ->]. by apply (files_open2 _ _ F i p).
    + by apply (files_open2 _ _ F w q).
Qed.

(** [db1.open] and [db2.open]. *)
Lemma files_ok_opened fs0 s s' i p p' name :
  files_ok fs0 s → procs s !! i = Some p →
  procs s' = <[i := p']> (procs s) → hist s' = hist s ++ [(i, OpenFile name)] →
  fs s' = (open_append name (fs s)).2 →
  (open1 (p_pc p') = true →
   (open1 (p_pc p) = true ∧ p_db1 p' = p_db1 p) ∨
   (name = db1filename i ∧ p_db1 p' = (open_append name (fs s)).1)) →
  (open2 (p_pc p') = true →
   (open2 (p_pc p) = true ∧ p_db2 p' = p_db2 p) ∨
   (name = db2filename i ∧ p_db2 p' = (open_append name (fs s)).1)) →
  files_ok fs0 s'.
Proof.
  intros F Hp Hprocs Hhist Hfs H1 H2.
  assert (∀ f, writable fs0 f → (∃ ls, fs s !! f = Some (Content ls)) →
               ∃ ls, fs s' !! f = Some (Content ls)) as Hkeep.
  { intros f _ [ls Hls]. exists ls. rewrite Hfs. by apply open_append_keeps. }
  assert (∀ f, writable fs0 f → name = f →
               (open_append name (fs s)).1 = true ∧
               ∃ ls, fs s' !! f = Some (Content ls)) as Hnew.
  { intros f [Hne Hw] <-. rewrite Hfs. apply open_append_good; [done|].
    by rewrite (files_status _ _ F). }
  constructor.
  - intros f Hf. rewrite Hfs, Hhist, appended_snoc, open_append_content.
    rewrite (files_content _ _ F f Hf). by rewrite app_nil_r.
  - intros f. rewrite Hfs, open_append_status. apply F.
  - intros w q Hq Ho Hw. rewrite Hprocs in Hq.
    destruct (lookup_insert_cases _ _ _ _ _ Hq) as [[-> ->]|[_ Hq']].
    + destruct (H1 Ho) as [[Ho' ->]|[Hn ->]].
      * destruct (files_open1 _ _ F i p Hp Ho' Hw) as [? ?]. split; [done|]. by apply Hkeep.
      * by apply Hnew.
    + destruct (files_open1 _ _ F w q Hq' Ho Hw) as [? ?]. split; [done|]. by apply Hkeep.
  - intros w q Hq Ho Hw. rewrite Hprocs in Hq.
    destruct (lookup_insert_cases _ _ _ _ _ Hq) as [[-> ->]|[_ Hq']].
    + destruct (H2 Ho) as [[Ho' ->]|[Hn ->]].
      * destruct (files_open2 _ _ F i p Hp Ho' Hw) as [? ?]. split; [done|]. by apply Hkeep.
      * by apply Hnew.
    + destruct (files_open2 _ _ F w q Hq' Ho Hw) as [? ?]. split; [done|]. by apply Hkeep.
Qed.

(** [db1 << ... << endl] and [db2 << ... << endl]. *)
Lemma files_ok_appended fs0 s s' i p p' good name l :
  files_ok fs0 s → procs s !! i = Some p →
  procs s' = <[i := p']> (procs s) → hist s' = hist s ++ [(i, Append name l)] →
  fs s' = append_line good name l (fs s) →
  (writable fs0 name → good = true ∧ ∃ ls, fs s !! name = Some (Content ls)) →
  open1 (p_pc p) = true → open2 (p_pc p) = true →
  p_db1 p' = p_db1 p → p_db2 p' = p_db2 p →
  files_ok fs0 s'.
Proof.
  intros F Hp Hprocs Hhist Hfs Hgood Ho1 Ho2 E1 E2.
  assert (∀ f, (∃ ls, fs s !! f = Some (Content ls)) →
               ∃ ls, fs s' !! f = Some (Content ls)) as Hkeep.
  { intros f [ls Hls]. rewrite Hfs. by eapply append_line_keeps. }
  constructor.
  - intros f Hf. rewrite Hfs, Hhist, appended_snoc. case_decide as Hn.
    + subst f. destruct (Hgood Hf) as [-> [ls Hls]].
      rewrite (append_line_same _ _ _ ls Hls), (files_content _ _ F name Hf).
      by rewrite fmap_app, app_assoc.
    + rewrite append_line_other by done.
      rewrite (files_content _ _ F f Hf). by rewrite app_nil_r.
  - intros f. rewrite Hfs, append_line_status. apply F.
  - intros w q Hq Ho Hw. rewrite Hprocs in Hq.
    destruct (lookup_insert_cases _ _ _ _ _ Hq) as [[-> ->]|[_ Hq']].
    + rewrite E1. destruct (files_open1 _ _ F i p Hp Ho1 Hw) as [? ?]. split; [done|].
      by apply Hkeep.
    + destruct (files_open1 _ _ F w q Hq' Ho Hw) as [? ?]. split; [done|]. by apply Hkeep.
  - intros w q Hq Ho Hw. rewrite Hprocs in Hq.
    destruct (lookup_insert_cases _ _ _ _ _ Hq) as [[-> ->]|[_ Hq']].
    + rewrite E2. destruct (files_open2 _ _ F i p Hp Ho2 Hw) as [? ?]. split; [done|].
      by apply Hkeep.
    + destruct (files_open2 _ _ F w q Hq' Ho Hw) as [? ?]. split; [done|]. by apply Hkeep.
Qed.

Lemma files_ok_step fs0 c s s' :
  inv N s → files_ok fs0 s → step N c s = Some s' → files_ok fs0 s'.
Proof.
  intros I F Hstep. pose proof (inv_step s s' c I Hstep) as I'.
  destruct c as [i|r q]; simpl in Hstep.
  - destruct (step_child_files i s s' Hstep) as (p & p' & a & Hp & Hprocs & Hhist & Hcase).
    assert (procs s' !! i = Some p') as Hp'.
    { rewrite Hprocs. apply list_lookup_insert_eq. by eapply lookup_lt_Some. }
    destruct Hcase as [Hf|[Hf|Hcase]];
      [by destruct (never_fails_inv s' i p' I' Hp')
      |by destruct (never_fails_inv s i p I Hp)|].
    destruct (p_pc p) eqn:Hc;
      try (destruct Hcase as (Hfs & Ha & H1 & H2 & _);
           rewrite <- Hc in H1, H2;
           by apply (files_ok_plain fs0 s s' i p p' a)).
    + destruct Hcase as (Hc' & Ha & Hfs & E1 & E2 & _). subst a.
      apply (files_ok_opened fs0 s s' i p p' (db1filename i)); try done;
        rewrite Hc', ?Hc; simpl; [by right|done].
    + destruct Hcase as (Hc' & Ha & Hfs & E2 & E1 & _). subst a.
      apply (files_ok_opened fs0 s s' i p p' (db2filename i)); try done;
        rewrite Hc', ?Hc; simpl; [by left|by right].
    + destruct Hcase as (l & Ha & Hfs & E1 & E2 & _). subst a.
      apply (files_ok_appended fs0 s s' i p p' (p_db1 p) (db1filename i) l);
        rewrite ?Hc; try done.
      intros Hw. apply (files_open1 _ _ F i p Hp); [by rewrite Hc|done].
    + destruct Hcase as (l & Ha & Hfs & E1 & E2 & _). subst a.
      apply (files_ok_appended fs0 s s' i p p' (p_db2 p) (db2filename i) l);
        rewrite ?Hc; try done.
      intros Hw. apply (files_open2 _ _ F i p Hp); [by rewrite Hc|done].
    + destruct Hcase as (l & Ha & Hfs & E1 & E2 & _). subst a.
      apply (files_ok_appended fs0 s s' i p p' (p_db1 p) (db1filename i) l);
        rewrite ?Hc; try done.
      intros Hw. apply (files_open1 _ _ F i p Hp); [by rewrite Hc|done].
    + destruct Hcase as (l & Ha & Hfs & E1 & E2 & _). subst a.
      apply (files_ok_appended fs0 s s' i p p' (p_db2 p) (db2filename i) l);
        rewrite ?Hc; try done.
      intros Hw. apply (files_open2 _ _ F i p Hp); [by rewrite Hc|done].
  - destruct (step_parent_spec r q s s' Hstep) as (Hhist & Hprocs & Hfs).
    constructor.
    + intros f Hf. rewrite Hfs, Hhist. by apply F.
    + intros f. rewrite Hfs. apply F.
    + intros w p Hw Ho Hwr. rewrite Hfs.
      destruct Hprocs as [E|[[pid E]|(p0 & st & Hq & Hc & E)]]; rewrite E in Hw.
      * by apply (files_open1 _ _ F w p).
      * apply lookup_app_Some in Hw as [Hw|[_ Hw]]; [by apply (files_open1 _ _ F w p)|].
        apply list_lookup_singleton_Some in Hw as [_ <-]. done.
      * destruct (lookup_insert_cases _ _ _ _ _ Hw) as [[-> ->]|[_ Hw']]; [done|].
        by apply (files_open1 _ _ F w p).
    + intros w p Hw Ho Hwr. rewrite Hfs.
      destruct Hprocs as [E|[[pid E]|(p0 & st & Hq & Hc & E)]]; rewrite E in Hw.
      * by apply (files_open2 _ _ F w p).
      * apply lookup_app_Some in Hw as [Hw|[_ Hw]]; [by apply (files_open2 _ _ F w p)|].
        apply list_lookup_singleton_Some in Hw as [_ <-]. done.
      * destruct (lookup_insert_cases _ _ _ _ _ Hw) as [[-> ->]|[_ Hw']]; [done|].
        by apply (files_open2 _ _ F w p).
Qed.

Lemma boot_files_ok shmget fs0 : files_ok fs0 (boot N shmget fs0).
Proof.
  destruct (boot_loop_shape shmget N 0 (fresh N fs0)) as (Hp & Hh & Hf & _).
  unfold boot. constructor; rewrite ?Hp, ?Hh, ?Hf; simpl; try done.
  intros f _. by rewrite app_nil_r.
Qed.

Lemma reachable_files_ok shmget fs0 s :
  reachable N (boot N shmget fs0) s → files_ok fs0 s.
Proof.
  induction 1 as [|s c s' R IH Hstep]; [apply boot_files_ok|].
  eapply files_ok_step; [|done|done]. by eapply reachable_inv.
Qed.

Lemma step_parent_out r q s s' :
  inv N s → step_parent N r q s = Some s' →
  (out s' = out s ∧ (parent s = PDone 255 → parent s' = PDone 255)) ∨
  (out s' = out s ++ [MsgForkFailed] ∧ parent s' = PDone 255).
Proof.
  intros I H. unfold step_parent in H.
  destruct (parent s) as [j| | | |st] eqn:Hpar; try done.
  - repeat case_decide; try done; injection H as <-; simpl; [by right|by left..].
  - destruct (existsb is_zombie (procs s)).
    + destruct (procs s !! q) as [p|] eqn:Hq; [|done]. simpl in H.
      destruct (p_pc p) eqn:Hc; try done. injection H as <-. simpl. by left.
    + destruct (existsb is_alive (procs s)); [done|]. injection H as <-. simpl. by left.
  - injection H as <-. left. split; [|done]. destruct I as [L|[A|B]].
    + pose proof (live_sems N s L) as Hls.
      destruct (cleanup_marks s (live_segs N s L)) as (d & -> & _); [|done].
      intros E. rewrite E in Hls. simpl in Hls. lia.
    + destruct (after_parent N s A); congruence.
    + destruct B as (HB & _). congruence.
  - injection H as <-. simpl. by left.
Qed.

Lemma out_ok_step c s s' : inv N s → out_ok s → step N c s = Some s' → out_ok s'.
Proof.
  intros I O Hstep. pose proof (inv_step s s' c I Hstep) as I'.
  assert ((out s' = out s ∧ (parent s = PDone 255 → parent s' = PDone 255)) ∨
          (∃ m, out s' = out s ++ [m] ∧ (parent s = PDone 255 → parent s' = PDone 255) ∧
                (quiet m = true ∨ (m = MsgForkFailed ∧ parent s' = PDone 255)))) as Hout.
  { destruct c as [i|r q]; simpl in Hstep.
    - destruct (step_child_spec i s s' Hstep)
        as (p0 & p0' & a0 & Hp0 & _ & _ & Hpar & _).
      destruct (step_child_files i s s' Hstep) as (p & p' & a & Hp & Hprocs & Hhist & Hcase).
      assert (procs s' !! i = Some p') as Hp'.
      { rewrite Hprocs. apply list_lookup_insert_eq. by eapply lookup_lt_Some. }
      destruct Hcase as [Hf|[Hf|Hcase]];
        [by destruct (never_fails_inv s' i p' I' Hp')
        |by destruct (never_fails_inv s i p I Hp)|].
      rewrite Hpar.
      destruct (p_pc p);
        try (destruct Hcase as (_ & _ & _ & _ & [E|(m & E & Hq)]);
             [by left|right; exists m; by eauto]);
        try (destruct Hcase as (_ & _ & _ & _ & _ & E); by left);
        try (destruct Hcase as (l & _ & _ & _ & _ & _ & _ & E); by left).
    - destruct (step_parent_out r q s s' I Hstep) as [[E HP]|[E HP]]; [by left|].
      right. exists MsgForkFailed. eauto. }
  intros m Hm.
  destruct Hout as [[E HP]|(m' & E & HP & Hq)]; rewrite E in Hm.
  - destruct (O m Hm) as [?|[? ?]]; [by left|right; eauto].
  - apply elem_of_app in Hm as [Hm|Hm].
    + destruct (O m Hm) as [?|[? ?]]; [by left|right; eauto].
    + apply list_elem_of_singleton in Hm as ->.
      destruct Hq as [?|[-> ?]]; [by left|right; eauto].
Qed.

Lemma boot_loop_out shmget n sem s :
  out s = [] →
  (out (boot_loop N shmget n sem s) = [] ∧
   parent (boot_loop N shmget n sem s) = PFork 0) ∨
  (out (boot_loop N shmget n sem s) = [MsgShmFailed] ∧
   parent (boot_loop N shmget n sem s) = PDone 255).
Proof.
  revert sem s. induction n as [|n IH]; intros sem s Hs; simpl.
  - by left.
  - case_decide.
    + right. simpl. by rewrite Hs.
    + by apply IH.
Qed.

Lemma boot_out_ok shmget fs0 : out_ok (boot N shmget fs0).
Proof.
  intros m Hm. unfold boot in *.
  destruct (boot_loop_out shmget N 0 (fresh N fs0) eq_refl) as [[E _]|[E HP]];
    rewrite E in Hm.
  - by apply elem_of_nil in Hm.
  - apply list_elem_of_singleton in Hm as ->. right. eauto.
Qed.

Lemma reachable_out_ok shmget fs0 s :
  reachable N (boot N shmget fs0) s → out_ok s.
Proof.
  induction 1 as [|s c s' R IH Hstep]; [apply boot_out_ok|].
  eapply out_ok_step; [|done|done]. by eapply reachable_inv.
Qed.

Lemma appended_cons f i a h :
  appended f ((i, a) :: h)
  = match a with
    | Append f' l => if decide (f' = f) then [(i, l)] else []
    | _ => []
    end ++ appended f h.
Proof. unfold appended. simpl. destruct a; try done. by case_decide. Qed.

Lemma acts_of_cons w i a h :
  acts_of w ((i, a) :: h) = if decide (i = w) then a :: acts_of w h else acts_of w h.
Proof. unfold acts_of. rewrite filter_cons. simpl. by case_decide. Qed.

Lemma lines_in_cons f a l :
  lines_in f (a :: l)
  = match a with
    | Append f' x => if decide (f' = f) then [x] else []
    | _ => []
    end ++ lines_in f l.
Proof. unfold lines_in. simpl. destruct a; try done. by case_decide. Qed.

(** The lines one child appended are the appends among its own steps. *)
Lemma appended_of w f h :
  filter (λ e, e.1 = w) (appended f h) = (λ l, (w, l)) <$> lines_in f (acts_of w h).
Proof.
  induction h as [|[i a] h IH]; [done|].
  rewrite appended_cons, acts_of_cons, filter_app, IH.
  destruct (decide (i = w)) as [->|Hne].
  - rewrite lines_in_cons, fmap_app. f_equal.
    destruct a; try done. case_decide; [|done].
    rewrite filter_cons. simpl. by rewrite decide_True.
  - replace (filter _ _) with (@nil (nat * line)); [done|].
    destruct a; try done. case_decide; [|done].
    rewrite filter_cons. simpl. by rewrite decide_False.
Qed.

(** Only forked children have lines in a file. *)
Lemma appended_tags shmget fs0 cs s f e :
  run N cs (boot N shmget fs0) = Some s → e ∈ appended f (hist s) →
  (e.1 < length (procs s))%nat.
Proof.
  intros Hrun He. destruct (decide (e.1 < length (procs s))%nat) as [|Hge]; [done|exfalso].
  assert (e ∈ filter (λ e', e'.1 = e.1) (appended f (hist s))) as Hin
    by (by apply list_elem_of_filter).
  rewrite appended_of in Hin.
  rewrite (child_history_unforked shmget fs0 cs s (e.1) Hrun) in Hin.
  - by apply elem_of_nil in Hin.
  - apply lookup_ge_None_2. lia.
Qed.

(** A terminated child has made every step of its script. *)
Lemma terminated_history shmget fs0 cs s i p :
  run N cs (boot N shmget fs0) = Some s → procs s !! i = Some p →
  is_alive p = false → acts_of i (hist s) = script N i (p_pid p).
Proof.
  intros Hrun Hp Ha. rewrite (child_history shmget fs0 cs s i p Hrun Hp).
  unfold is_alive in Ha. destruct (p_pc p); try done; by apply take_ge.
Qed.

(** ** Terminated states, and every run can be completed *)

Lemma terminated_status s p :
  inv N s → terminated s → p ∈ procs s → p_pc p = Zombie 0 ∨ p_pc p = Reaped 0.
Proof.
  intros I [_ T] Hp. specialize (T p Hp).
  destruct I as [L|[A|B]].
  - apply list_elem_of_lookup_1 in Hp as [w Hw].
    unfold is_alive in T. destruct (p_pc p) eqn:Hc; try done.
    + left. f_equal. eapply (live_status N s L w p); eauto.
    + right. f_equal. eapply (live_status N s L w p); eauto.
  - right. destruct (after_procs N s A) as [_ Hall]. by apply Hall.
  - destruct B as (_ & Hprocs & _). rewrite Hprocs in Hp. by apply elem_of_nil in Hp.
Qed.

Lemma parent_done_after s : inv N s → parent s = PDone 0 → after N s.
Proof.
  intros [L|[A|B]] HP; [|done|].
  - pose proof (live_parent N s L) as H. rewrite HP in H. done.
  - destruct B as (HB & _). rewrite HP in HB. done.
Qed.

Lemma completes_from n s :
  (steps_left N s ≤ n)%nat → inv N s →
  ∃ cs s', run N cs s = Some s' ∧ terminated s'.
Proof.
  revert s. induction n as [|n IH]; intros s Hn I.
  - destruct (progress_inv s I) as [T|(c & s' & Hs)].
    + by exists [], s.
    + pose proof (step_decreases c s s' Hs). lia.
  - destruct (progress_inv s I) as [T|(c & s1 & Hs)].
    + by exists [], s.
    + pose proof (step_decreases c s s1 Hs).
      destruct (IH s1 ltac:(lia) ltac:(by eapply inv_step)) as (cs & s' & Hr & T).
      exists (c :: cs), s'. simpl. rewrite Hs. simpl. done.
Qed.

Lemma completes s : inv N s → ∃ cs s', run N cs s = Some s' ∧ terminated s'.
Proof. by apply (completes_from (steps_left N s)). Qed.

(** When every forked child has terminated, the semaphores are back at their
    initial values. *)
Lemma sems_restored s k :
  live N s → (∀ p, p ∈ procs s → is_alive p = false) → (k ≤ N)%nat →
  rd (sems s) k = sem_init N k.
Proof.
  intros L Hall Hk. rewrite <- (live_sum N s L k Hk).
  rewrite (isum_ext _ (λ _ _, 0) 0 (procs s)); [rewrite isum_zero; lia|].
  intros w p Hw. simpl.
  specialize (Hall p ltac:(by eapply list_elem_of_lookup_2)).
  unfold is_alive in Hall. destruct (p_pc p); try done; held_tac.
Qed.

Lemma out_grows c s s' : inv N s → step N c s = Some s' → ∀ m, m ∈ out s → m ∈ out s'.
Proof.
  intros I Hstep m Hm. pose proof (inv_step s s' c I Hstep) as I'.
  destruct c as [i|r q]; simpl in Hstep.
  - destruct (step_child_files i s s' Hstep) as (p & p' & a & Hp & Hprocs & Hhist & Hcase).
    assert (procs s' !! i = Some p') as Hp'.
    { rewrite Hprocs. apply list_lookup_insert_eq. by eapply lookup_lt_Some. }
    destruct Hcase as [Hf|[Hf|Hcase]];
      [by destruct (never_fails_inv s' i p' I' Hp')
      |by destruct (never_fails_inv s i p I Hp)|].
    destruct (p_pc p);
      try (destruct Hcase as (_ & _ & _ & _ & [E|(m' & E & Hq)]); rewrite E;
           [done|apply elem_of_app; by left]);
      try (destruct Hcase as (_ & _ & _ & _ & _ & E); by rewrite E);
      try (destruct Hcase as (l & _ & _ & _ & _ & _ & _ & E); by rewrite E).
  - destruct (step_parent_out r q s s' I Hstep) as [[E _]|[E _]]; rewrite E; [done|].
    apply elem_of_app; by left.
Qed.

Lemma failure_said_step c s s' :
  inv N s → failure_said s → step N c s = Some s' → failure_said s'.
Proof.
  intros I Fs Hstep HP.
  destruct (decide (parent s = PDone 255)) as [Hold|Hnew].
  - destruct (Fs Hold) as [H|H]; [left|right]; by eapply out_grows.
  - destruct c as [i|r q]; simpl in Hstep.
    + destruct (step_child_spec i s s' Hstep) as (p & p' & a & _ & _ & _ & Hpar & _).
      congruence.
    + destruct (step_parent_out r q s s' I Hstep) as [[E _]|[E _]].
      * exfalso. unfold step_parent in Hstep.
        destruct (parent s) as [j| | | |st] eqn:Hpar; try done.
        -- repeat case_decide; try done; injection Hstep as <-; simpl in *; try done.
           apply (f_equal length) in E. rewrite length_app in E. simpl in E. lia.
        -- destruct (existsb is_zombie (procs s)).
           ++ destruct (procs s !! q) as [p|]; [|done]. simpl in Hstep.
              destruct (p_pc p); try done. injection Hstep as <-. simpl in *. congruence.
           ++ destruct (existsb is_alive (procs s)); [done|].
              injection Hstep as <-. simpl in *. done.
        -- injection Hstep as <-. simpl in *. done.
        -- injection Hstep as <-. simpl in *. done.
      * left. rewrite E. apply elem_of_app. right. by apply list_elem_of_singleton.
Qed.

Lemma boot_failure_said shmget fs0 : failure_said (boot N shmget fs0).
Proof.
  intros HP. unfold boot in *.
  destruct (boot_loop_out shmget N 0 (fresh N fs0) eq_refl) as [[_ E]|[E _]].
  - congruence.
  - right. rewrite E. by apply list_elem_of_singleton.
Qed.

Lemma reachable_failure_said shmget fs0 s :
  reachable N (boot N shmget fs0) s → failure_said s.
Proof.
  induction 1 as [|s c s' R IH Hstep]; [apply boot_failure_said|].
  eapply failure_said_step; [|done|done]. by eapply reachable_inv.
Qed.

(** The exit status of [main]: 0, or 255 after a failure it has reported. *)
Lemma parent_status shmget fs0 s st :
  reachable N (boot N shmget fs0) s → parent s = PDone st →
  st = 0 ∨ (st = 255 ∧ (MsgForkFailed ∈ out s ∨ MsgShmFailed ∈ out s)).
Proof.
  intros R HP. pose proof (reachable_inv shmget fs0 s R) as [L|[A|B]].
  - pose proof (live_parent N s L) as H. rewrite HP in H. subst st.
    right. split; [done|]. by apply (reachable_failure_said shmget fs0 s R).
  - destruct (after_parent N s A); [congruence|]. left. congruence.
  - destruct B as (HB & _). rewrite HP in HB. injection HB as ->.
    right. split; [done|]. by apply (reachable_failure_said shmget fs0 s R).
Qed.

(** The values [main] gives the semaphores before the first [fork]. *)
Lemma boot_sems shmget fs0 k :
  parent (boot N shmget fs0) = PFork 0 → (k ≤ N)%nat →
  rd (sems (boot N shmget fs0)) k = sem_init N k.
Proof.
  intros HP Hk. destruct (boot_inv shmget fs0) as [L|[A|B]].
  - rewrite <- (live_sum N _ L k Hk).
    destruct (boot_loop_shape shmget N 0 (fresh N fs0)) as (Hp & _).
    unfold boot. rewrite Hp. simpl. lia.
  - destruct (after_parent N _ A); congruence.
  - destruct B as (HB & _). congruence.
Qed.

(** The circular wait, every child holding its first lock and waiting for
    its second, would need all [N] children inside the gate. *)
Lemma no_circular_wait s :
  inv N s → ¬ (length (procs s) = N ∧ ∀ p, p ∈ procs s → p_pc p = AcqSem2).
Proof.
  intros I [Hlen Hall]. pose proof (gate_bound s I) as Hb.
  assert (admitted s = length (procs s)) as Ha; [|lia].
  unfold admitted. clear Hlen Hb. induction (procs s) as [|x l IH]; [done|].
  rewrite filter_cons, decide_True by (rewrite Hall; [done|left]).
  simpl. f_equal. apply IH. intros p Hp. apply Hall. by right.
Qed.

End Proofs.

(** ** [main] up to the first [fork], in closed form *)

Section Boot.

Variable N : nat.

Lemma insert_ones (a b : nat) (v : Z) :
  <[a := v]> (replicate a 1 ++ replicate (S b) 0) = replicate a 1 ++ v :: replicate b 0.
Proof.
  rewrite insert_app_r_alt by (rewrite length_replicate; lia).
  by rewrite length_replicate, Nat.sub_diag.
Qed.

Lemma ones_snoc (a : nat) (l : list Z) :
  replicate a 1 ++ 1 :: l = replicate (S a) 1 ++ l.
Proof. by rewrite replicate_S_end, <- app_assoc. Qed.

Lemma boot_loop_all shmget n sem s :
  (sem + n = N)%nat →
  sems s = replicate sem 1 ++ replicate (S n) 0 →
  (∀ k, (sem ≤ k < N)%nat → shmget k ≠ -1) →
  boot_loop N shmget n sem s
  = mkState (replicate N 1 ++ [gate_slots N]) (shm s ++ replicate n 0)
      (segs s ++ (shmget <$> seq sem n)) (doomed s)
      (shmIds s ++ (shmget <$> seq sem n))
      (PFork 0) (procs s) (fs s) (out s) (hist s).
Proof.
  revert sem s. induction n as [|n IH]; intros sem s Hn Hsems Hok.
  - simpl. unfold with_parent, init_sem, with_sems, gate. simpl.
    replace sem with N in Hsems by lia.
    rewrite Hsems, insert_ones, !app_nil_r. done.
  - simpl. destruct (decide (shmget sem = -1)) as [E|_].
    { destruct (Hok sem); [lia|done]. }
    rewrite IH; simpl.
    + rewrite <- !app_assoc. done.
    + lia.
    + rewrite Hsems, insert_ones. apply ones_snoc.
    + intros k Hk. apply Hok. lia.
Qed.

Lemma boot_loop_fails shmget n sem s k :
  (sem + n = N)%nat →
  sems s = replicate sem 1 ++ replicate (S n) 0 →
  procs s = [] → doomed s = [] →
  (sem ≤ k < N)%nat → shmget k = -1 →
  (∀ j, (sem ≤ j < k)%nat → shmget j ≠ -1) →
  boot_loop N shmget n sem s
  = mkState (replicate (S k) 1 ++ replicate (N - k) 0) (shm s ++ replicate (k - sem) 0)
      (segs s ++ (shmget <$> seq sem (k - sem))) []
      (shmIds s ++ (shmget <$> seq sem (k - sem)))
      (PDone 255) [] (fs s) (out s ++ [MsgShmFailed]) (hist s).
Proof.
  revert sem s. induction n as [|n IH];
    intros sem s Hn Hsems Hprocs Hdoom Hk Hfail Hok; [lia|].
  simpl. destruct (decide (shmget sem = -1)) as [E|Hne].
  - destruct (decide (sem = k)) as [->|Hlt].
    + unfold detach, attached, with_parent, say, init_sem, with_sems. simpl.
      rewrite Hprocs, Hdoom. simpl.
      rewrite Hsems, insert_ones, ones_snoc, Nat.sub_diag, !app_nil_r, filter_not_nil.
      replace (N - k)%nat with (S n) by lia. done.
    + destruct (Hok sem); [lia|done].
  - assert (sem ≠ k) as Hsk by (intros ->; done).
    rewrite IH; simpl.
    + replace (k - sem)%nat with (S (k - S sem)) by lia. simpl.
      rewrite <- !app_assoc. done.
    + lia.
    + rewrite Hsems, insert_ones. apply ones_snoc.
    + done.
    + done.
    + lia.
    + done.
    + intros j Hj. apply Hok. lia.
Qed.

Lemma boot_loop_count shmget n sem s :
  parent (boot_loop N shmget n sem s) = PFork 0 →
  length (segs (boot_loop N shmget n sem s)) = (length (segs s) + n)%nat.
Proof.
  revert sem s. induction n as [|n IH]; intros sem s HP; simpl in *; [lia|].
  destruct (decide (shmget sem = -1)); [done|].
  rewrite IH by done. simpl. rewrite length_app. simpl. lia.
Qed.

Lemma boot_loop_sems_length shmget n sem s :
  length (sems (boot_loop N shmget n sem s)) = length (sems s).
Proof.
  revert sem s. induction n as [|n IH]; intros sem s; simpl.
  - by rewrite length_insert.
  - destruct (decide (shmget sem = -1)); simpl; [by rewrite length_insert|].
    rewrite IH. simpl. by rewrite length_insert.
Qed.

End Boot.

(** ** More of the invariant: kernel objects, flags, adjustments, files *)

Section More.

Variable N : nat.
Hypothesis HN : (2 ≤ N)%nat.

#[local] Set Default Proof Using "All".

Lemma boot_failed_only s0 s : boot_failed s0 → reachable N s0 s → s = s0.
Proof.
  intros B R. induction R as [|s c s' R IH Hstep]; [done|].
  rewrite IH in Hstep. by destruct (boot_failed_step N HN s0 s' c B Hstep).
Qed.

Lemma live_not_after s : live N s → after N s → False.
Proof.
  intros L A. pose proof (live_parent N s L) as HP.
  destruct (after_parent N s A) as [H|H]; rewrite H in HP; [done|discriminate].
Qed.

Lemma boot_live shmget fs0 :
  parent (boot N shmget fs0) = PFork 0 → live N (boot N shmget fs0).
Proof.
  intros HP. destruct (boot_inv N HN shmget fs0) as [L|[A|B]]; [done| |].
  - destruct (after_parent N _ A) as [H|H]; congruence.
  - destruct B as (H & _). congruence.
Qed.

Lemma reachable_live shmget fs0 s :
  parent (boot N shmget fs0) = PFork 0 → reachable N (boot N shmget fs0) s →
  live N s ∨ after N s.
Proof.
  intros HP R. induction R as [|s c s' R IH Hstep]; [left; by apply boot_live|].
  destruct IH as [L|A].
  - destruct c as [i|r q]; simpl in Hstep.
    + left. by eapply (live_step_child N HN).
    + by eapply (live_step_parent N HN).
  - right. by eapply (after_step N HN).
Qed.

(** A step destroys no segment while none is marked. *)
Lemma step_segs c s s' :
  step N c s = Some s' → doomed s = [] →
  segs s' = segs s ∧ shmIds s' = shmIds s.
Proof.
  intros Hstep Hd. destruct c as [i|r q]; simpl in Hstep.
  - destruct (step_child_spec N HN i s s' Hstep)
      as (p & p' & a & _ & _ & _ & _ & Hsegs & Hids & _).
    by destruct (Hsegs Hd).
  - unfold step_parent in Hstep.
    destruct (parent s) as [j| | | |st] eqn:Hpar; try done.
    + repeat case_decide; try done; injection Hstep as <-; try done.
      split; [|done]. by apply (detach_clean (with_parent _ (say _ s))).
    + destruct (existsb is_zombie (procs s)).
      * destruct (procs s !! q) as [p|] eqn:Hq; [|done]. simpl in Hstep.
        destruct (p_pc p) eqn:Hc; try done. by injection Hstep as <-.
      * destruct (existsb is_alive (procs s)); [done|]. by injection Hstep as <-.
    + injection Hstep as <-. simpl.
      by destruct (cleanup_frame s) as (_ & -> & -> & _).
    + injection Hstep as <-. split; [|done].
      by apply (detach_clean (with_parent _ s)).
Qed.

(** Until [main] has left through [exit(0)], the segments are those of the
    start. *)
Lemma objects_kept shmget fs0 s :
  reachable N (boot N shmget fs0) s → parent s ≠ PDone 0 →
  segs s = segs (boot N shmget fs0) ∧ shmIds s = shmIds (boot N shmget fs0).
Proof.
  induction 1 as [|s c s' R IH Hstep]; [done|]. intros HP.
  destruct (reachable_inv N HN _ _ _ R) as [L|[A|B]].
  - destruct (step_segs c s s' Hstep (live_doomed N s L)) as [-> ->].
    apply IH. intros E. pose proof (live_parent N s L) as H. by rewrite E in H.
  - exfalso. destruct c as [i|r q]; simpl in Hstep.
    + unfold step_child in Hstep.
      destruct (procs s !! i) as [p|] eqn:Hp; [|done]. simpl in Hstep.
      destruct (after_procs N s A) as [_ Hall].
      by rewrite (Hall p) in Hstep by (by eapply list_elem_of_lookup_2).
    + unfold step_parent in Hstep.
      destruct (after_parent N s A) as [E|E]; rewrite E in Hstep; [|done].
      injection Hstep as <-. by destruct HP.
  - by destruct (boot_failed_step N HN s s' c B Hstep).
Qed.

Lemma live_objects shmget fs0 s :
  reachable N (boot N shmget fs0) s → live N s →
  segs s = segs (boot N shmget fs0) ∧ shmIds s = shmIds (boot N shmget fs0).
Proof.
  intros R L. apply objects_kept; [done|].
  intros E. pose proof (live_parent N s L) as H. by rewrite E in H.
Qed.

Lemma boot_segments shmget fs0 :
  parent (boot N shmget fs0) = PFork 0 → length (segs (boot N shmget fs0)) = N.
Proof. intros HP. unfold boot in *. by rewrite boot_loop_count. Qed.

(** *** The value of a lock and of a busy flag *)

Lemma isum_ge f (l : list proc) w p :
  (∀ j q, 0 ≤ f j q) → l !! w = Some p → f w p ≤ isum f 0 l.
Proof.
  intros Hf Hw. rewrite (isum_split f 0 l w p Hw). simpl.
  assert (0 ≤ isum (but w f) 0 l); [|lia].
  apply isum_nonneg. intros j q _. unfold but. case_decide; [lia|apply Hf].
Qed.

Lemma lock_value s r :
  live N s → (r < N)%nat →
  (rd (sems s) r = 0 ∨ rd (sems s) r = 1) ∧
  (rd (sems s) r = 0 ↔ ∃ w, holds_lock N s w r).
Proof.
  intros L Hr.
  pose proof (live_sum N s L r ltac:(lia)) as Hs.
  rewrite (sem_init_lock N HN r Hr) in Hs.
  pose proof (live_pos N s L r) as Hpos.
  assert (0 ≤ isum (λ w p, held N w (p_pc p) r) 0 (procs s)) as Hnn.
  { apply isum_nonneg. intros j p _. apply (held_nonneg N HN). }
  split; [lia|]. split.
  - intros H0. destruct (holder_exists N HN s r L ltac:(lia) H0) as (j & q & Hq & Hh).
    exists j, q. split; [done|].
    destruct (held_pos N HN j _ r Hh) as [[_ E]|[[? ?]|[? ?]]]; [|by left|by right].
    unfold gate in E. lia.
  - intros (w & Hw). destruct (holds_lock_held N HN s w r Hw) as (p & Hp & H1).
    pose proof (isum_ge (λ w p, held N w (p_pc p) r) (procs s) w p
                  (λ j q, held_nonneg N HN j (p_pc q) r) Hp) as Hge.
    simpl in Hge. lia.
Qed.

Lemma flagged_pos j c r :
  0 < flagged N j c r →
  (flag1 c = true ∧ r = sem1 j) ∨ (flag2 c = true ∧ r = sem2 N j).
Proof.
  unfold flagged. intros H.
  destruct (flag1 c), (flag2 c); simpl in *;
    repeat case_bool_decide; simpl in *; try lia; auto.
Qed.

Lemma flag_has1 c : flag1 c = true → has1 c = true.
Proof. by destruct c. Qed.

Lemma flag_has2 c : flag2 c = true → has2 c = true.
Proof. by destruct c. Qed.

Lemma marks_holds s w r : marks N s w r → holds_lock N s w r.
Proof.
  intros (p & Hp & [[H ->]|[H ->]]); exists p; (split; [done|]).
  - left. split; [by apply flag_has1|done].
  - right. split; [by apply flag_has2|done].
Qed.

Lemma marks_flagged s w r :
  marks N s w r → ∃ p, procs s !! w = Some p ∧ 1 ≤ flagged N w (p_pc p) r.
Proof.
  intros (p & Hp & [[H ->]|[H ->]]); exists p; (split; [done|]); unfold flagged;
    rewrite H; simpl.
  - rewrite bool_decide_eq_true_2 by done. simpl.
    destruct (flag2 (p_pc p) && bool_decide (sem1 w = sem2 N w)); simpl; lia.
  - rewrite (bool_decide_eq_true_2 (sem2 N w = sem2 N w)) by done. simpl.
    destruct (flag1 (p_pc p) && bool_decide (sem2 N w = sem1 w)); simpl; lia.
Qed.

Lemma flag_value_live s r :
  live N s → (r < N)%nat →
  (rd (shm s) r = 0 ∨ rd (shm s) r = 1) ∧
  (rd (shm s) r = 1 ↔ ∃ w, marks N s w r).
Proof.
  intros L Hr.
  pose proof (live_flag N s L r Hr) as Hf.
  pose proof (live_sum N s L r ltac:(lia)) as Hs.
  rewrite (sem_init_lock N HN r Hr) in Hs.
  pose proof (live_pos N s L r) as Hpos.
  assert (0 ≤ isum (λ w p, flagged N w (p_pc p) r) 0 (procs s)) as Hnn.
  { apply isum_nonneg. intros j p _. apply (flagged_nonneg N HN). }
  assert (isum (λ w p, flagged N w (p_pc p) r) 0 (procs s)
          ≤ isum (λ w p, held N w (p_pc p) r) 0 (procs s)) as Hle.
  { apply isum_le. intros j p _. apply (flagged_le_held N HN). }
  split; [lia|]. split.
  - intros H1. rewrite Hf in H1.
    destruct (isum_pos_exists (λ w p, flagged N w (p_pc p) r) 0 (procs s))
      as (j & p & Hp & Hpos'); [lia|].
    simpl in Hpos'. exists j, p. split; [done|]. by apply flagged_pos.
  - intros (w & Hw). destruct (marks_flagged s w r Hw) as (p & Hp & H1).
    pose proof (isum_ge (λ w p, flagged N w (p_pc p) r) (procs s) w p
                  (λ j q, flagged_nonneg N HN j (p_pc q) r) Hp) as Hge.
    simpl in Hge. lia.
Qed.

(** *** The adjustments the kernel keeps for [SEM_UNDO] *)

Lemma held_le_one i c k : (i < N)%nat → held N i c k ≤ 1.
Proof.
  intros Hi. pose proof (sem2_lt N HN i Hi). pose proof (sem2_ne N HN i Hi).
  unfold held, gate, sem1 in *.
  destruct (inside c), (has1 c), (has2 c); simpl;
    repeat case_bool_decide; simpl; lia.
Qed.

Lemma held_dead i c k : is_alive (mkProc c 0 [] false false) = false → held N i c k = 0.
Proof. unfold is_alive, held. simpl. by destruct c. Qed.

Lemma undo_nothing (l adj : list Z) :
  (∀ k, rd adj k = 0) → imap (λ k v, v + rd adj k) l = l.
Proof.
  intros H. apply list_eq. intros k. rewrite list_lookup_imap.
  destruct (l !! k) as [v|]; simpl; [|done]. rewrite H. f_equal. lia.
Qed.

(** *** Files only grow *)

Lemma open_append_dom name m f :
  is_Some (m !! f) → is_Some ((open_append name m).2 !! f).
Proof.
  intros H. unfold open_append. case_decide; [done|].
  destruct (m !! name) as [[|ls]|] eqn:E; simpl; try done.
  destruct (decide (name = f)) as [->|Hne].
  - rewrite E in H. by destruct H.
  - by rewrite lookup_insert_ne.
Qed.

Lemma append_line_dom good name l m f :
  is_Some (m !! f) → is_Some (append_line good name l m !! f).
Proof.
  intros H. unfold append_line. destruct good; [|done].
  destruct (m !! name) as [[|ls]|] eqn:E; simpl; try done.
  destruct (decide (name = f)) as [->|Hne].
  - rewrite lookup_insert_eq. eauto.
  - by rewrite lookup_insert_ne.
Qed.

Lemma append_line_prefix good name l m f :
  content m f `prefix_of` content (append_line good name l m) f.
Proof.
  unfold append_line. destruct good; [|done].
  destruct (m !! name) as [[|ls]|] eqn:E; simpl; try done.
  unfold content. destruct (decide (name = f)) as [->|Hne].
  - rewrite lookup_insert_eq, E. by apply prefix_app_r.
  - by rewrite lookup_insert_ne.
Qed.

Lemma step_files_grow c s s' f :
  inv N s → step N c s = Some s' →
  content (fs s) f `prefix_of` content (fs s') f ∧
  (fs s' !! f = Some Unwritable ↔ fs s !! f = Some Unwritable) ∧
  (is_Some (fs s !! f) → is_Some (fs s' !! f)).
Proof.
  intros I Hstep. pose proof (inv_step N HN s s' c I Hstep) as I'.
  destruct c as [i|r q]; simpl in Hstep.
  - destruct (step_child_files N HN i s s' Hstep)
      as (p & p' & a & Hp & Hprocs & Hhist & Hcase).
    assert (procs s' !! i = Some p') as Hp'.
    { rewrite Hprocs. apply list_lookup_insert_eq. by eapply lookup_lt_Some. }
    destruct Hcase as [Hf|[Hf|Hcase]];
      [by destruct (never_fails_inv N HN s' i p' I' Hp')
      |by destruct (never_fails_inv N HN s i p I Hp)|].
    destruct (p_pc p);
      try (destruct Hcase as (-> & _); done);
      try (destruct Hcase as (_ & _ & -> & _);
           split; [by rewrite (open_append_content N HN)|];
           split; [apply (open_append_status N HN)|apply open_append_dom]);
      try (destruct Hcase as (l & _ & -> & _);
           split; [apply append_line_prefix|];
           split; [apply (append_line_status N HN)|apply append_line_dom]).
  - destruct (step_parent_spec N HN r q s s' Hstep) as (_ & _ & ->). done.
Qed.

Lemma run_files_grow cs s s' f :
  inv N s → run N cs s = Some s' →
  content (fs s) f `prefix_of` content (fs s') f ∧
  (fs s' !! f = Some Unwritable ↔ fs s !! f = Some Unwritable) ∧
  (is_Some (fs s !! f) → is_Some (fs s' !! f)).
Proof.
  revert s. induction cs as [|c cs IH]; intros s I Hrun; simpl in Hrun.
  - by injection Hrun as <-.
  - destruct (step N c s) as [s1|] eqn:Hstep; [|done]. simpl in Hrun.
    destruct (step_files_grow c s s1 f I Hstep) as (H1 & H2 & H3).
    destruct (IH s1 (inv_step N HN s s1 c I Hstep) Hrun) as (H1' & H2' & H3').
    split; [by etrans|]. split; [by rewrite H2'|]. auto.
Qed.

(** *** After [main] has left through [exit(-1)] *)

Lemma failed_stays c s s' :
  parent s = PDone 255 → step N c s = Some s' → parent s' = PDone 255.
Proof.
  intros HP Hstep. destruct c as [i|r q]; simpl in Hstep.
  - destruct (step_child_spec N HN i s s' Hstep)
      as (p & p' & a & _ & _ & _ & Hpar & _). by rewrite Hpar.
  - unfold step_parent in Hstep. by rewrite HP in Hstep.
Qed.

Lemma run_failed_stays cs s s' :
  parent s = PDone 255 → run N cs s = Some s' → parent s' = PDone 255.
Proof.
  revert s. induction cs as [|c cs IH]; intros s HP Hrun; simpl in Hrun.
  - by injection Hrun as <-.
  - destruct (step N c s) as [s1|] eqn:Hstep; [|done]. simpl in Hrun.
    apply (IH s1); [|done]. by eapply failed_stays.
Qed.

(** *** The console and the history *)

Lemma printed_snoc h i a :
  printed (h ++ [(i, a)])
  = printed h ++ match a with Print m => [m] | _ => [] end.
Proof.
  unfold printed. rewrite omap_app. simpl. by destruct a.
Qed.

Lemma step_child_says i s s' :
  step_child N i s = Some s' →
  ∃ p a, procs s !! i = Some p ∧ hist s' = hist s ++ [(i, a)] ∧
         (p_pc p = Fail ∨
          (out s' = out s ++ match a with Print m => [m] | _ => [] end ∧
           ∀ m, a = Print m → quiet m = true)).
Proof.
  intros H. unfold step_child in H.
  destruct (procs s !! i) as [p|] eqn:Hp; [|done]. simpl in H. exists p.
  destruct (p_pc p) eqn:Hc; try done;
    unfold acquire_resource, release_resource, advance, do_exit in H;
    repeat (match type of H with
            | context [sems s !! ?k] => destruct (sems s !! k)
            | context [decide ?P] => destruct (decide P)
            end);
    try done; injection H as <-; simpl;
    eexists; (split; [done|]); (split; [reflexivity|]); simpl;
    rewrite ?app_nil_r; first [by left|right; split; [done|]; by intros ? [= <-]].
Qed.

Lemma boot_cases shmget fs0 :
  parent (boot N shmget fs0) = PFork 0 ∨ boot_failed (boot N shmget fs0).
Proof.
  destruct (boot_loop_shape N HN shmget N 0 (fresh N fs0)) as (Hp & Hh & _ & [H|H]);
    [by left|right]. by repeat split.
Qed.

Lemma out_printed_step c s s' :
  inv N s → step N c s = Some s' →
  filter (λ m, quiet m = true) (out s) = printed (hist s) →
  filter (λ m, quiet m = true) (out s') = printed (hist s').
Proof.
  intros I Hstep H. destruct c as [i|r q]; simpl in Hstep.
  - destruct (step_child_says i s s' Hstep) as (p & a & Hp & Hhist & [Hf|[Hout Hq]]);
      [by destruct (never_fails_inv N HN s i p I Hp)|].
    rewrite Hhist, Hout, printed_snoc, filter_app, H. f_equal.
    destruct a; try done. rewrite filter_cons, filter_nil.
    by rewrite decide_True by (by apply Hq).
  - destruct (step_parent_spec N HN r q s s' Hstep) as (Hhist & _).
    rewrite Hhist.
    destruct (step_parent_out N HN r q s s' I Hstep) as [[E _]|[E _]]; rewrite E; [done|].
    by rewrite filter_app, filter_cons, filter_nil, decide_False, app_nil_r.
Qed.

Lemma reachable_out_printed shmget fs0 s :
  reachable N (boot N shmget fs0) s →
  filter (λ m, quiet m = true) (out s) = printed (hist s).
Proof.
  induction 1 as [|s c s' R IH Hstep].
  - destruct (boot_loop_shape N HN shmget N 0 (fresh N fs0)) as (_ & Hh & _).
    unfold boot. rewrite Hh. simpl.
    by destruct (boot_loop_out N HN shmget N 0 (fresh N fs0) eq_refl) as [[-> _]|[-> _]].
  - eapply out_printed_step; [|done..]. by eapply (reachable_inv N HN).
Qed.

Lemma flag_value_inv s r :
  live N s ∨ after N s → (r < N)%nat →
  (rd (shm s) r = 0 ∨ rd (shm s) r = 1) ∧
  (rd (shm s) r = 1 ↔ ∃ w, marks N s w r).
Proof.
  intros [L|A] Hr; [by apply flag_value_live|].
  rewrite (after_shm N s A r Hr). split; [by left|]. split; [done|].
  intros (w & p & Hp & Hm). destruct (after_procs N s A) as [_ Hall].
  rewrite (Hall p) in Hm by (by eapply list_elem_of_lookup_2).
  by destruct Hm as [[? _]|[? _]].
Qed.

Lemma marks_alive s w r :
  marks N s w r → ∃ p, p ∈ procs s ∧ is_alive p = true.
Proof.
  intros (p & Hp & Hm). exists p. split; [by eapply list_elem_of_lookup_2|].
  unfold is_alive. by destruct Hm as [[H _]|[H _]]; destruct (p_pc p).
Qed.

(** *** Who is writing a file *)

Lemma inv_lookup_lt s i p : inv N s → procs s !! i = Some p → (i < N)%nat.
Proof.
  intros [L|[A|B]] Hp.
  - by eapply (lookup_lt_procs N HN).
  - destruct (after_procs N s A) as [<- _]. by eapply lookup_lt_Some.
  - destruct B as (_ & Hprocs & _). by rewrite Hprocs in Hp.
Qed.

Lemma step_child_writes i s s' :
  step_child N i s = Some s' →
  ∃ p p' a,
    procs s !! i = Some p ∧ procs s' = <[i := p']> (procs s) ∧
    hist s' = hist s ++ [(i, a)] ∧ p_pid p' = p_pid p ∧
    match p_pc p with
    | Wr1Used => p_pc p' = Sleep1 ∧
                 a = Append (db1filename i) (BeingUsedBy (systemName i) (p_pid p))
    | Wr2Used => p_pc p' = Sleep2 ∧
                 a = Append (db2filename i) (BeingUsedBy (systemName i) (p_pid p))
    | Wr1Free => p_pc p' = Wr2Free ∧
                 a = Append (db1filename i) (FreeFrom (systemName i) (p_pid p))
    | Wr2Free => p_pc p' = Close1 ∧
                 a = Append (db2filename i) (FreeFrom (systemName i) (p_pid p))
    | _ => (∀ f l, a ≠ Append f l) ∧
           writing1 (p_pc p') = writing1 (p_pc p) ∧
           writing2 (p_pc p') = writing2 (p_pc p)
    end.
Proof.
  intros H. unfold step_child in H.
  destruct (procs s !! i) as [p|] eqn:Hp; [|done]. simpl in H. exists p.
  destruct (p_pc p) eqn:Hc; try done;
    unfold acquire_resource, release_resource, advance, do_exit in H;
    repeat (match type of H with
            | context [sems s !! ?k] => destruct (sems s !! k)
            | context [decide ?P] => destruct (decide P)
            end);
    try done; injection H as <-; simpl;
    eexists _, _; (split; [done|]); (split; [reflexivity|]);
    (split; [reflexivity|]); simpl; rewrite ?Hc; done.
Qed.

Lemma pid_of_step c s s' w :
  step N c s = Some s' → (w < length (procs s))%nat → pid_of s' w = pid_of s w.
Proof.
  intros Hstep Hw. unfold pid_of. destruct c as [i|r q]; simpl in Hstep.
  - destruct (step_child_spec N HN i s s' Hstep)
      as (p & p' & a & Hp & Hprocs & _ & _ & _ & _ & Hpid & _).
    rewrite Hprocs. destruct (decide (w = i)) as [->|Hne].
    + rewrite list_lookup_insert_eq by done. rewrite Hp. simpl. by rewrite Hpid.
    + by rewrite list_lookup_insert_ne.
  - destruct (step_parent_spec N HN r q s s' Hstep)
      as (_ & [-> |[[pid ->]|(p & st & Hq & Hc & ->)]] & _); [done| |].
    + by rewrite lookup_app_l.
    + destruct (decide (w = q)) as [->|Hne].
      * rewrite list_lookup_insert_eq by done. by rewrite Hq.
      * by rewrite list_lookup_insert_ne.
Qed.

Lemma step_procs_length c s s' :
  step N c s = Some s' → (length (procs s) ≤ length (procs s'))%nat.
Proof.
  intros Hstep. destruct c as [i|r q]; simpl in Hstep.
  - destruct (step_child_spec N HN i s s' Hstep) as (p & p' & a & _ & -> & _).
    by rewrite length_insert.
  - destruct (step_parent_spec N HN r q s s' Hstep)
      as (_ & [-> |[[pid ->]|(p & st & Hq & Hc & ->)]] & _); [done| |].
    + rewrite length_app. lia.
    + by rewrite length_insert.
Qed.

Lemma writing_at s f i p :
  procs s !! i = Some p →
  writing s f i ↔ (writing1 (p_pc p) = true ∧ f = db1filename i) ∨
                  (writing2 (p_pc p) = true ∧ f = db2filename i).
Proof.
  intros Hp. split.
  - intros (p' & Hp' & H). rewrite Hp in Hp'. by injection Hp' as <-.
  - intros H. by exists p.
Qed.

Lemma writing_other s s' i p' f w :
  procs s' = <[i := p']> (procs s) → w ≠ i → writing s' f w ↔ writing s f w.
Proof. intros E Hne. unfold writing. by rewrite E, list_lookup_insert_ne. Qed.

Lemma step_parent_writing r q s s' f w :
  step_parent N r q s = Some s' → writing s' f w ↔ writing s f w.
Proof.
  intros Hstep.
  destruct (step_parent_spec N HN r q s s' Hstep)
    as (_ & [E|[[pid E]|(p & st & Hq & Hc & E)]] & _).
  - unfold writing. by rewrite E.
  - split.
    + intros (p & Hp & H). rewrite E in Hp.
      apply lookup_app_Some in Hp as [Hp|[_ Hp]]; [by exists p|].
      apply list_lookup_singleton_Some in Hp as [_ <-].
      by destruct H as [[? _]|[? _]].
    + intros (p & Hp & H). exists p. split; [|done].
      rewrite E. by apply lookup_app_l_Some.
  - destruct (decide (w = q)) as [->|Hne]; [|by eapply writing_other].
    rewrite (writing_at s f q p Hq), Hc.
    rewrite (writing_at s' f q (at_pc (Reaped st) p)).
    + simpl. split; intros [[? _]|[? _]]; done.
    + rewrite E. apply list_lookup_insert_eq. by eapply lookup_lt_Some.
Qed.

Lemma writing1_has c : writing1 c = true → has1 c = true.
Proof. by destruct c. Qed.

Lemma writing2_has c : writing2 c = true → has2 c = true.
Proof. by destruct c. Qed.

Lemma blocks_pids s s' ws o :
  (∀ w, (w < length (procs s))%nat → pid_of s' w = pid_of s w) →
  (∀ w, w ∈ ws → (w < length (procs s))%nat) →
  (∀ w, o = Some w → (w < length (procs s))%nat) →
  blocks s' ws o = blocks s ws o.
Proof.
  intros Hpid Hws Ho. unfold blocks. f_equal.
  - induction ws as [|w ws IH]; [done|]. rewrite !bind_cons.
    rewrite IH by (intros w' Hw'; apply Hws; by right).
    unfold used_by, free_from. rewrite Hpid by (apply Hws; by left). done.
  - destruct o as [w|]; [|done]. unfold used_by. by rewrite Hpid by (by apply Ho).
Qed.

(** *** The exact number of steps *)

Lemma step_child_exact i s s' :
  step_child N i s = Some s' →
  ∃ p p', procs s !! i = Some p ∧ procs s' = <[i := p']> (procs s) ∧
          parent s' = parent s ∧
          (p_pc p = Fail ∨ p_pc p' = Fail ∨
           child_left (p_pc p) = S (child_left (p_pc p'))).
Proof.
  intros H. unfold step_child in H.
  destruct (procs s !! i) as [p|] eqn:Hp; [|done]. simpl in H. exists p.
  destruct (p_pc p) eqn:Hc; try done;
    unfold acquire_resource, release_resource, advance, do_exit in H;
    repeat (match type of H with
            | context [sems s !! ?k] => destruct (sems s !! k)
            | context [decide ?P] => destruct (decide P)
            end);
    try done; injection H as <-; simpl;
    eexists; (split; [done|]); (split; [reflexivity|]); (split; [reflexivity|]);
    simpl; first [by left|by right; left|by right; right].
Qed.

Lemma step_parent_exact r q s s' :
  step_parent N r q s = Some s' → parent s' ≠ PDone 255 →
  steps_left N s = S (steps_left N s').
Proof.
  intros H Hne. unfold step_parent in H. unfold steps_left.
  destruct (parent s) as [j| | | |st] eqn:Hpar; try done.
  - case_decide as Hj; [|injection H as <-; simpl; lia].
    case_decide; [injection H as <-; by destruct Hne|].
    case_decide; [done|]. injection H as <-. simpl.
    rewrite sum_list_with_app. simpl.
    replace (N - j)%nat with (S (N - S j)) by lia. lia.
  - destruct (existsb is_zombie (procs s)).
    + destruct (procs s !! q) as [p|] eqn:Hq; [|done]. simpl in H.
      destruct (p_pc p) eqn:Hc; try done. injection H as <-. simpl.
      pose proof (sum_list_with_insert N HN (λ p, child_left (p_pc p)) (procs s) q p
                    (at_pc (Reaped status) p) Hq) as Hs.
      simpl in Hs. rewrite Hc in Hs. simpl in Hs. rewrite Hpar. simpl. lia.
    + destruct (existsb is_alive (procs s)); [done|]. injection H as <-. simpl. lia.
  - injection H as <-. simpl. rewrite cleanup_procs. lia.
  - injection H as <-. simpl. lia.
Qed.

Lemma step_exact c s s' :
  inv N s → step N c s = Some s' → parent s' ≠ PDone 255 →
  steps_left N s = S (steps_left N s').
Proof.
  intros I Hstep Hne. pose proof (inv_step N HN s s' c I Hstep) as I'.
  destruct c as [i|r q]; simpl in Hstep; [|by eapply step_parent_exact].
  destruct (step_child_exact i s s' Hstep) as (p & p' & Hp & Hprocs & Hpar & Hcase).
  assert (procs s' !! i = Some p') as Hp'.
  { rewrite Hprocs. apply list_lookup_insert_eq. by eapply lookup_lt_Some. }
  destruct Hcase as [Hf|[Hf|Hcase]];
    [by destruct (never_fails_inv N HN s i p I Hp)
    |by destruct (never_fails_inv N HN s' i p' I' Hp')|].
  unfold steps_left. rewrite Hpar, Hprocs.
  pose proof (sum_list_with_insert N HN (λ p, child_left (p_pc p)) (procs s) i p p' Hp).
  simpl in *. lia.
Qed.

Lemma run_exact cs s s' :
  inv N s → run N cs s = Some s' → parent s' ≠ PDone 255 →
  steps_left N s = (steps_left N s' + length cs)%nat.
Proof.
  revert s. induction cs as [|c cs IH]; intros s I Hrun Hne; simpl in Hrun.
  - injection Hrun as <-. simpl. lia.
  - destruct (step N c s) as [s1|] eqn:Hstep; [|done]. simpl in Hrun.
    assert (parent s1 ≠ PDone 255) as Hne1.
    { intros HP. by destruct (Hne (run_failed_stays cs s1 s' HP Hrun)). }
    rewrite (step_exact c s s1 I Hstep Hne1).
    rewrite (IH s1 (inv_step N HN s s1 c I Hstep) Hrun Hne). simpl. lia.
Qed.

Lemma all_reaped_left (l : list proc) :
  (∀ p, p ∈ l → p_pc p = Reaped 0) → sum_list_with (λ p, child_left (p_pc p)) l = 0%nat.
Proof.
  induction l as [|p l IH]; intros H; simpl; [done|].
  rewrite (H p) by (by left). rewrite IH; [done|]. intros p' Hp'. apply H. by right.
Qed.

(** *** How many children can hold both their locks *)

Lemma at_work_holds s w :
  at_work s w = true → holds_lock N s w (sem1 w) ∧ holds_lock N s w (sem2 N w).
Proof.
  unfold at_work. destruct (procs s !! w) as [p|] eqn:Hp; [|done].
  intros [H1 H2]%andb_true_iff. split; exists p; (split; [done|]); [by left|by right].
Qed.

Lemma length_pairs (f : nat → nat) (l : list nat) :
  length (l ≫= λ w, [w; f w]) = (2 * length l)%nat.
Proof.
  induction l as [|w l IH]; [done|].
  rewrite bind_cons, length_app, IH. simpl. lia.
Qed.

Lemma workers_bound s : inv N s → (2 * length (workers s) ≤ N)%nat.
Proof.
  intros I.
  assert (∀ w, w ∈ workers s → at_work s w = true ∧ (w < N)%nat) as Hin.
  { intros w [Hw Hs]%list_elem_of_filter. split; [done|].
    unfold at_work in Hw. destruct (procs s !! w) as [p|] eqn:Hp; [|done].
    by eapply inv_lookup_lt. }
  assert (NoDup (workers s ≫= λ w, [w; sem2 N w])) as Hnd.
  { apply NoDup_bind.
    - intros w1 w2 y H1 H2 Hy1 Hy2.
      destruct (Hin w1 H1) as [[A1 B1]%at_work_holds _].
      destruct (Hin w2 H2) as [[A2 B2]%at_work_holds _].
      apply (exclusive_holder N HN s w1 w2 y I).
      + apply elem_of_cons in Hy1 as [->|Hy1]; [done|].
        by apply list_elem_of_singleton in Hy1 as ->.
      + apply elem_of_cons in Hy2 as [->|Hy2]; [done|].
        by apply list_elem_of_singleton in Hy2 as ->.
    - intros w Hw. destruct (Hin w Hw) as [_ Hlt].
      pose proof (sem2_ne N HN w Hlt). unfold sem1 in *.
      apply NoDup_cons. split; [|apply NoDup_singleton].
      rewrite list_elem_of_singleton. congruence.
    - apply NoDup_filter, NoDup_seq. }
  assert (length (workers s ≫= λ w, [w; sem2 N w]) ≤ length (seq 0 N))%nat as Hle.
  { apply submseteq_length, NoDup_submseteq; [done|].
    intros y (w & Hy & Hw)%list_elem_of_bind. destruct (Hin w Hw) as [_ Hlt].
    apply elem_of_seq.
    apply elem_of_cons in Hy as [->|Hy]; [lia|].
    apply list_elem_of_singleton in Hy as ->.
    pose proof (sem2_lt N HN w Hlt). lia. }
  by rewrite length_pairs, length_seq in Hle.
Qed.

(** *** What holds of every schedule from every state *)

Lemma step_child_out i s s' : step_child N i s = Some s' → out s `prefix_of` out s'.
Proof.
  intros H. unfold step_child in H.
  destruct (procs s !! i) as [p|] eqn:Hp; [|done]. simpl in H.
  destruct (p_pc p) eqn:Hc; try done;
    unfold acquire_resource, release_resource, advance, do_exit in H;
    repeat (match type of H with
            | context [sems s !! ?k] => destruct (sems s !! k)
            | context [decide ?P] => destruct (decide P)
            end);
    try done; injection H as <-; simpl;
    first [reflexivity|by apply prefix_app_r].
Qed.

(** [main] terminates with status 0 at line 147 and with status 255 at line
    108, and nowhere else. *)
Lemma step_parent_status r q s s' st :
  step_parent N r q s = Some s' → parent s' = PDone st →
  (st = 0 ∧ parent s = PExit0) ∨
  (st = 255 ∧ r < 0 ∧ out s' = out s ++ [MsgForkFailed]).
Proof.
  intros H HP. unfold step_parent in H.
  destruct (parent s) as [j| | | |st'] eqn:Hpar; try done.
  - repeat case_decide; try done; injection H as <-; simpl in HP; try done.
    right. injection HP as <-. by repeat split.
  - destruct (existsb is_zombie (procs s)).
    + destruct (procs s !! q) as [p|] eqn:Hq; [|done]. simpl in H.
      destruct (p_pc p) eqn:Hc; try done. injection H as <-. simpl in HP. congruence.
    + destruct (existsb is_alive (procs s)); [done|]. by injection H as <-.
  - by injection H as <-.
  - injection H as <-. simpl in HP. injection HP as <-. by left.
Qed.

Lemma step_parent_out_grows r q s s' :
  step_parent N r q s = Some s' → out s `prefix_of` out s'.
Proof.
  intros H. unfold step_parent in H.
  destruct (parent s) as [j| | | |st'] eqn:Hpar; try done.
  - repeat case_decide; try done; injection H as <-; simpl;
      first [reflexivity|by apply prefix_app_r].
  - destruct (existsb is_zombie (procs s)).
    + destruct (procs s !! q) as [p|] eqn:Hq; [|done]. simpl in H.
      destruct (p_pc p) eqn:Hc; try done. by injection H as <-.
    + destruct (existsb is_alive (procs s)); [done|]. by injection H as <-.
  - injection H as <-. simpl. apply cleanup_frame.
  - by injection H as <-.
Qed.

Lemma run_out_grows cs s s' : run N cs s = Some s' → out s `prefix_of` out s'.
Proof.
  revert s. induction cs as [|c cs IH]; intros s Hrun; simpl in Hrun.
  - by injection Hrun as <-.
  - destruct (step N c s) as [s1|] eqn:Hstep; [|done]. simpl in Hrun.
    etrans; [|by apply IH]. destruct c as [i|r q]; simpl in Hstep.
    + by eapply step_child_out.
    + by eapply step_parent_out_grows.
Qed.

(** Whatever the children do, [main] ends with status 0, or with 255 after a
    failed [fork] that it has reported. *)
Lemma run_status cs s s' st :
  run N cs s = Some s' → parent s' = PDone st →
  parent s = PDone st ∨ st = 0 ∨ (st = 255 ∧ MsgForkFailed ∈ out s').
Proof.
  revert s. induction cs as [|c cs IH]; intros s Hrun HP; simpl in Hrun.
  - injection Hrun as <-. by left.
  - destruct (step N c s) as [s1|] eqn:Hstep; [|done]. simpl in Hrun.
    destruct (IH s1 Hrun HP) as [H1|H]; [|by right].
    destruct c as [i|r q]; simpl in Hstep.
    + left. destruct (step_child_spec N HN i s s1 Hstep)
        as (p & p' & a & _ & _ & _ & Hpar & _). by rewrite <- Hpar.
    + right. destruct (step_parent_status r q s s1 st Hstep H1)
        as [[-> _]|(-> & _ & Hout)]; [by left|right].
      split; [done|]. eapply elem_of_prefix; [|by apply (run_out_grows cs s1)].
      rewrite Hout. apply elem_of_app. right. by left.
Qed.

(** A process is changed only by its own steps and by the [wait] that
    collects it. *)
Lemma step_frame c s s' j pj :
  step N c s = Some s' → procs s !! j = Some pj →
  c ≠ Child j → (∀ r, c ≠ Parent r j) → procs s' !! j = Some pj.
Proof.
  intros Hstep Hj Hc Hp. destruct c as [i|r q]; simpl in Hstep.
  - destruct (step_child_spec N HN i s s' Hstep) as (p & p' & a & _ & -> & _).
    rewrite list_lookup_insert_ne; [done|]. intros ->. done.
  - destruct (step_parent_spec N HN r q s s' Hstep)
      as (_ & [-> |[[pid ->]|(p & st & Hq & Hst & ->)]] & _); [done| |].
    + by apply lookup_app_l_Some.
    + rewrite list_lookup_insert_ne; [done|]. intros ->. by destruct (Hp r).
Qed.

Lemma run_frame cs s s' j pj :
  run N cs s = Some s' → procs s !! j = Some pj →
  Child j ∉ cs → (∀ r, Parent r j ∉ cs) → procs s' !! j = Some pj.
Proof.
  revert s. induction cs as [|c cs IH]; intros s Hrun Hj Hc Hp; simpl in Hrun.
  - by injection Hrun as <-.
  - destruct (step N c s) as [s1|] eqn:Hstep; [|done]. simpl in Hrun.
    apply (IH s1); [done| | |].
    + apply (step_frame c s s1); [done|done| |].
      * intros ->. apply Hc. by left.
      * intros r ->. apply (Hp r). by left.
    + intros H. apply Hc. by right.
    + intros r H. apply (Hp r). by right.
Qed.

(** [wait(NULL)] collects a terminated child whatever its status. *)
Lemma wait_collects r q s p st :
  parent s = PWait → procs s !! q = Some p → p_pc p = Zombie st →
  step_parent N r q s = Some (with_procs (<[q := at_pc (Reaped st) p]> (procs s)) s).
Proof.
  intros HP Hq Hc. unfold step_parent. rewrite HP.
  assert (existsb is_zombie (procs s) = true) as ->.
  { apply existsb_exists. exists p. split.
    - apply list_elem_of_In. by eapply list_elem_of_lookup_2.
    - unfold is_zombie. by rewrite Hc. }
  rewrite Hq. simpl. by rewrite Hc.
Qed.

End More.

(** * The properties of the program *)

Lemma PROC_COUNT_ring : (2 ≤ PROC_COUNT)%nat.
Proof. unfold PROC_COUNT. lia. Qed.

(** The instance is the source: line 159, the gate of lines 102 and 168. *)
Lemma sem2_source i : sem2 PROC_COUNT i = if decide (i + 1 = 5)%nat then 0%nat else (i + 1)%nat.
Proof. reflexivity. Qed.

Lemma gate_source : gate PROC_COUNT = 5%nat ∧ gate_slots PROC_COUNT = 4.
Proof. split; reflexivity. Qed.

(** The gate at work: with four children inside, the fifth blocks at line 168
    until one of the four has left. *)
Example fifth_child_waits :
  run PROC_COUNT (forks ++ [Child 0; Child 1; Child 2; Child 3; Child 4])
    (boot PROC_COUNT ids ∅) = None ∧
  (p_pc <$> procs (outcome ∅ (forks ++ whole 0 ++ [Child 1; Child 2; Child 3; Child 4])))
  = [Zombie 0; AcqSem1; AcqSem1; AcqSem1; AcqSem1].
Proof. split; vm_compute; reflexivity. Qed.

(** A lock at work: child 1 waits at line 169 for resource 1 while child 0
    holds it, and gets it after line 248 of child 0. *)
Example neighbour_waits :
  run PROC_COUNT (forks ++ replicate 3 (Child 0) ++ [Child 1; Child 1])
    (boot PROC_COUNT ids ∅) = None ∧
  (p_pc <$> procs (outcome ∅ (forks ++ replicate 24 (Child 0) ++ [Child 1; Child 1])))
  = [Freed2; AcqSem2; AcqGate; AcqGate; AcqGate].
Proof. split; vm_compute; reflexivity. Qed.

(** C1. Deadlock freedom.  For every ring size [N >= 2] (the program is
    [N = 5]): [main] gives the gate the value [N - 1]; every run from the
    start of [main] has at most [29 * N + 4] steps; at most [N - 1] children
    are ever inside the gate, so the circular wait, all [N] children holding
    their first lock and waiting for the second, is never reached; a state
    that is not terminated can always step, so no run hangs, and every run
    can be continued to a terminated state; in a terminated state every
    forked child has left through [exit(0)], and when the parent has left
    through [exit(0)] all [N] children were forked and collected. *)
Theorem deadlock_freedom (N : nat) (shmget : nat → Z) (fs0 : gmap string file)
  (cs : list choice) (s : state) :
  (2 ≤ N)%nat →
  run N cs (boot N shmget fs0) = Some s →
  (parent (boot N shmget fs0) = PFork 0 →
   rd (sems (boot N shmget fs0)) (gate N) = Z.of_nat N - 1) ∧
  (length cs ≤ 29 * N + 4)%nat ∧
  (admitted s ≤ N - 1)%nat ∧
  ¬ (length (procs s) = N ∧ ∀ p, p ∈ procs s → p_pc p = AcqSem2) ∧
  (terminated s ∨ ∃ c s', step N c s = Some s') ∧
  (∃ cs' s', run N (cs ++ cs') (boot N shmget fs0) = Some s' ∧ terminated s') ∧
  (terminated s → ∀ p, p ∈ procs s → p_pc p = Zombie 0 ∨ p_pc p = Reaped 0) ∧
  (parent s = PDone 0 →
   length (procs s) = N ∧ ∀ p, p ∈ procs s → p_pc p = Reaped 0).
Proof.
  intros HN Hrun.
  pose proof (run_reachable N HN _ _ _ Hrun) as R.
  pose proof (reachable_inv N HN shmget fs0 s R) as I.
  split.
  { intros HP. rewrite (boot_sems N HN shmget fs0 (gate N) HP) by (unfold gate; lia).
    apply (sem_init_gate N HN). }
  split; [by eapply (run_bound N HN)|].
  split; [by apply (gate_bound N HN)|].
  split; [by apply (no_circular_wait N HN)|].
  split; [by apply (progress_inv N HN)|].
  split.
  { destruct (completes N HN s I) as (cs' & s' & Hr & T).
    exists cs', s'. rewrite (run_app N HN), Hrun. simpl. done. }
  split; [intros T p Hp; by eapply (terminated_status N HN)|].
  intros HP. by destruct (parent_done_after N HN s I HP).
Qed.

Lemma deadlock_freedom_witness :
  let s := outcome ∅ sequential in
  (2 ≤ 5)%nat ∧
  run 5 sequential (boot 5 ids ∅) = Some s ∧
  (length sequential ≤ 29 * 5 + 4)%nat ∧
  (admitted s ≤ 5 - 1)%nat ∧
  (terminated s ∨ ∃ c s', step 5 c s = Some s') ∧
  (terminated s → ∀ p, p ∈ procs s → p_pc p = Zombie 0 ∨ p_pc p = Reaped 0) ∧
  (parent s = PDone 0 →
   length (procs s) = 5%nat ∧ ∀ p, p ∈ procs s → p_pc p = Reaped 0).
Proof.
  intros s.
  assert (run 5 sequential (boot 5 ids ∅) = Some s) as Hrun
    by (vm_compute; reflexivity).
  split; [lia|]. split; [exact Hrun|].
  destruct (deadlock_freedom 5 ids ∅ sequential s ltac:(lia) Hrun)
    as (_ & H1 & H2 & _ & H3 & _ & H4 & H5).
  exact (conj H1 (conj H2 (conj H3 (conj H4 H5)))).
Defined.

(** C2. Mutual exclusion.  [main] gives every lock semaphore the value 1, and
    in every state the program reaches, two children that hold the lock of
    the same resource are the same child. *)
Theorem mutual_exclusion (shmget : nat → Z) (fs0 : gmap string file)
  (cs : list choice) (s : state) (r w1 w2 : nat) :
  run PROC_COUNT cs (boot PROC_COUNT shmget fs0) = Some s →
  holds_lock PROC_COUNT s w1 r → holds_lock PROC_COUNT s w2 r →
  w1 = w2 ∧ (r < 5)%nat ∧
  (parent (boot PROC_COUNT shmget fs0) = PFork 0 →
   rd (sems (boot PROC_COUNT shmget fs0)) r = 1).
Proof.
  intros Hrun H1 H2.
  pose proof (run_reachable _ PROC_COUNT_ring _ _ _ Hrun) as R.
  pose proof (reachable_inv _ PROC_COUNT_ring _ _ _ R) as I.
  split; [by apply (exclusive_holder PROC_COUNT PROC_COUNT_ring s w1 w2 r I)|].
  assert (r < 5)%nat as Hr.
  { destruct I as [L|[A|B]].
    - apply (holds_lock_lt _ PROC_COUNT_ring s w1 r L H1).
    - destruct H1 as (p & Hp & H). destruct (after_procs _ _ A) as [_ Hall].
      rewrite (Hall p) in H by (by eapply list_elem_of_lookup_2).
      by destruct H as [[? _]|[? _]].
    - destruct H1 as (p & Hp & _). destruct B as (_ & Hprocs & _).
      by rewrite Hprocs in Hp. }
  split; [exact Hr|].
  intros HP. rewrite (boot_sems _ PROC_COUNT_ring shmget fs0 r HP) by (unfold PROC_COUNT; lia).
  apply (sem_init_lock _ PROC_COUNT_ring). unfold PROC_COUNT. lia.
Qed.

Lemma mutual_exclusion_witness :
  let cs := forks ++ replicate 3 (Child 0) in
  run PROC_COUNT cs (boot PROC_COUNT ids ∅) = Some (outcome ∅ cs) ∧
  holds_lock PROC_COUNT (outcome ∅ cs) 0 1 ∧ 0%nat = 0%nat.
Proof.
  intros cs.
  assert (run PROC_COUNT cs (boot PROC_COUNT ids ∅) = Some (outcome ∅ cs)) as Hrun
    by (vm_compute; reflexivity).
  assert (holds_lock PROC_COUNT (outcome ∅ cs) 0 1) as Hh.
  { eexists. split; [vm_compute; reflexivity|]. right. split; reflexivity. }
  split; [exact Hrun|]. split; [exact Hh|].
  exact (proj1 (mutual_exclusion ids ∅ cs (outcome ∅ cs) 1 0 0 Hrun Hh Hh)).
Defined.

(** C3. Admission bound.  [main] gives the gate, semaphore 5, the value 4, and
    in every state the program reaches, at most four children have passed
    [acquire_resource(semSet, 5)] and not yet returned from
    [release_resource(semSet, 5)]. *)
Theorem admission_bound (shmget : nat → Z) (fs0 : gmap string file)
  (cs : list choice) (s : state) :
  run PROC_COUNT cs (boot PROC_COUNT shmget fs0) = Some s →
  (admitted s ≤ 4)%nat ∧
  (parent (boot PROC_COUNT shmget fs0) = PFork 0 →
   rd (sems (boot PROC_COUNT shmget fs0)) 5 = 4).
Proof.
  intros Hrun.
  pose proof (run_reachable _ PROC_COUNT_ring _ _ _ Hrun) as R.
  pose proof (reachable_inv _ PROC_COUNT_ring _ _ _ R) as I.
  split; [apply (gate_bound PROC_COUNT PROC_COUNT_ring s I)|].
  intros HP. by rewrite (boot_sems _ PROC_COUNT_ring shmget fs0 5 HP) by (unfold PROC_COUNT; lia).
Qed.

Lemma admission_bound_witness :
  let cs := forks ++ [Child 0; Child 1; Child 2; Child 3] in
  run PROC_COUNT cs (boot PROC_COUNT ids ∅) = Some (outcome ∅ cs) ∧
  (admitted (outcome ∅ cs) ≤ 4)%nat.
Proof.
  intros cs.
  assert (run PROC_COUNT cs (boot PROC_COUNT ids ∅) = Some (outcome ∅ cs)) as Hrun
    by (vm_compute; reflexivity).
  split; [exact Hrun|]. exact (proj1 (admission_bound ids ∅ cs (outcome ∅ cs) Hrun)).
Defined.

(** C4. Acquisition order.  In every run the steps of child [i] begin with
    entering the gate, acquiring the lock of resource [i] and acquiring the
    lock of resource [(i + 1) mod 5], in this order with nothing in between,
    and no later step is an acquire; a child at line 174 or later has made
    all three. *)
Theorem acquisition_order (shmget : nat → Z) (fs0 : gmap string file)
  (cs : list choice) (s : state) (i : nat) (p : proc) :
  run PROC_COUNT cs (boot PROC_COUNT shmget fs0) = Some s →
  procs s !! i = Some p →
  length (acts_of i (hist s)) = idx (p_pc p) ∧
  ∃ rest,
    (∀ k, Acquire k ∉ rest) ∧
    acts_of i (hist s)
      `prefix_of` [Acquire 5; Acquire i; Acquire ((i + 1) mod 5)] ++ rest.
Proof.
  intros Hrun Hp.
  assert (i < 5)%nat as Hi.
  { pose proof (run_reachable _ PROC_COUNT_ring _ _ _ Hrun) as R.
    pose proof (reachable_inv _ PROC_COUNT_ring _ _ _ R) as [L|[A|B]].
    - apply (lookup_lt_procs _ PROC_COUNT_ring s i p L Hp).
    - destruct (after_procs _ _ A) as [Hlen _]. apply lookup_lt_Some in Hp.
      unfold PROC_COUNT in Hlen. lia.
    - destruct B as (_ & Hprocs & _). by rewrite Hprocs in Hp. }
  split; [by eapply (child_history_length _ PROC_COUNT_ring)|].
  rewrite (child_history _ PROC_COUNT_ring shmget fs0 cs s i p Hrun Hp).
  exists (drop 3 (script PROC_COUNT i (p_pid p))). split.
  - intros k Hk. simpl in Hk. rewrite !elem_of_cons, elem_of_nil in Hk.
    repeat (destruct Hk as [Hk|Hk]; [discriminate|]). done.
  - assert (((i + 1) mod 5)%nat = sem2 PROC_COUNT i) as ->
      by (symmetry; apply (sem2_mod PROC_COUNT PROC_COUNT_ring i Hi)).
    apply prefix_take.
Qed.

Lemma acquisition_order_witness :
  let cs := forks ++ replicate 5 (Child 2) in
  run PROC_COUNT cs (boot PROC_COUNT ids ∅) = Some (outcome ∅ cs) ∧
  procs (outcome ∅ cs) !! 2%nat = Some (mkProc Chk2 13 [0; 0; 1; 1; 0; 1] false false) ∧
  length (acts_of 2 (hist (outcome ∅ cs))) = 5%nat ∧
  ∃ rest,
    (∀ k, Acquire k ∉ rest) ∧
    acts_of 2 (hist (outcome ∅ cs))
      `prefix_of` [Acquire 5; Acquire 2; Acquire ((2 + 1) mod 5)] ++ rest.
Proof.
  intros cs.
  assert (run PROC_COUNT cs (boot PROC_COUNT ids ∅) = Some (outcome ∅ cs)) as Hrun
    by (vm_compute; reflexivity).
  assert (procs (outcome ∅ cs) !! 2%nat
          = Some (mkProc Chk2 13 [0; 0; 1; 1; 0; 1] false false)) as Hp
    by (vm_compute; reflexivity).
  split; [exact Hrun|]. split; [exact Hp|].
  exact (acquisition_order ids ∅ cs (outcome ∅ cs) 2 _ Hrun Hp).
Defined.

(** C5, as the code has it.  After its last write child [i] closes the first
    file, writes 0 to the busy flag of resource [i], releases the lock of
    resource [i], and only then closes the second file, writes 0 to the busy
    flag of resource [(i + 1) mod 5] and releases that lock; leaving the gate
    comes last, before [exit(0)].  Nothing is released and no flag is cleared
    in the 17 steps before. *)
Theorem release_order (shmget : nat → Z) (fs0 : gmap string file)
  (cs : list choice) (s : state) (i : nat) (p : proc) :
  run PROC_COUNT cs (boot PROC_COUNT shmget fs0) = Some s →
  procs s !! i = Some p →
  length (acts_of i (hist s)) = idx (p_pc p) ∧
  ∃ before,
    length before = 17%nat ∧
    last before = Some (Append (db2filename i) (FreeFrom (systemName i) (p_pid p))) ∧
    (∀ k, Release k ∉ before) ∧ (∀ r, FlagSet r 0 ∉ before) ∧
    acts_of i (hist s)
      `prefix_of`
        before ++
        [ CloseFile (db1filename i); FlagSet i 0; Release i;
          Print (MsgFreed (systemName i) (p_pid p) (db1filename i));
          CloseFile (db2filename i); FlagSet ((i + 1) mod 5) 0;
          Release ((i + 1) mod 5);
          Print (MsgFreed (systemName i) (p_pid p) (db2filename i));
          Release 5; Exit 0 ].
Proof.
  intros Hrun Hp.
  assert (i < 5)%nat as Hi.
  { pose proof (run_reachable _ PROC_COUNT_ring _ _ _ Hrun) as R.
    pose proof (reachable_inv _ PROC_COUNT_ring _ _ _ R) as [L|[A|B]].
    - apply (lookup_lt_procs _ PROC_COUNT_ring s i p L Hp).
    - destruct (after_procs _ _ A) as [Hlen _]. apply lookup_lt_Some in Hp.
      unfold PROC_COUNT in Hlen. lia.
    - destruct B as (_ & Hprocs & _). by rewrite Hprocs in Hp. }
  split; [by eapply (child_history_length _ PROC_COUNT_ring)|].
  rewrite (child_history _ PROC_COUNT_ring shmget fs0 cs s i p Hrun Hp).
  exists (take 17 (script PROC_COUNT i (p_pid p))).
  split; [done|]. split; [done|]. split; [|split].
  - intros k Hk. simpl in Hk. rewrite !elem_of_cons, elem_of_nil in Hk.
    repeat (destruct Hk as [Hk|Hk]; [discriminate|]). done.
  - intros r Hr. simpl in Hr. rewrite !elem_of_cons, elem_of_nil in Hr.
    repeat (destruct Hr as [Hr|Hr]; [discriminate|]). done.
  - assert (((i + 1) mod 5)%nat = sem2 PROC_COUNT i) as ->
      by (symmetry; apply (sem2_mod PROC_COUNT PROC_COUNT_ring i Hi)).
    apply prefix_take.
Qed.

Lemma release_order_witness :
  let cs := forks ++ replicate 20 (Child 0) in
  run PROC_COUNT cs (boot PROC_COUNT ids ∅) = Some (outcome ∅ cs) ∧
  procs (outcome ∅ cs) !! 0%nat = Some (mkProc Freed1 11 [0; 1; 0; 0; 0; 1] false true) ∧
  length (acts_of 0 (hist (outcome ∅ cs))) = 20%nat.
Proof.
  intros cs.
  assert (run PROC_COUNT cs (boot PROC_COUNT ids ∅) = Some (outcome ∅ cs)) as Hrun
    by (vm_compute; reflexivity).
  assert (procs (outcome ∅ cs) !! 0%nat
          = Some (mkProc Freed1 11 [0; 1; 0; 0; 0; 1] false true)) as Hp
    by (vm_compute; reflexivity).
  split; [exact Hrun|]. split; [exact Hp|].
  exact (proj1 (release_order ids ∅ cs (outcome ∅ cs) 0 _ Hrun Hp)).
Defined.

(** C5 as stated fails: child 0 has released the lock of resource 0 while it
    has not yet written 0 to the busy flag of resource 1, which still reads 1. *)
Lemma release_order_counterexample :
  let s := outcome ∅ (forks ++ replicate 20 (Child 0)) in
  run PROC_COUNT (forks ++ replicate 20 (Child 0)) (boot PROC_COUNT ids ∅) = Some s ∧
  rd (shm s) 1 = 1 ∧
  ¬ (Release 0 ∈ acts_of 0 (hist s) → FlagSet 1 0 ∈ acts_of 0 (hist s)).
Proof.
  intros s. split; [vm_compute; reflexivity|]. split; [vm_compute; reflexivity|].
  intros H.
  assert (Release 0 ∈ acts_of 0 (hist s)) as Hrel
    by (apply (bool_decide_unpack _); vm_compute; exact I).
  specialize (H Hrel). revert H.
  apply (bool_decide_unpack _). vm_compute. exact I.
Qed.

(** C6, as the code has it.  At lines 174 and 182 a child that finds the busy
    flag at 0 goes on to set it to 1 and proceeds; a child that finds it set
    prints the error line and leaves through [exit(-1)]: it alone terminates,
    with status 255, the kernel gives its semaphore units back, and the
    parent, the other children, the busy flags and the files stay as they
    are, and so do the segments, none being marked for destruction before
    the cleanup.  The system is not aborted: [wait(NULL)] collects a
    terminated child whatever its status, and in every schedule from that
    state on [main] ends with status 0, or with 255 after a failed [fork]
    that it has reported, and a process is changed only by its own steps and
    by the [wait] that collects it.  When the lock primitive behaves
    correctly, as [semop] does in every run of the program, no child ever
    takes the failing branch, the error line is never printed and every child
    that has terminated has status 0. *)
Theorem violation_detection (s : state) (i : nat) (p : proc) :
  procs s !! i = Some p →
  (∀ r next,
     (p_pc p = Chk1 ∧ r = sem1 i ∧ next = Set1) ∨
     (p_pc p = Chk2 ∧ r = sem2 PROC_COUNT i ∧ next = Set2) →
     step_child PROC_COUNT i s
     = Some (commit i (FlagTest r)
               (at_pc (if decide (rd (shm s) r = 0) then next else Fail) p) s)) ∧
  (∀ r next,
     (p_pc p = Set1 ∧ r = sem1 i ∧ next = Chk2) ∨
     (p_pc p = Set2 ∧ r = sem2 PROC_COUNT i ∧ next = Open1) →
     step_child PROC_COUNT i s
     = Some (commit i (FlagSet r 1) (at_pc next p)
               (with_shm (<[r := 1]> (shm s)) s))) ∧
  (p_pc p = Fail →
   ∃ s', step_child PROC_COUNT i s = Some s' ∧
         out s' = out s ++ [MsgResourcesInUse] ∧
         procs s' = <[i := with_semadj ((λ _, 0) <$> p_semadj p)
                              (at_pc (Zombie 255) p)]> (procs s) ∧
         sems s' = imap (λ k v, v + rd (p_semadj p) k) (sems s) ∧
         parent s' = parent s ∧ shm s' = shm s ∧ fs s' = fs s ∧
         shmIds s' = shmIds s ∧ (doomed s = [] → segs s' = segs s)) ∧
  (∀ r q pq st,
     parent s = PWait → procs s !! q = Some pq → p_pc pq = Zombie st →
     step_parent PROC_COUNT r q s
     = Some (with_procs (<[q := at_pc (Reaped st) pq]> (procs s)) s)) ∧
  (∀ cs s',
     run PROC_COUNT cs s = Some s' →
     (∀ st, parent s' = PDone st →
            parent s = PDone st ∨ st = 0 ∨ (st = 255 ∧ MsgForkFailed ∈ out s')) ∧
     (∀ j pj, procs s !! j = Some pj → Child j ∉ cs → (∀ r, Parent r j ∉ cs) →
              procs s' !! j = Some pj)) ∧
  (∀ shmget fs0 cs,
     run PROC_COUNT cs (boot PROC_COUNT shmget fs0) = Some s →
     p_pc p ≠ Fail ∧ (MsgResourcesInUse ∉ out s) ∧
     ∀ st, p_pc p = Zombie st ∨ p_pc p = Reaped st → st = 0).
Proof.
  intros Hp. split; [|split; [|split; [|split; [|split]]]].
  - intros r next [(Hc & -> & ->)|(Hc & -> & ->)];
      unfold step_child; rewrite Hp; simpl; by rewrite Hc.
  - intros r next [(Hc & -> & ->)|(Hc & -> & ->)];
      unfold step_child; rewrite Hp; simpl; by rewrite Hc.
  - intros Hc. eexists. unfold step_child. rewrite Hp. simpl. rewrite Hc.
    unfold do_exit. split; [reflexivity|]. simpl. repeat split.
    intros Hd. rewrite Hd. destruct (attached _); [done|apply filter_not_nil].
  - intros r q pq st. apply (wait_collects _ PROC_COUNT_ring).
  - intros cs s' Hrun. split.
    + intros st. by apply (run_status _ PROC_COUNT_ring cs).
    + intros j pj. by apply (run_frame _ PROC_COUNT_ring cs).
  - intros shmget fs0 cs H.
    pose proof (run_reachable _ PROC_COUNT_ring _ _ _ H) as R.
    pose proof (reachable_inv _ PROC_COUNT_ring _ _ _ R) as I.
    split; [by apply (never_fails_inv _ PROC_COUNT_ring s i p I Hp)|]. split.
    + intros Hin.
      by destruct (reachable_out_ok _ PROC_COUNT_ring _ _ _ R _ Hin) as [?|[[?|?] _]].
    + intros st Hst. by apply (status_zero _ PROC_COUNT_ring s i p st I Hp).
Qed.

Lemma violation_detection_witness :
  let p := mkProc Chk1 11 [1; 1; 0; 0; 0; 1] false false in
  procs flag_found_busy !! 0%nat = Some p ∧
  step_child PROC_COUNT 0 flag_found_busy
  = Some (commit 0 (FlagTest 0) (at_pc Fail p) flag_found_busy).
Proof.
  intros p.
  assert (procs flag_found_busy !! 0%nat = Some p) as Hp by (vm_compute; reflexivity).
  split; [exact Hp|].
  exact (proj1 (violation_detection flag_found_busy 0 p Hp) 0%nat Set1
           (or_introl (conj eq_refl (conj eq_refl eq_refl)))).
Defined.

(** C6 as stated fails: after child 0 (and later child 4) has found the busy
    flag of resource 0 set and left with status 255, the other three children
    do their work and the parent collects all five, cleans up and leaves with
    status 0; nothing aborts the system. *)
Lemma violation_detection_counterexample :
  rd (shm flag_found_busy) 0 = 1 ∧
  (p_pc <$> procs flag_found_busy) = [Chk1; AcqGate; AcqGate; AcqGate; AcqGate] ∧
  ∃ s, run PROC_COUNT after_violation flag_found_busy = Some s ∧
       (p_pc <$> procs s) = [Reaped 255; Reaped 0; Reaped 0; Reaped 0; Reaped 255] ∧
       parent s = PDone 0 ∧
       ¬ (∃ st, st ≠ 0 ∧ parent s = PDone st).
Proof.
  split; [vm_compute; reflexivity|]. split; [vm_compute; reflexivity|].
  eexists. split; [vm_compute; reflexivity|].
  split; [vm_compute; reflexivity|]. split; [vm_compute; reflexivity|].
  intros (st & Hst & H). vm_compute in H. congruence.
Qed.

(** C7, as the code has it.  When a database file cannot be written, the
    file stays as it is and nothing about it reaches the console; no run
    hangs; every child that has terminated has left through [exit(0)] after
    all the steps of its script, the releases of its two locks and of the
    gate among them; once all forked children have terminated every
    semaphore is back at its initial value; and [main] leaves with status 0,
    or with 255 after a failed [fork] or [shmget] that it has reported. *)
Theorem sink_fault (shmget : nat → Z) (fs0 : gmap string file)
  (cs : list choice) (s : state) (f : string) :
  fs0 !! f = Some Unwritable →
  run PROC_COUNT cs (boot PROC_COUNT shmget fs0) = Some s →
  fs s !! f = Some Unwritable ∧
  (∀ m, m ∈ out s → quiet m = true ∨ m = MsgForkFailed ∨ m = MsgShmFailed) ∧
  (terminated s ∨ ∃ c s', step PROC_COUNT c s = Some s') ∧
  (∀ i p, procs s !! i = Some p → is_alive p = false →
          (p_pc p = Zombie 0 ∨ p_pc p = Reaped 0) ∧
          acts_of i (hist s) = script PROC_COUNT i (p_pid p) ∧
          Release i ∈ acts_of i (hist s) ∧
          Release ((i + 1) mod 5) ∈ acts_of i (hist s) ∧
          Release 5 ∈ acts_of i (hist s)) ∧
  ((∀ p, p ∈ procs s → is_alive p = false) → procs s ≠ [] → sems s ≠ [] →
   sems s = [1; 1; 1; 1; 1; 4]) ∧
  (∀ st, parent s = PDone st →
         st = 0 ∨ (st = 255 ∧ (MsgForkFailed ∈ out s ∨ MsgShmFailed ∈ out s))).
Proof.
  intros Hf Hrun.
  pose proof (run_reachable _ PROC_COUNT_ring _ _ _ Hrun) as R.
  pose proof (reachable_inv _ PROC_COUNT_ring _ _ _ R) as I.
  split; [|split; [|split; [|split; [|split]]]].
  - by apply (files_status _ _ (reachable_files_ok _ PROC_COUNT_ring _ _ _ R)).
  - intros m Hm.
    destruct (reachable_out_ok _ PROC_COUNT_ring _ _ _ R m Hm) as [?|[[?|?] _]]; auto.
  - by apply (progress_inv _ PROC_COUNT_ring).
  - intros i p Hp Ha.
    assert (i < 5)%nat as Hi.
    { destruct I as [L|[A|B]].
      - apply (lookup_lt_procs _ PROC_COUNT_ring s i p L Hp).
      - destruct (after_procs _ _ A) as [Hlen _]. apply lookup_lt_Some in Hp.
        unfold PROC_COUNT in Hlen. lia.
      - destruct B as (_ & Hprocs & _). by rewrite Hprocs in Hp. }
    pose proof (terminated_history _ PROC_COUNT_ring _ _ _ _ i p Hrun Hp Ha) as Hs.
    split.
    { unfold is_alive in Ha. destruct (p_pc p) eqn:Hc; try done.
      - left. f_equal. apply (status_zero _ PROC_COUNT_ring s i p status I Hp). by left.
      - right. f_equal. apply (status_zero _ PROC_COUNT_ring s i p status I Hp). by right. }
    split; [done|]. rewrite Hs.
    assert (((i + 1) mod 5)%nat = sem2 PROC_COUNT i) as ->
      by (symmetry; apply (sem2_mod PROC_COUNT PROC_COUNT_ring i Hi)).
    repeat split; apply list_elem_of_In; unfold script, sem1, gate, PROC_COUNT; simpl;
      repeat (first [left; reflexivity | right]).
  - intros Hall Hne Hsems. destruct I as [L|[A|B]].
    + pose proof (live_sems _ _ L) as Hlen.
      assert (∀ k, (k ≤ 5)%nat → sems s !! k = Some (sem_init PROC_COUNT k)) as Hk.
      { intros k Hk. pose proof (sems_restored _ PROC_COUNT_ring s k L Hall Hk) as H.
        destruct (lookup_lt_is_Some_2 (sems s) k) as [v Hv];
          [unfold PROC_COUNT in Hlen; lia|].
        rewrite (rd_lookup _ _ _ Hv) in H. by rewrite Hv, H. }
      apply list_eq. intros k. destruct (decide (k ≤ 5)%nat) as [Hle|Hgt].
      * rewrite (Hk k Hle).
        do 6 (destruct k as [|k]; [reflexivity|]). lia.
      * rewrite !lookup_ge_None_2; [done|simpl; lia|unfold PROC_COUNT in Hlen; lia].
    + by destruct (Hsems (after_sems _ _ A)).
    + destruct B as (_ & Hprocs & _). by destruct Hne.
  - intros st HP. by apply (parent_status _ PROC_COUNT_ring shmget fs0 s st R).
Qed.

Lemma sink_fault_witness :
  let s := outcome no_statistics sequential in
  no_statistics !! "statistics.txt"%string = Some Unwritable ∧
  run PROC_COUNT sequential (boot PROC_COUNT ids no_statistics) = Some s ∧
  fs s !! "statistics.txt"%string = Some Unwritable ∧
  (∀ m, m ∈ out s → quiet m = true ∨ m = MsgForkFailed ∨ m = MsgShmFailed).
Proof.
  intros s.
  assert (no_statistics !! "statistics.txt"%string = Some Unwritable) as Hf
    by (vm_compute; reflexivity).
  assert (run PROC_COUNT sequential (boot PROC_COUNT ids no_statistics) = Some s) as Hrun
    by (vm_compute; reflexivity).
  split; [exact Hf|]. split; [exact Hrun|].
  destruct (sink_fault ids no_statistics sequential s _ Hf Hrun) as (H1 & H2 & _).
  exact (conj H1 H2).
Defined.

(** C7 as stated fails: with the first database of child 2 not writable, the
    run goes through without any fault line on the console, child 2 leaves
    with status 0 like the others, and so does [main]. *)
Lemma sink_fault_counterexample :
  let s := outcome no_statistics sequential in
  db1filename 2 = "statistics.txt"%string ∧
  no_statistics !! "statistics.txt"%string = Some Unwritable ∧
  run PROC_COUNT sequential (boot PROC_COUNT ids no_statistics) = Some s ∧
  forallb quiet (out s) = true ∧
  (p_pc <$> procs s) = [Reaped 0; Reaped 0; Reaped 0; Reaped 0; Reaped 0] ∧
  parent s = PDone 0 ∧
  ¬ (∃ st, st ≠ 0 ∧ (procs s !! 2%nat ≫= λ p, Some (p_pc p)) = Some (Reaped st)) ∧
  ¬ (∃ st, st ≠ 0 ∧ parent s = PDone st).
Proof.
  intros s.
  split; [vm_compute; reflexivity|]. split; [vm_compute; reflexivity|].
  split; [vm_compute; reflexivity|]. split; [vm_compute; reflexivity|].
  split; [vm_compute; reflexivity|]. split; [vm_compute; reflexivity|].
  split; intros (st & Hst & H); vm_compute in H; congruence.
Qed.

(** Once [main] has left through line 147 everything is destroyed. *)
Lemma cleanup_normal_exit (shmget : nat → Z) (fs0 : gmap string file)
  (cs : list choice) (s : state) :
  run PROC_COUNT cs (boot PROC_COUNT shmget fs0) = Some s →
  parent s = PDone 0 → segs s = [] ∧ sems s = [].
Proof.
  intros Hrun HP.
  pose proof (run_reachable _ PROC_COUNT_ring _ _ _ Hrun) as R.
  pose proof (reachable_inv _ PROC_COUNT_ring _ _ _ R) as I.
  destruct (parent_done_after _ PROC_COUNT_ring s I HP) as [_ _ Hsems Hsegs _].
  rewrite HP in Hsegs. by destruct Hsegs.
Qed.

(** C8 fails on the two early exits of [main].  When the third [shmget]
    fails, [main] leaves at line 94 with status 255 while the semaphore set
    and the two segments it has created still exist, and nothing can run any
    more.  When the third [fork] fails, [main] leaves at line 108 with status
    255 without waiting for the two children it has started; they run to
    their end, and the semaphore set and all five segments are still there. *)
Lemma cleanup_leak :
  (let s := boot PROC_COUNT third_fails ∅ in
   parent s = PDone 255 ∧ segs s = [100; 101] ∧ sems s = [1; 1; 1; 0; 0; 0] ∧
   out s = [MsgShmFailed] ∧ ∀ c, step PROC_COUNT c s = None) ∧
  (let s := outcome ∅ (fork_fails ++ whole 0 ++ whole 1) in
   run PROC_COUNT (fork_fails ++ whole 0 ++ whole 1) (boot PROC_COUNT ids ∅) = Some s ∧
   parent s = PDone 255 ∧ (p_pc <$> procs s) = [Zombie 0; Zombie 0] ∧
   segs s = [100; 101; 102; 103; 104] ∧ sems s = [1; 1; 1; 1; 1; 4] ∧
   ∀ c, step PROC_COUNT c s = None).
Proof.
  split.
  - intros s.
    assert (procs s = []) as Hprocs by (vm_compute; reflexivity).
    assert (parent s = PDone 255) as Hpar by (vm_compute; reflexivity).
    split; [exact Hpar|]. split; [vm_compute; reflexivity|].
    split; [vm_compute; reflexivity|]. split; [vm_compute; reflexivity|].
    clearbody s. intros [i|r q]; unfold step.
    + unfold step_child. by rewrite Hprocs, lookup_nil.
    + unfold step_parent. by rewrite Hpar.
  - intros s.
    assert (procs s = [mkProc (Zombie 0) 11 [0; 0; 0; 0; 0; 0] false false;
                       mkProc (Zombie 0) 12 [0; 0; 0; 0; 0; 0] false false]) as Hprocs
      by (vm_compute; reflexivity).
    assert (parent s = PDone 255) as Hpar by (vm_compute; reflexivity).
    split; [vm_compute; reflexivity|]. split; [exact Hpar|].
    split; [vm_compute; reflexivity|]. split; [vm_compute; reflexivity|].
    split; [vm_compute; reflexivity|].
    clearbody s. intros [i|r q]; unfold step.
    + unfold step_child. rewrite Hprocs.
      destruct i as [|[|i]]; reflexivity.
    + unfold step_parent. by rewrite Hpar.
Qed.

Lemma length_by_child (l : list (nat * line)) :
  (∀ e, e ∈ l → (e.1 < 5)%nat) →
  length l = (length (filter (λ e, e.1 = 0%nat) l) + length (filter (λ e, e.1 = 1%nat) l)
              + length (filter (λ e, e.1 = 2%nat) l) + length (filter (λ e, e.1 = 3%nat) l)
              + length (filter (λ e, e.1 = 4%nat) l))%nat.
Proof.
  induction l as [|[t x] l IH]; intros H; [done|].
  rewrite !filter_cons. simpl.
  assert (t < 5)%nat as Ht by (apply (H (t, x)); left).
  rewrite IH by (intros e He; apply H; by right).
  do 5 (destruct t as [|t]; [simpl; lia|]). lia.
Qed.

(** The files of a child and of its successor on the ring. *)
Lemma sink_topology (i w : nat) :
  (i < 5)%nat → (w < 5)%nat →
  (db1filename w = db1filename i ∨ db2filename w = db1filename i)
  ↔ (w = i ∨ w = ((i + 4) mod 5)%nat).
Proof.
  intros Hi Hw.
  do 5 (destruct i as [|i]; [do 5 (destruct w as [|w]; [vm_compute; intuition congruence|]); lia|]).
  lia.
Qed.

(** C9, as the code has it.  The table gives every file to exactly two
    children, neighbours on the ring; and when all five children have
    terminated, every writable file holds what it held at the start and then
    exactly four appended lines, the two lines "Being used by" and "Free
    from" of each of its two children. *)
Theorem sink_records (shmget : nat → Z) (fs0 : gmap string file)
  (cs : list choice) (s : state) (i : nat) :
  (i < 5)%nat →
  run PROC_COUNT cs (boot PROC_COUNT shmget fs0) = Some s →
  length (procs s) = 5%nat → (∀ p, p ∈ procs s → is_alive p = false) →
  writable fs0 (db1filename i) →
  (∀ w, (w < 5)%nat →
        (db1filename w = db1filename i ∨ db2filename w = db1filename i)
        ↔ (w = i ∨ w = ((i + 4) mod 5)%nat)) ∧
  ∃ sfx : list (nat * line),
    content (fs s) (db1filename i) = content fs0 (db1filename i) ++ (snd <$> sfx) ∧
    length sfx = 4%nat ∧
    ∀ w p, procs s !! w = Some p →
      filter (λ e, e.1 = w) sfx
      = if decide (w = i ∨ w = ((i + 4) mod 5)%nat)
        then [(w, BeingUsedBy (systemName w) (p_pid p));
              (w, FreeFrom (systemName w) (p_pid p))]
        else [].
Proof.
  intros Hi Hrun Hlen Hall Hw.
  pose proof (run_reachable _ PROC_COUNT_ring _ _ _ Hrun) as R.
  split; [intros w Hlt; by apply sink_topology|].
  exists (appended (db1filename i) (hist s)).
  assert (∀ w p, procs s !! w = Some p →
            filter (λ e, e.1 = w) (appended (db1filename i) (hist s))
            = if decide (w = i ∨ w = ((i + 4) mod 5)%nat)
              then [(w, BeingUsedBy (systemName w) (p_pid p));
                    (w, FreeFrom (systemName w) (p_pid p))]
              else []) as Hby.
  { intros w p Hp.
    assert (w < 5)%nat as Hlt by (apply lookup_lt_Some in Hp; lia).
    rewrite (appended_of _ PROC_COUNT_ring).
    rewrite (terminated_history _ PROC_COUNT_ring shmget fs0 cs s w p Hrun Hp)
      by (apply Hall; by eapply list_elem_of_lookup_2).
    generalize (p_pid p). intros pid. clear -Hi Hlt.
    do 5 (destruct i as [|i];
          [do 5 (destruct w as [|w]; [vm_compute; reflexivity|]); lia|]).
    lia. }
  split; [|split; [|exact Hby]].
  - by apply (files_content _ _ (reachable_files_ok _ PROC_COUNT_ring _ _ _ R)).
  - rewrite length_by_child.
    + assert (∀ w, (w < 5)%nat →
                length (filter (λ e, e.1 = w) (appended (db1filename i) (hist s)))
                = if decide (w = i ∨ w = ((i + 4) mod 5)%nat) then 2%nat else 0%nat) as Hn.
      { intros w Hlt. destruct (lookup_lt_is_Some_2 (procs s) w ltac:(lia)) as [p Hp].
        rewrite (Hby w p Hp). by case_decide. }
      rewrite !Hn by lia. clear -Hi.
      do 5 (destruct i as [|i]; [vm_compute; reflexivity|]). lia.
    + intros e He. rewrite <- Hlen.
      by apply (appended_tags _ PROC_COUNT_ring shmget fs0 cs s (db1filename i) e Hrun).
Qed.

Lemma sink_records_witness :
  let s := outcome ∅ sequential in
  (0 < 5)%nat ∧
  run PROC_COUNT sequential (boot PROC_COUNT ids ∅) = Some s ∧
  length (procs s) = 5%nat ∧ (∀ p, p ∈ procs s → is_alive p = false) ∧
  writable ∅ (db1filename 0) ∧
  ∃ sfx : list (nat * line),
    content (fs s) (db1filename 0) = content ∅ (db1filename 0) ++ (snd <$> sfx) ∧
    length sfx = 4%nat.
Proof.
  intros s.
  assert (run PROC_COUNT sequential (boot PROC_COUNT ids ∅) = Some s) as Hrun
    by (vm_compute; reflexivity).
  assert (length (procs s) = 5%nat) as Hlen by (vm_compute; reflexivity).
  assert (∀ p, p ∈ procs s → is_alive p = false) as Hall.
  { intros p Hp. apply list_elem_of_In in Hp.
    assert (forallb (λ p, negb (is_alive p)) (procs s) = true) as Hb
      by (vm_compute; reflexivity).
    rewrite forallb_forall in Hb. specialize (Hb p Hp). by destruct (is_alive p). }
  assert (writable ∅ (db1filename 0)) as Hw by (split; [done|by rewrite lookup_empty]).
  split; [lia|]. split; [exact Hrun|]. split; [exact Hlen|]. split; [exact Hall|].
  split; [exact Hw|].
  destruct (sink_records ids ∅ sequential s 0 ltac:(lia) Hrun Hlen Hall Hw)
    as (_ & sfx & H1 & H2 & _).
  exists sfx. exact (conj H1 H2).
Defined.

Lemma sequential_lines :
  ((λ i, length (content (fs (outcome ∅ sequential)) (db1filename i)))
     <$> [0; 1; 2; 3; 4]%nat)
  = [4; 4; 4; 4; 4]%nat.
Proof. vm_compute. reflexivity. Qed.

(** C9 as stated fails: after the five children have run, each of the five
    files holds four lines, not two. *)
Lemma sink_records_counterexample :
  run PROC_COUNT sequential (boot PROC_COUNT ids ∅) = Some (outcome ∅ sequential) ∧
  parent (outcome ∅ sequential) = PDone 0 ∧
  (p_pc <$> procs (outcome ∅ sequential))
  = [Reaped 0; Reaped 0; Reaped 0; Reaped 0; Reaped 0] ∧
  ((λ i, length (content (fs (outcome ∅ sequential)) (db1filename i)))
     <$> [0; 1; 2; 3; 4]%nat)
  = [4; 4; 4; 4; 4]%nat ∧
  ¬ (∃ i, (i < 5)%nat ∧
          length (content (fs (outcome ∅ sequential)) (db1filename i)) = 2%nat).
Proof.
  split; [vm_compute; reflexivity|]. split; [vm_compute; reflexivity|].
  split; [vm_compute; reflexivity|]. split; [exact sequential_lines|].
  pose proof sequential_lines as Hfour. revert Hfour.
  generalize (fs (outcome ∅ sequential)). intros m Hfour (i & Hi & H).
  injection Hfour as H0 H1 H2 H3 H4.
  do 5 (destruct i as [|i]; [congruence|]). lia.
Qed.

(** C10. The semaphores of a child.  For [i] in 0..4 the two lock indices
    [sem1 = i] and [sem2 = (i + 1) mod 5] differ, lie in 0..4 and differ from
    the gate's index 5; and in every run the semaphores child [i] has
    acquired are pairwise distinct. *)
Theorem distinct_semaphores (shmget : nat → Z) (fs0 : gmap string file)
  (cs : list choice) (s : state) (i : nat) :
  (i < 5)%nat →
  run PROC_COUNT cs (boot PROC_COUNT shmget fs0) = Some s →
  sem1 i = i ∧ sem2 PROC_COUNT i = ((i + 1) mod 5)%nat ∧ gate PROC_COUNT = 5%nat ∧
  sem1 i ≠ sem2 PROC_COUNT i ∧ (sem1 i < 5)%nat ∧ (sem2 PROC_COUNT i < 5)%nat ∧
  sem1 i ≠ gate PROC_COUNT ∧ sem2 PROC_COUNT i ≠ gate PROC_COUNT ∧
  NoDup (acquired (acts_of i (hist s))).
Proof.
  intros Hi Hrun.
  pose proof (sem2_mod PROC_COUNT PROC_COUNT_ring i Hi) as Hm.
  pose proof (sem2_lt PROC_COUNT PROC_COUNT_ring i Hi) as Hlt.
  pose proof (sem2_ne PROC_COUNT PROC_COUNT_ring i Hi) as Hne.
  unfold PROC_COUNT in Hlt.
  repeat split; try done; try (unfold sem1, gate, PROC_COUNT in *; lia).
  destruct (procs s !! i) as [p|] eqn:Hp.
  - rewrite (child_history _ PROC_COUNT_ring shmget fs0 cs s i p Hrun Hp).
    eapply sublist_NoDup; [|apply (acquired_take PROC_COUNT PROC_COUNT_ring)]. simpl.
    unfold sem1, gate, PROC_COUNT in *.
    repeat (apply NoDup_cons; split);
      rewrite ?elem_of_cons, ?elem_of_nil; try lia. apply NoDup_nil_2.
  - rewrite (child_history_unforked _ PROC_COUNT_ring shmget fs0 cs s i Hrun Hp).
    apply NoDup_nil_2.
Qed.

Lemma distinct_semaphores_witness :
  let cs := forks ++ replicate 3 (Child 4) in
  (4 < 5)%nat ∧
  run PROC_COUNT cs (boot PROC_COUNT ids ∅) = Some (outcome ∅ cs) ∧
  acquired (acts_of 4 (hist (outcome ∅ cs))) = [5; 4; 0]%nat ∧
  NoDup (acquired (acts_of 4 (hist (outcome ∅ cs)))).
Proof.
  intros cs.
  assert (run PROC_COUNT cs (boot PROC_COUNT ids ∅) = Some (outcome ∅ cs)) as Hrun
    by (vm_compute; reflexivity).
  split; [lia|]. split; [exact Hrun|]. split; [vm_compute; reflexivity|].
  apply (distinct_semaphores ids ∅ cs (outcome ∅ cs) 4 ltac:(lia) Hrun).
Defined.

(** * Further properties of the program *)

(** ** [main] before the first [fork]: lines 78-102 *)

(** X1. When no [shmget] fails, [main] reaches the first [fork] with the [N]
    lock semaphores at 1 and the gate at [N - 1] (six semaphores 1, 1, 1, 1,
    1, 4 in the program), one segment per resource in the order of the calls,
    recorded in [shmIds], every busy flag at 0, nothing on the console and
    the files untouched. *)
Theorem boot_succeeds (N : nat) (shmget : nat → Z) (fs0 : gmap string file) :
  (∀ k, (k < N)%nat → shmget k ≠ -1) →
  boot N shmget fs0
  = mkState (replicate N 1 ++ [Z.of_nat N - 1]) (replicate N 0)
      (shmget <$> seq 0 N) [] (shmget <$> seq 0 N) (PFork 0) [] fs0 [] [].
Proof.
  intros Hok. unfold boot.
  rewrite (boot_loop_all N shmget N 0 (fresh N fs0)); [done|done| |].
  - simpl. by rewrite Nat.add_1_r.
  - intros k Hk. apply Hok. lia.
Qed.

Lemma boot_succeeds_witness :
  (∀ k, (k < 5)%nat → ids k ≠ -1) ∧
  boot 5 ids ∅
  = mkState [1; 1; 1; 1; 1; 4] [0; 0; 0; 0; 0] [100; 101; 102; 103; 104] []
      [100; 101; 102; 103; 104] (PFork 0) [] ∅ [] [].
Proof.
  assert (∀ k, (k < 5)%nat → ids k ≠ -1) as H by (intros k _; unfold ids; lia).
  split; [exact H|]. exact (boot_succeeds 5 ids ∅ H).
Defined.

(** X2. When the call of [shmget] for resource [k] is the first to fail,
    [main] leaves through [exit(-1)] at line 94 having said so, with the
    semaphores 0..k set to 1 and the others, the gate among them, still 0,
    and with the [k] segments created so far left behind; no child exists
    and nothing can run any more. *)
Theorem boot_fails (N : nat) (shmget : nat → Z) (fs0 : gmap string file) (k : nat) :
  (k < N)%nat → shmget k = -1 → (∀ j, (j < k)%nat → shmget j ≠ -1) →
  boot N shmget fs0
  = mkState (replicate (S k) 1 ++ replicate (N - k) 0) (replicate k 0)
      (shmget <$> seq 0 k) [] (shmget <$> seq 0 k) (PDone 255) [] fs0
      [MsgShmFailed] []
  ∧ ∀ c, step N c (boot N shmget fs0) = None.
Proof.
  intros Hk Hfail Hok.
  assert (boot N shmget fs0
          = mkState (replicate (S k) 1 ++ replicate (N - k) 0) (replicate k 0)
              (shmget <$> seq 0 k) [] (shmget <$> seq 0 k) (PDone 255) [] fs0
              [MsgShmFailed] []) as E.
  { unfold boot.
    rewrite (boot_loop_fails N shmget N 0 (fresh N fs0) k); simpl;
      rewrite ?Nat.sub_0_r; try done; try lia.
    - by rewrite Nat.add_1_r.
    - intros j Hj. apply Hok. lia. }
  split; [exact E|]. rewrite E. by intros [i|r q].
Qed.

Lemma boot_fails_witness :
  (2 < 5)%nat ∧ third_fails 2 = -1 ∧ (∀ j, (j < 2)%nat → third_fails j ≠ -1) ∧
  boot 5 third_fails ∅
  = mkState [1; 1; 1; 0; 0; 0] [0; 0] [100; 101] [] [100; 101] (PDone 255) [] ∅
      [MsgShmFailed] [].
Proof.
  assert (∀ j, (j < 2)%nat → third_fails j ≠ -1) as H.
  { intros j Hj. unfold third_fails, ids. case_decide; lia. }
  split; [lia|]. split; [reflexivity|]. split; [exact H|].
  exact (proj1 (boot_fails 5 third_fails ∅ 2 ltac:(lia) eq_refl H)).
Defined.

(** ** The semaphores: [init_sem], [acquire_resource], [release_resource] *)

(** X3. While the semaphore set exists, the value of the lock of a resource
    is 0 or 1, and it is 0 exactly when some child holds that lock; the value
    of the gate and the number of children inside it add up to [N - 1], four
    in the program. *)
Theorem semaphore_values (N : nat) (shmget : nat → Z) (fs0 : gmap string file)
  (cs : list choice) (s : state) :
  (2 ≤ N)%nat →
  parent (boot N shmget fs0) = PFork 0 →
  run N cs (boot N shmget fs0) = Some s →
  sems s ≠ [] →
  length (sems s) = (N + 1)%nat ∧
  (∀ r, (r < N)%nat →
        (rd (sems s) r = 0 ∨ rd (sems s) r = 1) ∧
        (rd (sems s) r = 0 ↔ ∃ w, holds_lock N s w r)) ∧
  rd (sems s) N + Z.of_nat (admitted s) = Z.of_nat N - 1.
Proof.
  intros HN HP Hrun Hs.
  pose proof (run_reachable N HN _ _ _ Hrun) as R.
  destruct (reachable_live N HN shmget fs0 s HP R) as [L|A];
    [|by destruct (Hs (after_sems N s A))].
  split; [apply L|]. split.
  - intros r Hr. by apply (lock_value N HN).
  - apply (gate_balance N HN s L).
Qed.

Lemma semaphore_values_witness :
  let cs := forks ++ replicate 3 (Child 0) in
  (2 ≤ 5)%nat ∧ parent (boot 5 ids ∅) = PFork 0 ∧
  run 5 cs (boot 5 ids ∅) = Some (outcome ∅ cs) ∧
  sems (outcome ∅ cs) ≠ [] ∧
  rd (sems (outcome ∅ cs)) 5 + Z.of_nat (admitted (outcome ∅ cs)) = 4.
Proof.
  intros cs.
  assert (parent (boot 5 ids ∅) = PFork 0) as Hb by (vm_compute; reflexivity).
  assert (run 5 cs (boot 5 ids ∅) = Some (outcome ∅ cs)) as Hrun
    by (vm_compute; reflexivity).
  assert (sems (outcome ∅ cs) ≠ []) as Hs by (vm_compute; discriminate).
  split; [lia|]. split; [exact Hb|]. split; [exact Hrun|]. split; [exact Hs|].
  exact (proj2 (proj2 (semaphore_values 5 ids ∅ cs _ ltac:(lia) Hb Hrun Hs))).
Defined.

(** X4. The busy flag of a resource, the word of shared memory written at
    lines 89, 176, 184, 241 and 247, is 0 or 1 in every state of a run; it is 1
    exactly when some child has set it and not yet cleared it; that child
    holds the lock of the resource and is the only one; and when no forked
    child is running any more every flag is back at 0. *)
Theorem busy_flags (N : nat) (shmget : nat → Z) (fs0 : gmap string file)
  (cs : list choice) (s : state) (r : nat) :
  (2 ≤ N)%nat →
  parent (boot N shmget fs0) = PFork 0 →
  run N cs (boot N shmget fs0) = Some s →
  (r < N)%nat →
  (rd (shm s) r = 0 ∨ rd (shm s) r = 1) ∧
  (rd (shm s) r = 1 ↔ ∃ w, marks N s w r) ∧
  (∀ w, marks N s w r → holds_lock N s w r) ∧
  (∀ w1 w2, marks N s w1 r → marks N s w2 r → w1 = w2) ∧
  ((∀ p, p ∈ procs s → is_alive p = false) → rd (shm s) r = 0).
Proof.
  intros HN HP Hrun Hr.
  pose proof (run_reachable N HN _ _ _ Hrun) as R.
  pose proof (reachable_inv N HN _ _ _ R) as I.
  pose proof (reachable_live N HN shmget fs0 s HP R) as LA.
  destruct (flag_value_inv N HN s r LA Hr) as [H01 Hiff].
  split; [exact H01|]. split; [exact Hiff|].
  split; [intros w; apply (marks_holds N HN)|]. split.
  - intros w1 w2 H1 H2.
    apply (exclusive_holder N HN s w1 w2 r I); by apply (marks_holds N HN).
  - intros Hall. destruct H01 as [H|H]; [done|].
    apply Hiff in H as (w & Hw).
    destruct (marks_alive N HN s w r Hw) as (p & Hp & Ha).
    rewrite (Hall p Hp) in Ha. done.
Qed.

Lemma busy_flags_witness :
  let cs := forks ++ replicate 5 (Child 0) in
  (2 ≤ 5)%nat ∧ parent (boot 5 ids ∅) = PFork 0 ∧
  run 5 cs (boot 5 ids ∅) = Some (outcome ∅ cs) ∧ (0 < 5)%nat ∧
  (rd (shm (outcome ∅ cs)) 0 = 1 ↔ ∃ w, marks 5 (outcome ∅ cs) w 0).
Proof.
  intros cs.
  assert (parent (boot 5 ids ∅) = PFork 0) as Hb by (vm_compute; reflexivity).
  assert (run 5 cs (boot 5 ids ∅) = Some (outcome ∅ cs)) as Hrun
    by (vm_compute; reflexivity).
  split; [lia|]. split; [exact Hb|]. split; [exact Hrun|]. split; [lia|].
  exact (proj1 (proj2 (busy_flags 5 ids ∅ cs _ 0 ltac:(lia) Hb Hrun ltac:(lia)))).
Defined.

(** X5. The adjustments the kernel keeps for a child because of [SEM_UNDO]
    (lines 278 and 297): while the semaphore set exists, the adjustment of a
    child for a semaphore is 1 when the child holds a unit of it and 0
    otherwise, so it is 0 everywhere once the child has released the gate at
    line 250, and [exit(0)] at line 113 changes no semaphore. *)
Theorem undo_adjustments (N : nat) (shmget : nat → Z) (fs0 : gmap string file)
  (cs : list choice) (s : state) (i : nat) (p : proc) :
  (2 ≤ N)%nat →
  run N cs (boot N shmget fs0) = Some s →
  procs s !! i = Some p →
  sems s ≠ [] →
  length (p_semadj p) = length (sems s) ∧
  (∀ k, rd (p_semadj p) k = 0 ∨ rd (p_semadj p) k = 1) ∧
  (∀ r, (r < N)%nat →
        rd (p_semadj p) r = 1 ↔
        (has1 (p_pc p) = true ∧ r = sem1 i) ∨ (has2 (p_pc p) = true ∧ r = sem2 N i)) ∧
  (rd (p_semadj p) N = 1 ↔ inside (p_pc p) = true) ∧
  (p_pc p = Exit0 →
   (∀ k, rd (p_semadj p) k = 0) ∧
   ∃ s', step_child N i s = Some s' ∧ sems s' = sems s).
Proof.
  intros HN Hrun Hp Hs.
  pose proof (run_reachable N HN _ _ _ Hrun) as R.
  destruct (reachable_inv N HN _ _ _ R) as [L|[A|B]];
    [|by destruct (Hs (after_sems N s A))
     |destruct B as (_ & Hprocs & _); by rewrite Hprocs in Hp].
  pose proof (lookup_lt_procs N HN s i p L Hp) as Hi.
  pose proof (live_adj N s L i p) as Hadj.
  assert (∀ k, 0 ≤ held N i (p_pc p) k ≤ 1) as Hb.
  { intros k. split; [apply (held_nonneg N HN)|by apply (held_le_one N HN)]. }
  split; [by rewrite (live_adjlen N s L i p Hp), (live_sems N s L)|].
  split; [intros k; rewrite (Hadj k Hp); specialize (Hb k); lia|].
  split; [|split].
  - intros r Hr. rewrite (Hadj r Hp). split.
    + intros H1.
      destruct (held_pos N HN i (p_pc p) r ltac:(lia)) as [[_ E]|H]; [|done].
      unfold gate in E. lia.
    + intros H.
      destruct (holds_lock_held N HN s i r (ex_intro _ p (conj Hp H)))
        as (p' & Hp' & Hge).
      rewrite Hp in Hp'. injection Hp' as <-. specialize (Hb r). lia.
  - rewrite (Hadj N Hp). split.
    + intros H1.
      destruct (held_pos N HN i (p_pc p) N ltac:(lia)) as [[H _]|[[_ E]|[_ E]]];
        [done|unfold sem1 in E; lia|].
      pose proof (sem2_lt N HN i Hi). lia.
    + intros H. specialize (Hb N). unfold held in *. rewrite H in *.
      unfold gate in *. rewrite bool_decide_eq_true_2 in * by done. simpl in *.
      destruct (has1 (p_pc p) && bool_decide (N = sem1 i)),
               (has2 (p_pc p) && bool_decide (N = sem2 N i)); simpl in *; lia.
  - intros Hc.
    assert (∀ k, rd (p_semadj p) k = 0) as H0.
    { intros k. rewrite (Hadj k Hp), Hc. held_tac. }
    split; [exact H0|].
    unfold step_child. rewrite Hp. simpl. rewrite Hc. unfold do_exit.
    eexists. split; [reflexivity|]. simpl. by apply (undo_nothing N HN).
Qed.

Lemma undo_adjustments_witness :
  let cs := forks ++ replicate 26 (Child 1) in
  (2 ≤ 5)%nat ∧ run 5 cs (boot 5 ids ∅) = Some (outcome ∅ cs) ∧
  procs (outcome ∅ cs) !! 1%nat = Some (mkProc Exit0 12 [0; 0; 0; 0; 0; 0] false false) ∧
  sems (outcome ∅ cs) ≠ [] ∧
  ∃ s', step_child 5 1 (outcome ∅ cs) = Some s' ∧ sems s' = sems (outcome ∅ cs).
Proof.
  intros cs.
  assert (run 5 cs (boot 5 ids ∅) = Some (outcome ∅ cs)) as Hrun
    by (vm_compute; reflexivity).
  assert (procs (outcome ∅ cs) !! 1%nat
          = Some (mkProc Exit0 12 [0; 0; 0; 0; 0; 0] false false)) as Hp
    by (vm_compute; reflexivity).
  assert (sems (outcome ∅ cs) ≠ []) as Hs by (vm_compute; discriminate).
  split; [lia|]. split; [exact Hrun|]. split; [exact Hp|]. split; [exact Hs|].
  destruct (undo_adjustments 5 ids ∅ cs _ 1 _ ltac:(lia) Hrun Hp Hs)
    as (_ & _ & _ & _ & H).
  exact (proj2 (H eq_refl)).
Defined.

(** X6. [acquire_resource] and [release_resource] undo each other.  On a
    semaphore with a positive value the acquire returns, takes one unit and
    raises the adjustment of the process by one; the release that follows
    never blocks and puts back both the value of every semaphore and the
    adjustments of the process; the history records the two steps.  On an
    existing semaphore the acquire blocks exactly when the value is not
    positive. *)
Theorem acquire_release_round_trip (k i : nat) (n1 n2 : pc) (p : proc) (s : state) :
  procs s !! i = Some p →
  (k < length (sems s))%nat →
  (k < length (p_semadj p))%nat →
  (acquire_resource k n1 i p s = None ↔ rd (sems s) k ≤ 0) ∧
  (0 < rd (sems s) k →
   ∃ s1 p1 s2 p2,
     acquire_resource k n1 i p s = Some s1 ∧ procs s1 !! i = Some p1 ∧
     rd (sems s1) k = rd (sems s) k - 1 ∧
     rd (p_semadj p1) k = rd (p_semadj p) k + 1 ∧
     release_resource k n2 i p1 s1 = Some s2 ∧ procs s2 !! i = Some p2 ∧
     sems s2 = sems s ∧ p_semadj p2 = p_semadj p ∧ p_pc p2 = n2 ∧
     hist s2 = hist s ++ [(i, Acquire k); (i, Release k)]).
Proof.
  intros Hp Hk Hka.
  destruct (lookup_lt_is_Some_2 (sems s) k Hk) as [v Hv].
  destruct (lookup_lt_is_Some_2 (p_semadj p) k Hka) as [x Hx].
  pose proof (lookup_lt_Some _ _ _ Hp) as Hi.
  rewrite (rd_lookup _ _ _ Hv). unfold acquire_resource. rewrite Hv.
  split.
  - case_decide; split; intros; try done; lia.
  - intros Hpos. rewrite decide_True by done.
    eexists _, _, _, _. split; [reflexivity|]. simpl.
    split; [by apply list_lookup_insert_eq|].
    split; [by apply rd_insert_eq|]. simpl.
    split; [by apply rd_insert_eq|].
    unfold release_resource. simpl. rewrite list_lookup_insert_eq by done.
    split; [reflexivity|]. simpl.
    split; [apply list_lookup_insert_eq; by rewrite length_insert|].
    split; [|split; [|split]].
    + rewrite list_insert_insert_eq. replace (v - 1 + 1) with v by lia.
      by apply list_insert_id.
    + rewrite rd_insert_eq by done. rewrite list_insert_insert_eq.
      rewrite (rd_lookup _ _ _ Hx). replace (x + 1 - 1) with x by lia.
      by apply list_insert_id.
    + done.
    + by rewrite <- app_assoc.
Qed.

Lemma acquire_release_round_trip_witness :
  let s := outcome ∅ forks in
  let p := mkProc AcqGate 11 [0; 0; 0; 0; 0; 0] false false in
  procs s !! 0%nat = Some p ∧ (5 < length (sems s))%nat ∧
  (5 < length (p_semadj p))%nat ∧
  (acquire_resource 5 AcqSem1 0 p s = None ↔ rd (sems s) 5 ≤ 0).
Proof.
  intros s p.
  assert (procs s !! 0%nat = Some p) as Hp by (vm_compute; reflexivity).
  assert (5 < length (sems s))%nat as Hk by (vm_compute; lia).
  assert (5 < length (p_semadj p))%nat as Hka by (vm_compute; lia).
  split; [exact Hp|]. split; [exact Hk|]. split; [exact Hka|].
  exact (proj1 (acquire_release_round_trip 5 0 AcqSem1 Exit0 p s Hp Hk Hka)).
Defined.

(** X7. What [SEM_UNDO] is for: a process without adjustments that acquires
    a semaphore and then terminates, with whatever exit code, leaves every
    semaphore at the value it had before; the kernel takes the unit back at
    the exit. *)
Theorem exit_gives_back (k i : nat) (next : pc) (code : Z) (p : proc) (s : state) :
  procs s !! i = Some p →
  (k < length (sems s))%nat →
  length (p_semadj p) = length (sems s) →
  (∀ j, rd (p_semadj p) j = 0) →
  0 < rd (sems s) k →
  ∃ s1 p1 s2 p2,
    acquire_resource k next i p s = Some s1 ∧ procs s1 !! i = Some p1 ∧
    rd (sems s1) k = rd (sems s) k - 1 ∧
    do_exit code i p1 s1 = Some s2 ∧ procs s2 !! i = Some p2 ∧
    sems s2 = sems s ∧ (∀ j, rd (p_semadj p2) j = 0) ∧
    p_pc p2 = Zombie (exit_status code).
Proof.
  intros Hp Hk Hlen H0 Hpos.
  destruct (lookup_lt_is_Some_2 (sems s) k Hk) as [v Hv].
  pose proof (lookup_lt_Some _ _ _ Hp) as Hi.
  rewrite (rd_lookup _ _ _ Hv) in *. unfold acquire_resource. rewrite Hv.
  rewrite decide_True by done.
  eexists _, _, _, _. split; [reflexivity|]. simpl.
  split; [by apply list_lookup_insert_eq|].
  split; [by apply rd_insert_eq|].
  unfold do_exit. split; [reflexivity|]. simpl.
  split; [apply list_lookup_insert_eq; by rewrite length_insert|].
  split; [|split; [|done]].
  - apply list_eq. intros j. rewrite list_lookup_imap.
    destruct (decide (j = k)) as [->|Hne].
    + rewrite list_lookup_insert_eq by done. simpl.
      rewrite rd_insert_eq by lia. rewrite H0, Hv. f_equal. lia.
    + rewrite list_lookup_insert_ne by done.
      destruct (sems s !! j) as [y|]; simpl; [|done].
      rewrite rd_insert_ne by done. rewrite H0. f_equal. lia.
  - intros j. apply rd_zeroed.
Qed.

Lemma exit_gives_back_witness :
  let s := outcome ∅ forks in
  let p := mkProc AcqGate 11 [0; 0; 0; 0; 0; 0] false false in
  procs s !! 0%nat = Some p ∧ (5 < length (sems s))%nat ∧
  length (p_semadj p) = length (sems s) ∧ (∀ j, rd (p_semadj p) j = 0) ∧
  0 < rd (sems s) 5 ∧
  ∃ s1 p1 s2 p2,
    acquire_resource 5 AcqSem1 0 p s = Some s1 ∧ procs s1 !! 0%nat = Some p1 ∧
    rd (sems s1) 5 = rd (sems s) 5 - 1 ∧
    do_exit (-1) 0 p1 s1 = Some s2 ∧ procs s2 !! 0%nat = Some p2 ∧
    sems s2 = sems s ∧ (∀ j, rd (p_semadj p2) j = 0) ∧
    p_pc p2 = Zombie (exit_status (-1)).
Proof.
  intros s p.
  assert (procs s !! 0%nat = Some p) as Hp by (vm_compute; reflexivity).
  assert (5 < length (sems s))%nat as Hk by (vm_compute; lia).
  assert (length (p_semadj p) = length (sems s)) as Hlen by (vm_compute; reflexivity).
  assert (∀ j, rd (p_semadj p) j = 0) as H0.
  { intros j. do 6 (destruct j as [|j]; [reflexivity|]). reflexivity. }
  assert (0 < rd (sems s) 5) as Hpos by (vm_compute; reflexivity).
  split; [exact Hp|]. split; [exact Hk|]. split; [exact Hlen|]. split; [exact H0|].
  split; [exact Hpos|].
  exact (exit_gives_back 5 0 AcqSem1 (-1) p s Hp Hk Hlen H0 Hpos).
Defined.

(** ** The end of [main]: lines 119-147 *)

(** X9. The cleanup of lines 126-143 never takes an error branch: neither
    "Error occurred destroying memory segment" nor "Semaphore was not
    removed" is ever on the console.  When [main] arrives at line 126 all [N]
    segments of [shmIds] and the [N + 1] semaphores exist and no segment is
    marked; the cleanup says nothing, removes the semaphore set and marks every
    segment for destruction.  The segments are still there while [main] stands
    at line 147, because [main] has them attached, and they are gone, like the
    semaphore set, once [main] has left through [exit(0)]. *)
Theorem cleanup_complete (N : nat) (shmget : nat → Z) (fs0 : gmap string file)
  (cs : list choice) (s : state) :
  (2 ≤ N)%nat →
  run N cs (boot N shmget fs0) = Some s →
  (MsgDestroyError ∉ out s) ∧ (MsgSemNotRemoved ∉ out s) ∧
  (parent s = PCleanup →
   length (segs s) = N ∧ segs s = shmIds s ∧ doomed s = [] ∧
   length (sems s) = (N + 1)%nat ∧
   segs (cleanup s) = segs s ∧ (∀ id, id ∈ doomed (cleanup s) ↔ id ∈ segs s) ∧
   sems (cleanup s) = [] ∧ out (cleanup s) = out s ∧
   ∀ r q, step_parent N r q s = Some (with_parent PExit0 (cleanup s))) ∧
  (parent s = PExit0 →
   length (segs s) = N ∧ segs s = segs (boot N shmget fs0) ∧
   (∀ id, id ∈ segs s → id ∈ doomed s) ∧ sems s = [] ∧
   ∀ r q, ∃ s', step_parent N r q s = Some s' ∧ parent s' = PDone 0 ∧
                segs s' = [] ∧ doomed s' = [] ∧ sems s' = []) ∧
  (parent s = PDone 0 → segs s = [] ∧ doomed s = [] ∧ sems s = []).
Proof.
  intros HN Hrun.
  pose proof (run_reachable N HN _ _ _ Hrun) as R.
  pose proof (reachable_inv N HN _ _ _ R) as I.
  pose proof (reachable_out_ok N HN _ _ _ R) as O.
  assert (parent s = PCleanup ∨ parent s = PExit0 →
          length (segs s) = N ∧ segs s = segs (boot N shmget fs0)) as Hobj.
  { intros HP.
    destruct (objects_kept N HN shmget fs0 s R) as [Hsegs _];
      [by destruct HP as [E|E]; rewrite E|].
    split; [|done]. rewrite Hsegs. apply (boot_segments N HN).
    destruct (boot_cases N HN shmget fs0) as [Hb|B]; [done|].
    rewrite (boot_failed_only N HN _ s B R) in HP. destruct B as (H & _).
    destruct HP; congruence. }
  split; [intros Hin; by destruct (O _ Hin) as [?|[[?|?] _]]|].
  split; [intros Hin; by destruct (O _ Hin) as [?|[[?|?] _]]|].
  split; [|split].
  - intros HP. destruct I as [L|[A|B]].
    + pose proof (live_sems N s L) as Hlen. pose proof (live_doomed N s L) as Hd.
      destruct (cleanup_marks N HN s (live_segs N s L)) as (d & E & Hmarks).
      { intros E. rewrite E in Hlen. simpl in Hlen. lia. }
      split; [by apply Hobj; left|]. split; [apply L|]. split; [done|].
      split; [done|]. rewrite E. simpl. split; [done|]. split.
      { intros id. rewrite Hmarks, Hd, elem_of_nil. tauto. }
      split; [done|]. split; [done|].
      intros r q. unfold step_parent. by rewrite HP, E.
    + destruct (after_parent N s A) as [H|H]; congruence.
    + destruct B as (H & _). congruence.
  - intros HP. destruct I as [L|[A|B]].
    + pose proof (live_parent N s L) as H. by rewrite HP in H.
    + pose proof (after_segs N s A) as Hsegs. rewrite HP in Hsegs.
      destruct Hsegs as [_ Hall].
      split; [by apply Hobj; right|]. split; [by apply Hobj; right|].
      split; [done|]. split; [apply A|].
      intros r q. eexists. split; [unfold step_parent; rewrite HP; reflexivity|].
      assert (after N (detach (with_parent (PDone (exit_status 0)) s))) as A'.
      { apply (after_step N HN s _ (Parent r q) A). simpl. unfold step_parent.
        by rewrite HP. }
      pose proof (after_segs N _ A') as Hs'. simpl in Hs'.
      split; [done|]. split; [apply Hs'|]. split; [apply Hs'|]. apply A'.
    + destruct B as (H & _). congruence.
  - intros HP.
    destruct (parent_done_after N HN s I HP) as [_ _ Hsems Hsegs _].
    rewrite HP in Hsegs. by destruct Hsegs.
Qed.

Lemma cleanup_complete_witness :
  let cs := forks ++ whole 0 ++ whole 1 ++ whole 2 ++ whole 3 ++ whole 4
            ++ [Parent 0 0; Parent 0 1; Parent 0 2; Parent 0 3; Parent 0 4; Parent 0 0] in
  (2 ≤ 5)%nat ∧ run 5 cs (boot 5 ids ∅) = Some (outcome ∅ cs) ∧
  parent (outcome ∅ cs) = PCleanup ∧
  segs (cleanup (outcome ∅ cs)) = segs (outcome ∅ cs) ∧
  sems (cleanup (outcome ∅ cs)) = [].
Proof.
  intros cs.
  assert (run 5 cs (boot 5 ids ∅) = Some (outcome ∅ cs)) as Hrun
    by (vm_compute; reflexivity).
  assert (parent (outcome ∅ cs) = PCleanup) as HP by (vm_compute; reflexivity).
  split; [lia|]. split; [exact Hrun|]. split; [exact HP|].
  destruct (cleanup_complete 5 ids ∅ cs _ ltac:(lia) Hrun) as (_ & _ & H & _).
  destruct (H HP) as (_ & _ & _ & _ & H1 & _ & H2 & _).
  exact (conj H1 H2).
Defined.

(** X10. The loop of [wait] at line 121 is a barrier.  When [main] is past
    it, all [N] children were forked and every one of them has left through
    [exit(0)] and has been collected.  And as long as some forked child has not
    been collected, the [N + 1] semaphores and the [N] segments of the start
    are all still there: no child ever runs on a removed kernel object. *)
Theorem wait_barrier (N : nat) (shmget : nat → Z) (fs0 : gmap string file)
  (cs : list choice) (s : state) :
  (2 ≤ N)%nat →
  run N cs (boot N shmget fs0) = Some s →
  (parent s = PCleanup ∨ parent s = PExit0 ∨ parent s = PDone 0 →
   length (procs s) = N ∧ ∀ p, p ∈ procs s → p_pc p = Reaped 0) ∧
  (∀ i p, procs s !! i = Some p → p_pc p ≠ Reaped 0 →
          length (sems s) = (N + 1)%nat ∧ length (segs s) = N ∧
          segs s = segs (boot N shmget fs0) ∧ shmIds s = segs s ∧
          parent s ≠ PCleanup ∧ parent s ≠ PExit0 ∧ parent s ≠ PDone 0).
Proof.
  intros HN Hrun.
  pose proof (run_reachable N HN _ _ _ Hrun) as R.
  split.
  - intros HP. destruct (reachable_inv N HN _ _ _ R) as [L|[A|B]].
    + pose proof (live_parent N s L) as H.
      destruct HP as [HP|[HP|HP]]; rewrite HP in H; [done|done|discriminate].
    + apply A.
    + destruct B as (H & _). destruct HP as [HP|[HP|HP]]; congruence.
  - intros i p Hp Hc.
    destruct (boot_cases N HN shmget fs0) as [Hb|B].
    + destruct (reachable_live N HN shmget fs0 s Hb R) as [L|A].
      * destruct (live_objects N HN shmget fs0 s R L) as [Hsegs Hids].
        pose proof (live_parent N s L) as H.
        split; [apply L|]. split; [rewrite Hsegs; by apply (boot_segments N HN)|].
        split; [done|]. split; [by rewrite (live_segs N s L)|].
        repeat split; intros HP; rewrite HP in H; try done.
        destruct H as [_ Hall]. destruct Hc.
        apply Hall. by eapply list_elem_of_lookup_2.
      * destruct Hc. destruct (after_procs N s A) as [_ Hall].
        apply Hall. by eapply list_elem_of_lookup_2.
    + rewrite (boot_failed_only N HN _ s B R) in Hp.
      destruct B as (_ & Hprocs & _). by rewrite Hprocs in Hp.
Qed.

Lemma wait_barrier_witness :
  (2 ≤ 5)%nat ∧ run 5 sequential (boot 5 ids ∅) = Some (outcome ∅ sequential) ∧
  parent (outcome ∅ sequential) = PDone 0 ∧
  length (procs (outcome ∅ sequential)) = 5%nat.
Proof.
  assert (run 5 sequential (boot 5 ids ∅) = Some (outcome ∅ sequential)) as Hrun
    by (vm_compute; reflexivity).
  assert (parent (outcome ∅ sequential) = PDone 0) as HP by (vm_compute; reflexivity).
  split; [lia|]. split; [exact Hrun|]. split; [exact HP|].
  destruct (wait_barrier 5 ids ∅ sequential _ ltac:(lia) Hrun) as (H & _).
  exact (proj1 (H (or_intror (or_intror HP)))).
Defined.

(** X11. The exit status of [main] can be read off the console: the status
    is 255 exactly when "Fork Failed" or "Failed getting shared memory" has
    been printed, and it is 0 otherwise; and apart from these two lines the
    console only ever holds the progress lines of the children. *)
Theorem main_status (N : nat) (shmget : nat → Z) (fs0 : gmap string file)
  (cs : list choice) (s : state) :
  (2 ≤ N)%nat →
  run N cs (boot N shmget fs0) = Some s →
  ((MsgForkFailed ∈ out s ∨ MsgShmFailed ∈ out s) ↔ parent s = PDone 255) ∧
  (∀ st, parent s = PDone st → st = 0 ∨ st = 255) ∧
  (∀ m, m ∈ out s → quiet m = true ∨ m = MsgForkFailed ∨ m = MsgShmFailed) ∧
  filter (λ m, quiet m = true) (out s) = printed (hist s).
Proof.
  intros HN Hrun.
  pose proof (run_reachable N HN _ _ _ Hrun) as R.
  pose proof (reachable_out_ok N HN _ _ _ R) as O.
  split; [split|split; [|split]].
  - intros [H|H]; by destruct (O _ H) as [?|[_ ?]].
  - apply (reachable_failure_said N HN _ _ _ R).
  - intros st HP.
    destruct (parent_status N HN shmget fs0 s st R HP) as [?|[? _]]; auto.
  - intros m Hm. destruct (O m Hm) as [?|[[?|?] _]]; auto.
  - by apply (reachable_out_printed N HN shmget fs0).
Qed.

Lemma main_status_witness :
  (2 ≤ 5)%nat ∧ run 5 fork_fails (boot 5 ids ∅) = Some (outcome ∅ fork_fails) ∧
  parent (outcome ∅ fork_fails) = PDone 255 ∧
  (MsgForkFailed ∈ out (outcome ∅ fork_fails) ∨ MsgShmFailed ∈ out (outcome ∅ fork_fails)).
Proof.
  assert (run 5 fork_fails (boot 5 ids ∅) = Some (outcome ∅ fork_fails)) as Hrun
    by (vm_compute; reflexivity).
  assert (parent (outcome ∅ fork_fails) = PDone 255) as HP by (vm_compute; reflexivity).
  split; [lia|]. split; [exact Hrun|]. split; [exact HP|].
  destruct (main_status 5 ids ∅ fork_fails _ ltac:(lia) Hrun) as (H & _).
  exact (proj2 H HP).
Defined.

(** X12. Once [main] has left through [exit(-1)], at line 94 or at line 108,
    nothing is ever removed: in that state and in every state a schedule
    leads to from there, the parent stays terminated with status 255, the
    [N + 1] semaphores exist and the segments are those the start of [main]
    created. *)
Theorem failure_leaks (N : nat) (shmget : nat → Z) (fs0 : gmap string file)
  (cs cs' : list choice) (s s' : state) :
  (2 ≤ N)%nat →
  run N cs (boot N shmget fs0) = Some s →
  parent s = PDone 255 →
  run N cs' s = Some s' →
  parent s' = PDone 255 ∧ length (sems s') = (N + 1)%nat ∧
  segs s' = segs (boot N shmget fs0) ∧
  ∀ r q, step_parent N r q s' = None.
Proof.
  intros HN Hrun HP Hrun'.
  pose proof (run_reachable N HN _ _ _ Hrun) as R.
  pose proof (reachable_run N HN _ _ _ _ R Hrun') as R'.
  pose proof (run_failed_stays N HN cs' s s' HP Hrun') as HP'.
  split; [exact HP'|].
  assert (length (sems s') = (N + 1)%nat ∧ segs s' = segs (boot N shmget fs0)) as [H1 H2].
  { destruct (boot_cases N HN shmget fs0) as [Hb|B].
    - destruct (reachable_live N HN shmget fs0 s' Hb R') as [L|A].
      + split; [apply L|]. by destruct (live_objects N HN shmget fs0 s' R' L).
      + destruct (after_parent N s' A) as [H|H]; congruence.
    - rewrite (boot_failed_only N HN _ s' B R'). split; [|done].
      unfold boot. rewrite boot_loop_sems_length. simpl. by rewrite length_replicate. }
  split; [exact H1|]. split; [exact H2|].
  intros r q. unfold step_parent. by rewrite HP'.
Qed.

Lemma failure_leaks_witness :
  let s := outcome ∅ fork_fails in
  let cs' := whole 0 ++ whole 1 in
  (2 ≤ 5)%nat ∧ run 5 fork_fails (boot 5 ids ∅) = Some s ∧
  parent s = PDone 255 ∧ run 5 cs' s = Some (outcome_from s cs') ∧
  parent (outcome_from s cs') = PDone 255 ∧
  length (sems (outcome_from s cs')) = 6%nat ∧
  segs (outcome_from s cs') = segs (boot 5 ids ∅).
Proof.
  intros s cs'.
  assert (run 5 fork_fails (boot 5 ids ∅) = Some s) as Hrun by (vm_compute; reflexivity).
  assert (parent s = PDone 255) as HP by (vm_compute; reflexivity).
  assert (run 5 cs' s = Some (outcome_from s cs')) as Hrun' by (vm_compute; reflexivity).
  split; [lia|]. split; [exact Hrun|]. split; [exact HP|]. split; [exact Hrun'|].
  destruct (failure_leaks 5 ids ∅ fork_fails cs' s _ ltac:(lia) Hrun HP Hrun')
    as (H1 & H2 & H3 & _).
  exact (conj H1 (conj H2 H3)).
Defined.

(** ** The files *)

(** X13. The files are only ever appended to ([ofstream::app] at lines 225
    and 226): from any state of a run to any later one, the lines a file held
    are still there in front of what has been added, a file that exists is
    never removed, and whether a file can be written never changes. *)
Theorem files_append_only (N : nat) (shmget : nat → Z) (fs0 : gmap string file)
  (cs cs' : list choice) (s s' : state) (f : string) :
  (2 ≤ N)%nat →
  run N cs (boot N shmget fs0) = Some s →
  run N cs' s = Some s' →
  content (fs s) f `prefix_of` content (fs s') f ∧
  (fs s' !! f = Some Unwritable ↔ fs s !! f = Some Unwritable) ∧
  (is_Some (fs s !! f) → is_Some (fs s' !! f)).
Proof.
  intros HN Hrun Hrun'.
  pose proof (run_reachable N HN _ _ _ Hrun) as R.
  pose proof (reachable_inv N HN _ _ _ R) as I.
  by apply (run_files_grow N HN cs').
Qed.

Lemma files_append_only_witness :
  let cs := forks ++ replicate 11 (Child 0) in
  let s := outcome ∅ cs in
  let cs' := replicate 16 (Child 0) in
  (2 ≤ 5)%nat ∧ run 5 cs (boot 5 ids ∅) = Some s ∧
  run 5 cs' s = Some (outcome_from s cs') ∧
  content (fs s) "faculty.txt" `prefix_of` content (fs (outcome_from s cs')) "faculty.txt".
Proof.
  intros cs s cs'.
  assert (run 5 cs (boot 5 ids ∅) = Some s) as Hrun by (vm_compute; reflexivity).
  assert (run 5 cs' s = Some (outcome_from s cs')) as Hrun' by (vm_compute; reflexivity).
  split; [lia|]. split; [exact Hrun|]. split; [exact Hrun'|].
  exact (proj1 (files_append_only 5 ids ∅ cs cs' s _ "faculty.txt" ltac:(lia) Hrun Hrun')).
Defined.

(** The table of lines 191-222: the second file of a child is the first file
    of its successor on the ring, and the five first files are distinct. *)
Lemma db2_is_next (w : nat) :
  (w < 5)%nat → db2filename w = db1filename (sem2 PROC_COUNT w).
Proof. intros Hw. do 5 (destruct w as [|w]; [reflexivity|]). lia. Qed.

Lemma db1_inj (w1 w2 : nat) :
  (w1 < 5)%nat → (w2 < 5)%nat → db1filename w1 = db1filename w2 → w1 = w2.
Proof.
  intros H1 H2 E.
  do 5 (destruct w1 as [|w1];
        [do 5 (destruct w2 as [|w2]; [first [reflexivity|vm_compute in E; discriminate]|]);
         lia|]).
  lia.
Qed.

Lemma db1_ne_db2 (w : nat) : (w < 5)%nat → db1filename w ≠ db2filename w.
Proof.
  intros Hw E. rewrite db2_is_next in E by done.
  apply db1_inj in E; [|done|by apply (sem2_lt _ PROC_COUNT_ring)].
  by destruct (sem2_ne _ PROC_COUNT_ring w Hw).
Qed.

(** A child in the middle of its two lines in a file holds the lock of the
    resource the file stands for. *)
Lemma writing_holds (s : state) (f : string) (w : nat) :
  inv PROC_COUNT s → writing s f w →
  ∃ r, f = db1filename r ∧ (r < 5)%nat ∧ holds_lock PROC_COUNT s w r.
Proof.
  intros I (p & Hp & H).
  pose proof (inv_lookup_lt _ PROC_COUNT_ring s w p I Hp) as Hw.
  destruct H as [[H ->]|[H ->]].
  - exists w. split; [done|]. split; [done|]. exists p. split; [done|].
    left. split; [by apply (writing1_has _ PROC_COUNT_ring)|done].
  - exists (sem2 PROC_COUNT w). split; [by apply db2_is_next|].
    split; [by apply (sem2_lt _ PROC_COUNT_ring)|]. exists p. split; [done|].
    right. split; [by apply (writing2_has _ PROC_COUNT_ring)|done].
Qed.

Lemma writing_unique (s : state) (f : string) (w1 w2 : nat) :
  inv PROC_COUNT s → writing s f w1 → writing s f w2 → w1 = w2.
Proof.
  intros I H1 H2.
  destruct (writing_holds s f w1 I H1) as (r1 & E1 & Hr1 & L1).
  destruct (writing_holds s f w2 I H2) as (r2 & E2 & Hr2 & L2).
  assert (r1 = r2) as <- by (apply db1_inj; congruence).
  by apply (exclusive_holder _ PROC_COUNT_ring s w1 w2 r1).
Qed.

(** A child about to write its first line to a file finds no child in the
    middle of its lines there. *)
Lemma writing_none (s : state) (f : string) (i : nat) (p : proc) :
  inv PROC_COUNT s → procs s !! i = Some p →
  (p_pc p = Wr1Used ∧ f = db1filename i) ∨ (p_pc p = Wr2Used ∧ f = db2filename i) →
  ∀ w, ¬ writing s f w.
Proof.
  intros I Hp Hc w Hw.
  pose proof (inv_lookup_lt _ PROC_COUNT_ring s i p I Hp) as Hi.
  destruct (writing_holds s f w I Hw) as (r & E & Hr & L).
  assert (holds_lock PROC_COUNT s i r) as Li.
  { exists p. split; [done|]. destruct Hc as [[Hc Ef]|[Hc Ef]]; rewrite Hc.
    - left. split; [done|]. unfold sem1. apply db1_inj; [done|done|congruence].
    - right. split; [done|]. rewrite db2_is_next in Ef by done.
      apply db1_inj; [done|by apply (sem2_lt _ PROC_COUNT_ring)|congruence]. }
  assert (w = i) as -> by (by apply (exclusive_holder _ PROC_COUNT_ring s w i r)).
  apply (writing_at _ PROC_COUNT_ring s f i p Hp) in Hw.
  destruct Hc as [[Hc Ef]|[Hc Ef]]; rewrite Hc in Hw;
    destruct Hw as [[? ?]|[? ?]]; try done.
  apply (db1_ne_db2 i Hi). congruence.
Qed.

Lemma tidy_step (c : choice) (s s' : state) (f : string) :
  inv PROC_COUNT s → tidy s f → step PROC_COUNT c s = Some s' → tidy s' f.
Proof.
  intros I (ws & o & Happ & Hw & Hws) Hstep.
  pose proof (λ w, pid_of_step _ PROC_COUNT_ring c s s' w Hstep) as Hpid.
  pose proof (step_procs_length _ PROC_COUNT_ring c s s' Hstep) as Hlen.
  assert (∀ w, o = Some w → (w < length (procs s))%nat) as Ho.
  { intros w Ew. apply Hw in Ew as (p & Hp & _). by eapply lookup_lt_Some. }
  pose proof (blocks_pids _ PROC_COUNT_ring s s' ws o Hpid Hws Ho) as Hbl.
  assert (∀ w, w ∈ ws → (w < length (procs s'))%nat) as Hws'.
  { intros w Hin. specialize (Hws w Hin). lia. }
  destruct c as [i|r q]; simpl in Hstep.
  - destruct (step_child_writes _ PROC_COUNT_ring i s s' Hstep)
      as (p & p' & a & Hp & Hprocs & Hhist & Hpid' & Hcase).
    pose proof (inv_lookup_lt _ PROC_COUNT_ring s i p I Hp) as Hi.
    pose proof (lookup_lt_Some _ _ _ Hp) as Hlt.
    assert (procs s' !! i = Some p') as Hp'.
    { rewrite Hprocs. by apply list_lookup_insert_eq. }
    pose proof (writing_at _ PROC_COUNT_ring s f i p Hp) as Wi.
    pose proof (writing_at _ PROC_COUNT_ring s' f i p' Hp') as Wi'.
    pose proof (db1_ne_db2 i Hi) as Hdb.
    assert ((∀ l, a ≠ Append f l) → (writing s' f i ↔ writing s f i) → tidy s' f)
      as Hsame.
    { intros Ha Hwi. exists ws, o. split; [|split; [|done]].
      - rewrite Hhist, (appended_snoc _ PROC_COUNT_ring), Hbl, <- Happ.
        destruct a; try (by rewrite app_nil_r).
        case_decide as Hf; [subst; by destruct (Ha l)|by rewrite app_nil_r].
      - intros w. rewrite Hw. destruct (decide (w = i)) as [->|Hne]; [done|].
        symmetry. by eapply (writing_other _ PROC_COUNT_ring). }
    assert (∀ l, a = Append f l → l = BeingUsedBy (systemName i) (p_pid p) →
                 (∀ w, ¬ writing s f w) → writing s' f i → tidy s' f) as Hfirst.
    { intros l -> -> Hnone Hnow.
      assert (o = None) as ->.
      { destruct o as [w0|]; [|done]. destruct (Hnone w0). by apply Hw. }
      exists ws, (Some i). split; [|split; [|done]].
      - rewrite Hhist, (appended_snoc _ PROC_COUNT_ring), decide_True by done. rewrite Happ.
        unfold blocks in *. rewrite !app_nil_r in *. rewrite Hbl. f_equal.
        unfold used_by, pid_of. rewrite Hp'. simpl. by rewrite Hpid'.
      - intros w. split; [by intros [= <-]|]. intros Hw'.
        destruct (decide (w = i)) as [->|Hne]; [done|].
        apply (writing_other _ PROC_COUNT_ring s s' i p' f w Hprocs Hne) in Hw'.
        by destruct (Hnone w). }
    assert (∀ l, a = Append f l → l = FreeFrom (systemName i) (p_pid p) →
                 writing s f i → ¬ writing s' f i → tidy s' f) as Hlast.
    { intros l -> -> Hwas Hnow.
      assert (o = Some i) as -> by (by apply Hw).
      exists (ws ++ [i]), None. split; [|split].
      - rewrite Hhist, (appended_snoc _ PROC_COUNT_ring), decide_True by done. rewrite Happ, <- Hbl.
        unfold blocks. rewrite bind_app, bind_singleton, !app_nil_r.
        rewrite <- !app_assoc. f_equal. simpl. f_equal.
        unfold free_from, pid_of. rewrite Hp'. simpl. by rewrite Hpid'.
      - intros w. split; [done|]. intros Hw'.
        destruct (decide (w = i)) as [->|Hne]; [done|].
        apply (writing_other _ PROC_COUNT_ring s s' i p' f w Hprocs Hne) in Hw'.
        apply Hw in Hw'. congruence.
      - intros w Hin. apply elem_of_app in Hin as [Hin|Hin]; [by apply Hws'|].
        apply list_elem_of_singleton in Hin as ->. lia. }
    destruct (p_pc p) eqn:Hc;
      try (destruct Hcase as (Ha & H1 & H2); apply Hsame;
           [intros l; apply Ha|rewrite Wi, Wi', H1, H2; done]);
      destruct Hcase as (Hc' & Ha); rewrite Hc' in Wi'; simpl in Wi, Wi'.
    + (* line 230 *)
      destruct (decide (db1filename i = f)) as [<-|Hne].
      * apply (Hfirst _ Ha eq_refl).
        -- apply (writing_none s _ i p I Hp). left. by rewrite Hc.
        -- apply Wi'. by left.
      * apply Hsame; [intros l; rewrite Ha; intros [= ? ?]; done|].
        rewrite Wi, Wi'. split; intros [[? ?]|[? ?]]; done.
    + (* line 233 *)
      destruct (decide (db2filename i = f)) as [<-|Hne].
      * apply (Hfirst _ Ha eq_refl).
        -- apply (writing_none s _ i p I Hp). right. by rewrite Hc.
        -- apply Wi'. by right.
      * apply Hsame; [intros l; rewrite Ha; intros [= ? ?]; done|].
        rewrite Wi, Wi'. split; (intros [[? ?]|[? ?]]; [by left|done]).
    + (* line 235 *)
      destruct (decide (db1filename i = f)) as [<-|Hne].
      * apply (Hlast _ Ha eq_refl).
        -- apply Wi. by left.
        -- rewrite Wi'. intros [[? ?]|[? ?]]; done.
      * apply Hsame; [intros l; rewrite Ha; intros [= ? ?]; done|].
        rewrite Wi, Wi'. split; (intros [[? ?]|[? ?]]; [done|by right]).
    + (* line 236 *)
      destruct (decide (db2filename i = f)) as [<-|Hne].
      * apply (Hlast _ Ha eq_refl).
        -- apply Wi. by right.
        -- rewrite Wi'. intros [[? ?]|[? ?]]; done.
      * apply Hsame; [intros l; rewrite Ha; intros [= ? ?]; done|].
        rewrite Wi, Wi'. split; intros [[? ?]|[? ?]]; done.
  - destruct (step_parent_spec _ PROC_COUNT_ring r q s s' Hstep) as (Hhist & _).
    exists ws, o. split; [by rewrite Hhist, Hbl|]. split; [|done].
    intros w. rewrite Hw. symmetry.
    by apply (step_parent_writing _ PROC_COUNT_ring r q).
Qed.

Lemma reachable_tidy (shmget : nat → Z) (fs0 : gmap string file) (s : state) (f : string) :
  reachable PROC_COUNT (boot PROC_COUNT shmget fs0) s → tidy s f.
Proof.
  induction 1 as [|s c s' R IH Hstep].
  - destruct (boot_loop_shape _ PROC_COUNT_ring shmget PROC_COUNT 0 (fresh PROC_COUNT fs0))
      as (Hp & Hh & _).
    exists [], None. unfold boot. rewrite Hh. split; [done|]. split; [|by intros w ?%elem_of_nil].
    intros w. split; [done|]. intros (p & Hw & _). by rewrite Hp in Hw.
  - eapply tidy_step; [|done..]. by eapply (reachable_inv _ PROC_COUNT_ring).
Qed.

(** X14. What the locks are for: the children never write into each other's
    lines.  In every state of a run the lines appended to a file are whole
    pairs "Being used by S (pid:P)", "Free from the S (pid: P)", each pair
    of one child [w] with its system name and its pid, followed by at most
    one single line "Being used by" of the child that is in the middle of
    its two lines at that moment; a writable file holds what it held at the
    start and then these lines; at most one child is in the middle of its
    lines in a file, and none is once all forked children have terminated. *)
Theorem exclusive_writing (shmget : nat → Z) (fs0 : gmap string file)
  (cs : list choice) (s : state) (f : string) :
  run PROC_COUNT cs (boot PROC_COUNT shmget fs0) = Some s →
  ∃ ws o,
    appended f (hist s) = blocks s ws o ∧
    (∀ w, o = Some w ↔ writing s f w) ∧
    (writable fs0 f → content (fs s) f = content fs0 f ++ (snd <$> blocks s ws o)) ∧
    ((∀ p, p ∈ procs s → is_alive p = false) → o = None).
Proof.
  intros Hrun.
  pose proof (run_reachable _ PROC_COUNT_ring _ _ _ Hrun) as R.
  destruct (reachable_tidy shmget fs0 s f R) as (ws & o & Happ & Hw & _).
  exists ws, o. split; [done|]. split; [done|]. split.
  - intros Hwr. rewrite <- Happ.
    by apply (files_content _ _ (reachable_files_ok _ PROC_COUNT_ring _ _ _ R)).
  - intros Hall. destruct o as [w|]; [|done].
    destruct (proj1 (Hw w) eq_refl) as (p & Hp & H).
    pose proof (Hall p (list_elem_of_lookup_2 _ _ _ Hp)) as Ha.
    unfold is_alive in Ha. by destruct H as [[H _]|[H _]]; destruct (p_pc p).
Qed.

Lemma exclusive_writing_witness :
  let cs := forks ++ replicate 16 (Child 1) ++ replicate 2 (Child 3) in
  run PROC_COUNT cs (boot PROC_COUNT ids ∅) = Some (outcome ∅ cs) ∧
  ∃ ws o,
    appended "students.txt" (hist (outcome ∅ cs)) = blocks (outcome ∅ cs) ws o ∧
    (∀ w, o = Some w ↔ writing (outcome ∅ cs) "students.txt" w).
Proof.
  intros cs.
  assert (run PROC_COUNT cs (boot PROC_COUNT ids ∅) = Some (outcome ∅ cs)) as Hrun
    by (vm_compute; reflexivity).
  split; [exact Hrun|].
  destruct (exclusive_writing ids ∅ cs _ "students.txt" Hrun) as (ws & o & H1 & H2 & _).
  exists ws, o. exact (conj H1 H2).
Defined.

(** ** The work of a run *)

(** X15. Unless [main] leaves through [exit(-1)], a run makes the same
    steps whatever the scheduler does: the steps made so far and the steps
    still to make add up to [29 * N + 4], so every run that ends with [main]
    leaving through [exit(0)] has exactly 149 steps in the program: for each
    child its [fork], its 27 statements and the [wait] that collects it, and
    four steps of [main] from the end of the fork loop to [exit(0)]. *)
Theorem run_length (N : nat) (shmget : nat → Z) (fs0 : gmap string file)
  (cs : list choice) (s : state) :
  (2 ≤ N)%nat →
  run N cs (boot N shmget fs0) = Some s →
  parent s ≠ PDone 255 →
  (length cs + steps_left N s = 29 * N + 4)%nat ∧
  (parent s = PDone 0 → length cs = (29 * N + 4)%nat).
Proof.
  intros HN Hrun Hne.
  pose proof (run_reachable N HN _ _ _ Hrun) as R.
  pose proof (run_exact N HN cs _ s (boot_inv N HN shmget fs0) Hrun Hne) as He.
  assert (steps_left N (boot N shmget fs0) = (29 * N + 4)%nat) as Hb.
  { destruct (boot_cases N HN shmget fs0) as [Hb|B].
    - destruct (boot_loop_shape N HN shmget N 0 (fresh N fs0)) as (Hp & _).
      unfold steps_left. unfold boot in *. rewrite Hb, Hp. simpl. lia.
    - rewrite (boot_failed_only N HN _ s B R) in Hne. by destruct B as (H & _). }
  split; [lia|]. intros HP.
  destruct (parent_done_after N HN s (reachable_inv N HN _ _ _ R) HP) as [_ [_ Hall] _ _ _].
  assert (steps_left N s = 0%nat) as H0.
  { unfold steps_left. rewrite HP, (all_reaped_left N HN) by done. done. }
  lia.
Qed.

Lemma run_length_witness :
  (2 ≤ 5)%nat ∧ run 5 sequential (boot 5 ids ∅) = Some (outcome ∅ sequential) ∧
  parent (outcome ∅ sequential) ≠ PDone 255 ∧ parent (outcome ∅ sequential) = PDone 0 ∧
  length sequential = 149%nat.
Proof.
  assert (run 5 sequential (boot 5 ids ∅) = Some (outcome ∅ sequential)) as Hrun
    by (vm_compute; reflexivity).
  assert (parent (outcome ∅ sequential) ≠ PDone 255) as Hne by (vm_compute; discriminate).
  assert (parent (outcome ∅ sequential) = PDone 0) as HP by (vm_compute; reflexivity).
  split; [lia|]. split; [exact Hrun|]. split; [exact Hne|]. split; [exact HP|].
  exact (proj2 (run_length 5 ids ∅ sequential _ ltac:(lia) Hrun Hne) HP).
Defined.

(** X16. The gate admits [N - 1] children, but the ring lets fewer work at
    the same time: in every state of a run the children that hold both their
    locks number at most [N / 2], two in the program. *)
Theorem working_bound (N : nat) (shmget : nat → Z) (fs0 : gmap string file)
  (cs : list choice) (s : state) :
  (2 ≤ N)%nat →
  run N cs (boot N shmget fs0) = Some s →
  (2 * length (workers s) ≤ N)%nat ∧
  ∀ w, w ∈ workers s ↔
       ∃ p, procs s !! w = Some p ∧ has1 (p_pc p) = true ∧ has2 (p_pc p) = true.
Proof.
  intros HN Hrun.
  pose proof (run_reachable N HN _ _ _ Hrun) as R.
  split; [apply (workers_bound N HN), (reachable_inv N HN _ _ _ R)|].
  intros w. unfold workers, at_work. rewrite list_elem_of_filter, elem_of_seq. split.
  - intros [H _]. destruct (procs s !! w) as [p|]; [|done].
    apply andb_true_iff in H. by exists p.
  - intros (p & Hp & H1 & H2). rewrite Hp, H1, H2. split; [done|].
    apply lookup_lt_Some in Hp. lia.
Qed.

Lemma working_bound_witness :
  let cs := forks ++ replicate 3 (Child 0) ++ replicate 3 (Child 2) in
  (2 ≤ 5)%nat ∧ run 5 cs (boot 5 ids ∅) = Some (outcome ∅ cs) ∧
  workers (outcome ∅ cs) = [0; 2]%nat ∧
  (2 * length (workers (outcome ∅ cs)) ≤ 5)%nat.
Proof.
  intros cs.
  assert (run 5 cs (boot 5 ids ∅) = Some (outcome ∅ cs)) as Hrun
    by (vm_compute; reflexivity).
  split; [lia|]. split; [exact Hrun|]. split; [vm_compute; reflexivity|].
  exact (proj1 (working_bound 5 ids ∅ cs _ ltac:(lia) Hrun)).
Defined.
